(** * youtrack-calendar-sync: the synchronisation engine, embedded and verified

    The development follows the repository's packages:
    - [gotime]         : the part of Go's [time] package the program uses;
    - [sql], [DB]      : [sync/db.go], the SQLite-backed binding store;
    - [youtrack]       : [youtrack/models.go] and [youtrack/client.go];
    - [googlecalendar] : [googlecalendar/client.go];
    - [Reconciler]     : the [Synchronizer] of package [sync].
    Definitions come first, the theorems about them after. *)

From stdpp Require Import gmap strings list.
From Stdlib Require Import ZArith Lia Ascii String List.
Import ListNotations.

Local Open Scope string_scope.
Local Open Scope Z_scope.

(** ** Go's [time] package *)

Module gotime.

(** A [time.Time] is modelled by its instant: nanoseconds since the Unix
    epoch.  A [time.Duration] is a number of nanoseconds, as in Go. *)
Definition Time := Z.
Definition Duration := Z.

Definition Nanosecond : Duration := 1.
Definition Millisecond : Duration := 1000000.
Definition Second : Duration := 1000000000.
Definition Hour : Duration := 3600 * Second.

(** [time.Time{}]: January 1, year 1, 00:00:00 UTC. *)
Definition zero : Time := -62135596800 * Second.

Definition IsZero (t : Time) : bool := t =? zero.
Definition UnixMilli (msec : Z) : Time := msec * Millisecond.
Definition Add (t : Time) (d : Duration) : Time := t + d.
(** [t.After(u)] *)
Definition After (t u : Time) : bool := u <? t.

(** [t.AddDate(0, 0, days)] in a zone with a fixed offset: the wall clock
    reading is kept and the day moves, i.e. [days] times 24 hours pass. *)
Definition AddDate_days (t : Time) (days : Z) : Time := t + days * (24 * Hour).

(** Day number (days since 1970-01-01) of the instant [t] as seen in a zone
    [loc] seconds east of UTC. *)
Definition civil_day (loc : Z) (t : Time) : Z := (t / Second + loc) / 86400.

(** Proleptic Gregorian date (year, month, day) of a day number. *)
Definition civil_from_days (days : Z) : Z * Z * Z :=
  let z := days + 719468 in
  let era := z / 146097 in
  let doe := z - era * 146097 in
  let yoe := (doe - doe / 1460 + doe / 36524 - doe / 146096) / 365 in
  let doy := doe - (365 * yoe + yoe / 4 - yoe / 100) in
  let mp := (5 * doy + 2) / 153 in
  let d := doy - (153 * mp + 2) / 5 + 1 in
  let m := if mp <? 10 then mp + 3 else mp - 9 in
  let y := yoe + era * 400 + (if m <=? 2 then 1 else 0) in
  (y, m, d).

Definition digit (n : Z) : ascii := ascii_of_nat (48 + Z.to_nat (n mod 10)).

Definition pad2 (n : Z) : string :=
  String (digit (n / 10)) (String (digit n) EmptyString).

Definition pad4 (n : Z) : string :=
  String (digit (n / 1000)) (String (digit (n / 100)) (pad2 n)).

(** [t.Format("2006-01-02")] for a time carrying the zone [loc]
    (years 0 to 9999). *)
Definition Format_date (loc : Z) (t : Time) : string :=
  let '(y, m, d) := civil_from_days (civil_day loc t) in
  pad4 y +:+ "-" +:+ pad2 m +:+ "-" +:+ pad2 d.

End gotime.

Abbreviation Time := gotime.Time.

(** ** Errors

    Go's [error] values, as far as the program distinguishes them. *)

Inductive error : Type :=
| ErrDriver                            (* a statement failed in the SQLite driver *)
| ErrConstraint                        (* UNIQUE constraint failed *)
| ErrScanNull                          (* database/sql: NULL scanned into string or time.Time *)
| ErrNotFound                          (* youtrack.ErrNotFound *)
| ErrMsg (msg : string)                (* errors.New / fmt.Errorf without %w *)
| Errorf (msg : string) (cause : error). (* fmt.Errorf(msg ++ ": %w", cause) *)

(** A Go result pair [(value, err)] with exactly one side set. *)
Inductive result (A : Type) : Type :=
| Ok (a : A)
| Err (e : error).
Arguments Ok {A} a.
Arguments Err {A} e.

(** ** database/sql nullable columns *)

Module sql.

Record NullString := { ns_String : string; ns_Valid : bool }.
Record NullTime := { nt_Time : Time; nt_Valid : bool }.

(** [driver.Valuer]: what is bound to a statement parameter. *)
Definition NullString_Value (n : NullString) : option string :=
  if ns_Valid n then Some (ns_String n) else None.
Definition NullTime_Value (n : NullTime) : option Time :=
  if nt_Valid n then Some (nt_Time n) else None.

(** [sql.Scanner]: what a column value is read into. *)
Definition NullString_Scan (v : option string) : NullString :=
  match v with
  | Some s => {| ns_String := s; ns_Valid := true |}
  | None => {| ns_String := ""; ns_Valid := false |}
  end.
Definition NullTime_Scan (v : option Time) : NullTime :=
  match v with
  | Some t => {| nt_Time := t; nt_Valid := true |}
  | None => {| nt_Time := gotime.zero; nt_Valid := false |}
  end.

End sql.

(** ** The binding store ([sync/db.go]) *)

Module DB.

Import sql.

(** [SyncItem], the Go struct. *)
Record SyncItem := {
  ID : Z;
  GCalID : NullString;
  YTID : NullString;
  GCalUpdatedAt : NullTime;
  YTUpdatedAt : NullTime
}.

(** A row of table [sync_items]. *)
Record Row := {
  id : Z;
  gcal_id : option string;
  yt_id : option string;
  gcal_updated_at : option Time;
  yt_updated_at : option Time
}.

(** The row of table [last_sync] (its [id] is always 1). *)
Record LastSync := {
  gcal_sync_token : option string;
  yt_last_sync : option Time
}.

(** The database file: both tables, the AUTOINCREMENT counter of
    [sync_items], and the outcomes of the statements still to come
    ([true]: the driver reports a failure for that statement; an exhausted
    list means no further failure). *)
Record t := {
  sync_items : list Row;
  seq : Z;
  last_sync : option LastSync;
  faults : list bool
}.

Definition with_sync_items (d : t) (rows : list Row) : t :=
  {| sync_items := rows; seq := seq d; last_sync := last_sync d; faults := faults d |}.
Definition with_seq (d : t) (n : Z) : t :=
  {| sync_items := sync_items d; seq := n; last_sync := last_sync d; faults := faults d |}.
Definition with_last_sync (d : t) (l : option LastSync) : t :=
  {| sync_items := sync_items d; seq := seq d; last_sync := l; faults := faults d |}.
Definition with_faults (d : t) (fs : list bool) : t :=
  {| sync_items := sync_items d; seq := seq d; last_sync := last_sync d; faults := fs |}.

(** One statement reaches the driver: does it fail? *)
Definition driver (d : t) : bool * t :=
  match faults d with
  | [] => (false, d)
  | f :: fs => (f, with_faults d fs)
  end.

Definition opt_string_eqb (a : option string) (b : string) : bool :=
  match a with
  | Some s => String.eqb s b
  | None => false
  end.

(** [scanSyncItem] on a row that was found. *)
Definition scanSyncItem (r : Row) : SyncItem :=
  {| ID := id r;
     GCalID := NullString_Scan (gcal_id r);
     YTID := NullString_Scan (yt_id r);
     GCalUpdatedAt := NullTime_Scan (gcal_updated_at r);
     YTUpdatedAt := NullTime_Scan (yt_updated_at r) |}.

(** The values an INSERT or UPDATE binds for the four data columns. *)
Definition bind_row (rowid : Z) (item : SyncItem) : Row :=
  {| id := rowid;
     gcal_id := NullString_Value (GCalID item);
     yt_id := NullString_Value (YTID item);
     gcal_updated_at := NullTime_Value (GCalUpdatedAt item);
     yt_updated_at := NullTime_Value (YTUpdatedAt item) |}.

(** [SELECT ... WHERE gcal_id = ?], first row or sql.ErrNoRows (nil, nil). *)
Definition GetSyncItemByGCalID (gcalID : string) (d : t) : result (option SyncItem) * t :=
  let '(failed, d) := driver d in
  if failed then (Err ErrDriver, d)
  else (Ok (option_map scanSyncItem
              (List.find (fun r => opt_string_eqb (gcal_id r) gcalID) (sync_items d))), d).

Definition GetSyncItemByYTID (ytID : string) (d : t) : result (option SyncItem) * t :=
  let '(failed, d) := driver d in
  if failed then (Err ErrDriver, d)
  else (Ok (option_map scanSyncItem
              (List.find (fun r => opt_string_eqb (yt_id r) ytID) (sync_items d))), d).

Definition GetAllSyncItems (d : t) : result (list SyncItem) * t :=
  let '(failed, d) := driver d in
  if failed then (Err ErrDriver, d)
  else (Ok (List.map scanSyncItem (sync_items d)), d).

(** UNIQUE(gcal_id), UNIQUE(yt_id): a non-NULL value of [r] already used by
    one of [others]. *)
Definition violates_unique (r : Row) (others : list Row) : bool :=
  List.existsb (fun o =>
    match gcal_id r with Some g => opt_string_eqb (gcal_id o) g | None => false end
    || match yt_id r with Some y => opt_string_eqb (yt_id o) y | None => false end)
    others.

Definition max_rowid (rows : list Row) : Z :=
  List.fold_right (fun r m => Z.max (id r) m) 0 rows.

(** [INSERT INTO sync_items (...) VALUES (?, ?, ?, ?)] and [LastInsertId]. *)
Definition CreateSyncItem (item : SyncItem) (d : t) : result Z * t :=
  let '(failed, d) := driver d in
  if failed then (Err ErrDriver, d)
  else
    let rowid := Z.max (seq d) (max_rowid (sync_items d)) + 1 in
    let r := bind_row rowid item in
    if violates_unique r (sync_items d) then (Err ErrConstraint, d)
    else (Ok rowid, with_seq (with_sync_items d (sync_items d ++ [r])) rowid).

(** [UPDATE sync_items SET gcal_id = ?, yt_id = ?, gcal_updated_at = ?,
    yt_updated_at = ? WHERE id = ?]; the number of rows changed is not
    looked at. *)
Definition UpdateSyncItem (item : SyncItem) (d : t) : option error * t :=
  let '(failed, d) := driver d in
  if failed then (Some ErrDriver, d)
  else
    let r := bind_row (ID item) item in
    if List.existsb (fun o => id o =? ID item) (sync_items d) then
      if violates_unique r (List.filter (fun o => negb (id o =? ID item)) (sync_items d))
      then (Some ErrConstraint, d)
      else (None, with_sync_items d
                    (List.map (fun o => if id o =? ID item then r else o) (sync_items d)))
    else (None, d).

(** [DELETE FROM sync_items WHERE id = ?] *)
Definition DeleteSyncItem (rowid : Z) (d : t) : option error * t :=
  let '(failed, d) := driver d in
  if failed then (Some ErrDriver, d)
  else (None, with_sync_items d (List.filter (fun o => negb (id o =? rowid)) (sync_items d))).

(** [SELECT gcal_sync_token FROM last_sync WHERE id = 1] scanned into a
    [string]. *)
Definition GetGCalSyncToken (d : t) : result string * t :=
  let '(failed, d) := driver d in
  if failed then (Err ErrDriver, d)
  else match last_sync d with
       | None => (Ok "", d)
       | Some l => match gcal_sync_token l with
                   | Some token => (Ok token, d)
                   | None => (Err ErrScanNull, d)
                   end
       end.

(** [INSERT OR REPLACE INTO last_sync (id, gcal_sync_token) VALUES (1, ?)]:
    the row with id 1 is replaced by one that has only the named columns
    set. *)
Definition SetGCalSyncToken (token : string) (d : t) : option error * t :=
  let '(failed, d) := driver d in
  if failed then (Some ErrDriver, d)
  else (None, with_last_sync d
                (Some {| gcal_sync_token := Some token; yt_last_sync := None |})).

(** [SELECT yt_last_sync FROM last_sync WHERE id = 1] scanned into a
    [time.Time]. *)
Definition GetYTLastSync (d : t) : result Time * t :=
  let '(failed, d) := driver d in
  if failed then (Err ErrDriver, d)
  else match last_sync d with
       | None => (Ok gotime.zero, d)
       | Some l => match yt_last_sync l with
                   | Some lastSync => (Ok lastSync, d)
                   | None => (Err ErrScanNull, d)
                   end
       end.

(** [UPDATE last_sync SET yt_last_sync = ? WHERE id = 1], and when no row
    was affected [INSERT INTO last_sync (id, yt_last_sync) VALUES (1, ?)]. *)
Definition SetYTLastSync (t0 : Time) (d : t) : option error * t :=
  let '(failed, d) := driver d in
  if failed then (Some ErrDriver, d)
  else match last_sync d with
       | Some l =>
           (None, with_last_sync d
                    (Some {| gcal_sync_token := gcal_sync_token l; yt_last_sync := Some t0 |}))
       | None =>
           let '(failed, d) := driver d in
           if failed then (Some ErrDriver, d)
           else (None, with_last_sync d
                         (Some {| gcal_sync_token := None; yt_last_sync := Some t0 |}))
       end.

(** The driver lets the next statement through. *)
Definition driver_ok (d : t) : Prop := hd false (faults d) = false.

(** The schema's PRIMARY KEY: row ids are pairwise different. *)
Definition unique_ids (d : t) : Prop := List.NoDup (List.map id (sync_items d)).

End DB.

(** ** The issue tracker adapter ([youtrack/models.go], [youtrack/client.go]) *)

Module youtrack.

(** A decoded JSON value ([interface{}] after [encoding/json]); numbers are
    kept as the integer that [int64(val)] yields. *)
Local Unset Elimination Schemes.
Inductive JSON : Type :=
| JNull
| JBool (b : bool)
| JNumber (n : Z)
| JString (s : string)
| JArray (items : list JSON)
| JObject (members : list (string * JSON)).
Local Set Elimination Schemes.

Record Project := {
  Project_Type : string;
  Project_ID : string;
  Project_Name : string;
  Project_ShortName : string
}.

Record CustomField := {
  CustomField_Type : string;
  CustomField_ID : string;
  Name : string;
  Value : JSON
}.

Record Issue := {
  ID : string;
  IDReadable : string;
  Summary : string;
  Description : string;
  Updated : Z;
  Project_ : option Project;
  CustomFields : list CustomField
}.

(** [CustomFieldWrapper] as [json.Marshal] writes it. *)
Definition CustomFieldWrapper (type : string) (value : JSON) : JSON :=
  JObject [("$type", JString type); ("value", value)].

Definition apiPath : string := "/api".

Record Client := { BaseURL : string; Token : string }.

Definition GetBaseURL (c : Client) : string := BaseURL c.

Record Request := {
  Method : string;
  URL : string;
  Header : list (string * string);
  Body : gmap string JSON
}.

Record Response := {
  StatusCode : Z;
  Status : string;
  ResponseBody : string
}.

Definition StatusOK : Z := 200.
Definition StatusNotFound : Z := 404.

(** [t.UnixMilli()] *)
Definition Time_UnixMilli (t : Time) : Z := t / gotime.Millisecond.

(** The [updates] map of [UpdateIssue], which becomes the request body. *)
Definition UpdateIssue_updates (summary description : string) (dueDate : option Time)
  : gmap string JSON :=
  let updates : gmap string JSON :=
    <["description" := JString description]> (<["summary" := JString summary]> ∅) in
  match dueDate with
  | Some d =>
      <["customFields" :=
          JArray [CustomFieldWrapper "DateIssueCustomField" (JNumber (Time_UnixMilli d))]]>
        updates
  | None => updates
  end.

Section Transport.

(** The HTTP side of the client: the state of the network and server, the
    round trip [HTTPClient.Do], and whether [http.NewRequest] accepts a
    URL. *)
Context {E : Type}.
Variable Do : Request -> E -> result Response * E.
Variable url_ok : string -> bool.

Definition UpdateIssue_request (c : Client) (issueID summary description : string)
  (dueDate : option Time) : Request :=
  {| Method := "POST";
     URL := BaseURL c +:+ apiPath +:+ "/issues/" +:+ issueID;
     Header := [("Authorization", "Bearer " +:+ Token c);
                ("Content-Type", "application/json");
                ("Accept", "application/json")];
     Body := UpdateIssue_updates summary description dueDate |}.

Definition UpdateIssue (c : Client) (issueID summary description : string)
  (dueDate : option Time) (e : E) : option error * E :=
  let req := UpdateIssue_request c issueID summary description dueDate in
  if negb (url_ok (URL req))
  then (Some (Errorf "failed to create request" (ErrMsg "net/url: invalid URL")), e)
  else
    match Do req e with
    | (Err err, e') => (Some (Errorf "failed to send request" err), e')
    | (Ok resp, e') =>
        if StatusCode resp =? StatusNotFound then (Some ErrNotFound, e')
        else if negb (StatusCode resp =? StatusOK)
        then (Some (ErrMsg ("failed to update issue, status: " +:+ Status resp
                             +:+ ", body: " +:+ ResponseBody resp)), e')
        else (None, e')
    end.

End Transport.

End youtrack.

(** ** The calendar adapter ([googlecalendar/client.go]) *)

(** The fields of [calendar.Event] (google.golang.org/api/calendar/v3) that
    the program reads or writes. *)
Module calendar.

Record EventDateTime := { Date : string; DateTime : string }.

Record Event := {
  Id : string;
  Summary : string;
  Description : string;
  Start : option EventDateTime;
  End_ : option EventDateTime;
  Status : string;
  Updated : string
}.

End calendar.

Module googlecalendar.

(** [Event], the simplified event the reconciler works on. *)
Record Event := {
  ID : string;
  Summary : string;
  HTMLLink : string;
  Start : Time;
  End_ : Time;
  Status : string;
  Organizer : string;
  Recurrence : list string;
  RecurringEventID : string;
  Updated : Time
}.

(** The [calendar.Event] that [CreateEvent] and [UpdateEvent] build.  [loc]
    is the zone (seconds east of UTC) the [start] and [end] values carry:
    the reconciler passes times made by [time.UnixMilli], which are in the
    process's local zone. *)
Definition whole_day_event (loc : Z) (summary description : string) (start end_ : Time)
  : calendar.Event :=
  {| calendar.Id := "";
     calendar.Summary := summary;
     calendar.Description := description;
     calendar.Start :=
       Some {| calendar.Date := gotime.Format_date loc start; calendar.DateTime := "" |};
     calendar.End_ :=
       Some {| calendar.Date := gotime.Format_date loc (gotime.AddDate_days end_ 1);
               calendar.DateTime := "" |};
     calendar.Status := "";
     calendar.Updated := "" |}.

Section Service.

(** The calendar service behind the client: [srv.Events.Insert(..).Do()]
    and [srv.Events.Update(..).Do()]. *)
Context {E : Type}.
Variable Events_Insert : string -> calendar.Event -> E -> result calendar.Event * E.
Variable Events_Update : string -> string -> calendar.Event -> E -> result calendar.Event * E.
Variable Local : Z.

Definition CreateEvent (calendarID summary description : string) (start end_ : Time)
  (e : E) : result calendar.Event * E :=
  Events_Insert calendarID (whole_day_event Local summary description start end_) e.

Definition UpdateEvent (calendarID eventID summary description : string) (start end_ : Time)
  (e : E) : result calendar.Event * E :=
  Events_Update calendarID eventID (whole_day_event Local summary description start end_) e.

End Service.

End googlecalendar.

(** ** The reconciler (package [sync], the [Synchronizer]) *)

(** The calls the reconciler makes on its collaborators, in order, with
    their arguments. *)
Inductive Call : Type :=
| CallFetchEvents (calendarID syncToken : string)
| CallCreateEvent (calendarID summary description : string) (start end_ : Time)
| CallUpdateEvent (calendarID eventID summary description : string) (start end_ : Time)
| CallDeleteEvent (calendarID eventID : string)
| CallGetUpdatedIssues (projectID : string) (since : Time)
| CallCreateIssue (projectID summary description : string) (dueDate : option Time)
| CallUpdateIssue (issueID summary description : string) (dueDate : option Time)
| CallGetDeletedIssueIDs (projectID : string) (since : Time)
| CallNow (now : Time).

(** The interface [GCalClient], over an environment state [E]. *)
Class GCalClient (E : Type) := {
  FetchEvents : string -> string -> E -> result (list googlecalendar.Event * string) * E;
  CreateEvent : string -> string -> string -> Time -> Time -> E -> result calendar.Event * E;
  UpdateEvent :
    string -> string -> string -> string -> Time -> Time -> E -> result calendar.Event * E;
  DeleteEvent : string -> string -> E -> option error * E
}.

(** The interface [YTClient]. *)
Class YTClient (E : Type) := {
  GetUpdatedIssues : string -> Time -> E -> result (list youtrack.Issue) * E;
  CreateIssue : string -> string -> string -> option Time -> E -> result youtrack.Issue * E;
  UpdateIssue : string -> string -> string -> option Time -> E -> option error * E;
  GetDeletedIssueIDs : string -> Time -> E -> result (list string) * E;
  GetBaseURL : E -> string
}.

(** The standard library functions whose results depend on the outside:
    [time.Now] and [time.Parse(time.RFC3339, _)]. *)
Class Runtime (E : Type) := {
  Now : E -> Time * E;
  Parse_RFC3339 : string -> result Time
}.

(** [Synchronizer]: the configuration fields; the clients and the store
    live in the state the run threads through. *)
Record Synchronizer := {
  YouTrackProjectID : string;
  YouTrackQueryProjectID : string;
  CalendarID : string
}.

Module Reconciler.

Import sql.

Section WithEnvironment.

Context {E : Type} {gcal : GCalClient E} {yt : YTClient E} {rt : Runtime E}.

(** What a run threads through: the store, the environment behind the two
    clients and the clock, the calls made so far and the lines logged so
    far (oldest first). *)
Record World := {
  db : DB.t;
  env : E;
  calls : list Call;
  logs : list string
}.

Definition M (A : Type) : Type := World -> A * World.

Definition ret {A : Type} (a : A) : M A := fun w => (a, w).

Definition bind {A B : Type} (m : M A) (k : A -> M B) : M B :=
  fun w => let '(a, w1) := m w in k a w1.

Notation "x <- c ;; k" := (bind c (fun x => k))
  (at level 100, c at next level, right associativity).
Notation "c ;;; k" := (bind c (fun _ => k))
  (at level 100, right associativity).

(** [for _, x := range l { body x }] *)
Fixpoint forM_ {A : Type} (l : list A) (body : A -> M unit) : M unit :=
  match l with
  | [] => ret tt
  | x :: l' => body x ;;; forM_ l' body
  end.

(** [log.Printf] / [log.Println]: the format string is recorded. *)
Definition log (format : string) : M unit :=
  fun w => (tt, {| db := db w; env := env w; calls := calls w; logs := logs w ++ [format] |}).

(** A method of [s.DB]. *)
Definition onDB {A : Type} (op : DB.t -> A * DB.t) : M A :=
  fun w => let '(a, d) := op (db w) in
           (a, {| db := d; env := env w; calls := calls w; logs := logs w |}).

(** A method of one of the clients, recorded as the call [c]. *)
Definition remote {A : Type} (c : Call) (op : E -> A * E) : M A :=
  fun w => let '(a, e) := op (env w) in
           (a, {| db := db w; env := e; calls := calls w ++ [c]; logs := logs w |}).

(** [time.Now()] *)
Definition time_Now : M Time :=
  fun w => let '(now, e) := Now (env w) in
           (now, {| db := db w; env := e; calls := calls w ++ [CallNow now]; logs := logs w |}).

Definition getBaseURL : M string := fun w => (GetBaseURL (env w), w).

Definition gcal_FetchEvents (calendarID syncToken : string) :=
  remote (CallFetchEvents calendarID syncToken) (FetchEvents calendarID syncToken).
Definition gcal_CreateEvent (calendarID summary description : string) (start end_ : Time) :=
  remote (CallCreateEvent calendarID summary description start end_)
         (CreateEvent calendarID summary description start end_).
Definition gcal_UpdateEvent (calendarID eventID summary description : string)
  (start end_ : Time) :=
  remote (CallUpdateEvent calendarID eventID summary description start end_)
         (UpdateEvent calendarID eventID summary description start end_).
Definition gcal_DeleteEvent (calendarID eventID : string) :=
  remote (CallDeleteEvent calendarID eventID) (DeleteEvent calendarID eventID).
Definition yt_GetUpdatedIssues (projectID : string) (since : Time) :=
  remote (CallGetUpdatedIssues projectID since) (GetUpdatedIssues projectID since).
Definition yt_CreateIssue (projectID summary description : string) (dueDate : option Time) :=
  remote (CallCreateIssue projectID summary description dueDate)
         (CreateIssue projectID summary description dueDate).
Definition yt_UpdateIssue (issueID summary description : string) (dueDate : option Time) :=
  remote (CallUpdateIssue issueID summary description dueDate)
         (UpdateIssue issueID summary description dueDate).
Definition yt_GetDeletedIssueIDs (projectID : string) (since : Time) :=
  remote (CallGetDeletedIssueIDs projectID since) (GetDeletedIssueIDs projectID since).

Variable s : Synchronizer.

Definition NullString_of (v : string) : NullString := {| ns_String := v; ns_Valid := true |}.
Definition NullTime_of (v : Time) : NullTime := {| nt_Time := v; nt_Valid := true |}.

(** [syncItem.GCalUpdatedAt = v] / [syncItem.YTUpdatedAt = v] *)
Definition set_GCalUpdatedAt (item : DB.SyncItem) (v : NullTime) : DB.SyncItem :=
  {| DB.ID := DB.ID item; DB.GCalID := DB.GCalID item; DB.YTID := DB.YTID item;
     DB.GCalUpdatedAt := v; DB.YTUpdatedAt := DB.YTUpdatedAt item |}.
Definition set_YTUpdatedAt (item : DB.SyncItem) (v : NullTime) : DB.SyncItem :=
  {| DB.ID := DB.ID item; DB.GCalID := DB.GCalID item; DB.YTID := DB.YTID item;
     DB.GCalUpdatedAt := DB.GCalUpdatedAt item; DB.YTUpdatedAt := v |}.

(** The body of the loop of [processGCalEvents]. *)
Definition processGCalEvent (event : googlecalendar.Event) : M unit :=
  if String.eqb (googlecalendar.Status event) "cancelled" then ret tt
  else
    r <- onDB (DB.GetSyncItemByGCalID (googlecalendar.ID event)) ;;
    match r with
    | Err _ => log "Error getting sync item for GCal event %s: %v\n"
    | Ok None =>
        log "Creating YouTrack task for new Google Calendar event: %s (%s)\n" ;;;
        r <- yt_CreateIssue (YouTrackProjectID s) (googlecalendar.Summary event)
               (googlecalendar.HTMLLink event) (Some (googlecalendar.Start event)) ;;
        match r with
        | Err _ => log "Error creating YouTrack task: %v\n"
        | Ok issue =>
            r <- onDB (DB.CreateSyncItem
                   {| DB.ID := 0;
                      DB.GCalID := NullString_of (googlecalendar.ID event);
                      DB.YTID := NullString_of (youtrack.ID issue);
                      DB.GCalUpdatedAt := NullTime_of (googlecalendar.Updated event);
                      DB.YTUpdatedAt :=
                        NullTime_of (gotime.UnixMilli (youtrack.Updated issue)) |}) ;;
            match r with
            | Err _ => log "Error creating sync item: %v\n"
            | Ok _ => ret tt
            end
        end
    | Ok (Some syncItem) =>
        if gotime.After (googlecalendar.Updated event) (nt_Time (DB.GCalUpdatedAt syncItem))
        then
          log "Google Calendar event '%s' was updated. Updating YouTrack." ;;;
          err <- yt_UpdateIssue (ns_String (DB.YTID syncItem)) (googlecalendar.Summary event)
                   (googlecalendar.HTMLLink event) (Some (googlecalendar.Start event)) ;;
          match err with
          | Some _ => log "Error updating YouTrack task %s: %v\n"
          | None => ret tt
          end ;;;
          err <- onDB (DB.UpdateSyncItem
                   (set_GCalUpdatedAt syncItem (NullTime_of (googlecalendar.Updated event)))) ;;
          match err with
          | Some _ => log "Error updating sync item: %v\n"
          | None => ret tt
          end
        else ret tt
    end.

Definition processGCalEvents (events : list googlecalendar.Event) : M (option error) :=
  forM_ events processGCalEvent ;;;
  ret None.

(** The loop over [issue.CustomFields]: the last numeric "Due Date" wins,
    the zero time when there is none. *)
Definition dueDate_of (issue : youtrack.Issue) : Time :=
  List.fold_left
    (fun dueDate cf =>
       if String.eqb (youtrack.Name cf) "Due Date" then
         match youtrack.Value cf with
         | youtrack.JNumber val => gotime.UnixMilli val
         | _ => dueDate
         end
       else dueDate)
    (youtrack.CustomFields issue) gotime.zero.

(** [fmt.Sprintf("YouTrack Issue: %s/issue/%s", base, id)] *)
Definition issue_link (base issueID : string) : string :=
  "YouTrack Issue: " +:+ base +:+ "/issue/" +:+ issueID.

(** The body of the loop of [processYTissues]. *)
Definition processYTissue (issue : youtrack.Issue) : M unit :=
  r <- onDB (DB.GetSyncItemByYTID (youtrack.ID issue)) ;;
  match r with
  | Err _ => log "Error getting sync item for YouTrack issue %s: %v\n"
  | Ok found =>
      let dueDate := dueDate_of issue in
      match found with
      | None =>
          if negb (gotime.IsZero dueDate) then
            log "Creating Google Calendar event for new YouTrack task: %s (%s)\n" ;;;
            base <- getBaseURL ;;
            let description := issue_link base (youtrack.ID issue) in
            r <- gcal_CreateEvent (CalendarID s) (youtrack.Summary issue) description
                   dueDate (gotime.Add dueDate gotime.Hour) ;;
            match r with
            | Err _ => log "Error creating Google Calendar event: %v\n"
            | Ok event =>
                let updatedTime :=
                  match Parse_RFC3339 (calendar.Updated event) with
                  | Ok t => t
                  | Err _ => gotime.zero
                  end in
                r <- onDB (DB.CreateSyncItem
                       {| DB.ID := 0;
                          DB.GCalID := NullString_of (calendar.Id event);
                          DB.YTID := NullString_of (youtrack.ID issue);
                          DB.GCalUpdatedAt := NullTime_of updatedTime;
                          DB.YTUpdatedAt :=
                            NullTime_of (gotime.UnixMilli (youtrack.Updated issue)) |}) ;;
                match r with
                | Err _ => log "Error creating sync item: %v\n"
                | Ok _ => ret tt
                end
            end
          else ret tt
      | Some syncItem =>
          let issueUpdatedTime := gotime.UnixMilli (youtrack.Updated issue) in
          if gotime.After issueUpdatedTime (nt_Time (DB.YTUpdatedAt syncItem)) then
            log "YouTrack task '%s' was updated. Updating Google Calendar." ;;;
            base <- getBaseURL ;;
            let description := issue_link base (youtrack.ID issue) in
            r <- gcal_UpdateEvent (CalendarID s) (ns_String (DB.GCalID syncItem))
                   (youtrack.Summary issue) description
                   dueDate (gotime.Add dueDate gotime.Hour) ;;
            match r with
            | Err _ => log "Error updating Google Calendar event %s: %v\n"
            | Ok _ => ret tt
            end ;;;
            err <- onDB (DB.UpdateSyncItem
                     (set_YTUpdatedAt syncItem (NullTime_of issueUpdatedTime))) ;;
            match err with
            | Some _ => log "Error updating sync item: %v\n"
            | None => ret tt
            end
          else ret tt
      end
  end.

Definition processYTissues (issues : list youtrack.Issue) : M (option error) :=
  forM_ issues processYTissue ;;;
  ret None.

(** [gcalEventMap]: filled in batch order, a later event with the same id
    overwrites an earlier one. *)
Definition gcalEventMap_of (gcalEvents : list googlecalendar.Event)
  : gmap string googlecalendar.Event :=
  List.fold_left (fun m event => <[googlecalendar.ID event := event]> m) gcalEvents ∅.

(** The body of the loop of [handleDeletions]. *)
Definition handleDeletion (gcalEventMap : gmap string googlecalendar.Event)
  (item : DB.SyncItem) : M unit :=
  if ns_Valid (DB.GCalID item) then
    match gcalEventMap !! ns_String (DB.GCalID item) with
    | Some event =>
        if String.eqb (googlecalendar.Status event) "cancelled" then
          log "Google Calendar event %s was cancelled. Deleting sync item and updating YouTrack." ;;;
          (* Remove due date *)
          err <- yt_UpdateIssue (ns_String (DB.YTID item)) "" "" None ;;
          match err with
          | Some _ => log "Error updating YouTrack issue %s: %v\n"
          | None => ret tt
          end ;;;
          err <- onDB (DB.DeleteSyncItem (DB.ID item)) ;;
          match err with
          | Some _ => log "Error deleting sync item %d: %v\n"
          | None => ret tt
          end
        else ret tt
    | None => ret tt
    end
  else ret tt.

Definition handleDeletions (gcalEvents : list googlecalendar.Event) : M (option error) :=
  r <- onDB DB.GetAllSyncItems ;;
  match r with
  | Err err => ret (Some (Errorf "failed to get all sync items" err))
  | Ok allDbItems =>
      forM_ allDbItems (handleDeletion (gcalEventMap_of gcalEvents)) ;;;
      ret None
  end.

(** The body of the loop of [processYTDeletions]. *)
Definition processYTDeletion (ytID : string) : M unit :=
  r <- onDB (DB.GetSyncItemByYTID ytID) ;;
  match r with
  | Err _ => log "Error getting sync item for YouTrack issue %s: %v\n"
  | Ok (Some syncItem) =>
      if ns_Valid (DB.GCalID syncItem) then
        log "YouTrack issue %s was deleted. Deleting Google Calendar event %s." ;;;
        err <- gcal_DeleteEvent (CalendarID s) (ns_String (DB.GCalID syncItem)) ;;
        match err with
        | Some _ => log "Error deleting Google Calendar event %s: %v\n"
        | None => ret tt
        end ;;;
        err <- onDB (DB.DeleteSyncItem (DB.ID syncItem)) ;;
        match err with
        | Some _ => log "Error deleting sync item %d: %v\n"
        | None => ret tt
        end
      else ret tt
  | Ok None => ret tt
  end.

Definition processYTDeletions (deletedYTIDs : list string) : M (option error) :=
  forM_ deletedYTIDs processYTDeletion ;;;
  ret None.

(** The end of [Sync] (the two cursor writes and the closing log line). *)
Definition commitCursors (gcalSyncToken newGCalSyncToken : string) : M unit :=
  (if negb (String.eqb newGCalSyncToken "") && negb (String.eqb newGCalSyncToken gcalSyncToken)
   then
     err <- onDB (DB.SetGCalSyncToken newGCalSyncToken) ;;
     match err with
     | Some _ => log "Error setting Google Calendar sync token: %v\n"
     | None => ret tt
     end
   else ret tt) ;;;
  now <- time_Now ;;
  err <- onDB (DB.SetYTLastSync now) ;;
  match err with
  | Some _ => log "Error setting YouTrack last sync time: %v\n"
  | None => ret tt
  end ;;;
  log "Synchronization finished.".

(** [Sync]: one run.  [None] is Go's [nil]. *)
Definition Sync : M (option error) :=
  log "Starting synchronization..." ;;;
  r <- onDB DB.GetGCalSyncToken ;;
  match r with
  | Err err => ret (Some (Errorf "failed to get Google Calendar sync token" err))
  | Ok gcalSyncToken =>
  r <- onDB DB.GetYTLastSync ;;
  match r with
  | Err err => ret (Some (Errorf "failed to get YouTrack last sync time" err))
  | Ok ytLastSync0 =>
  ytLastSync <-
    (if gotime.IsZero ytLastSync0
     then now <- time_Now ;; ret (gotime.Add now (-30 * 24 * gotime.Hour))
     else ret ytLastSync0) ;;
  r <- gcal_FetchEvents (CalendarID s) gcalSyncToken ;;
  match r with
  | Err err => ret (Some (Errorf "failed to fetch Google Calendar events" err))
  | Ok (gcalEvents, newGCalSyncToken) =>
  r <- yt_GetUpdatedIssues (YouTrackQueryProjectID s) ytLastSync ;;
  match r with
  | Err err => ret (Some (Errorf "failed to fetch YouTrack issues" err))
  | Ok ytIssues =>
  r <- yt_GetDeletedIssueIDs (YouTrackQueryProjectID s) ytLastSync ;;
  match r with
  | Err err => ret (Some (Errorf "failed to fetch deleted YouTrack issue IDs" err))
  | Ok ytDeletedIssueIDs =>
  err <- processGCalEvents gcalEvents ;;
  match err with Some err => ret (Some err) | None =>
  err <- processYTissues ytIssues ;;
  match err with Some err => ret (Some err) | None =>
  err <- handleDeletions gcalEvents ;;
  match err with Some err => ret (Some err) | None =>
  err <- processYTDeletions ytDeletedIssueIDs ;;
  match err with Some err => ret (Some err) | None =>
  commitCursors gcalSyncToken newGCalSyncToken ;;;
  ret None
  end end end end end end end end end.

End WithEnvironment.

Arguments World : clear implicits.

End Reconciler.

(** ** Test doubles

    Collaborators in the manner of the mocks of [sync_test.go], used to run
    the reconciler on concrete inputs. *)

Module Doubles.

Definition empty_db : DB.t :=
  {| DB.sync_items := []; DB.seq := 0; DB.last_sync := None; DB.faults := [] |}.

Definition new_event : calendar.Event :=
  {| calendar.Id := "new-gcal-event"; calendar.Summary := ""; calendar.Description := "";
     calendar.Start := None; calendar.End_ := None; calendar.Status := "";
     calendar.Updated := "" |}.

Definition new_issue : youtrack.Issue :=
  {| youtrack.ID := "new-yt-issue"; youtrack.IDReadable := ""; youtrack.Summary := "";
     youtrack.Description := ""; youtrack.Updated := 0; youtrack.Project_ := None;
     youtrack.CustomFields := [] |}.

Section Stateless.

(** What the two delta fetches answer. *)
Variable batch : list googlecalendar.Event.
Variable next_token : string.
Variable issues : list youtrack.Issue.
Variable deleted : list string.

(** A calendar that accepts every write. *)
Definition gcal_up : GCalClient unit :=
  {| FetchEvents := fun _ _ e => (Ok (batch, next_token), e);
     CreateEvent := fun _ _ _ _ _ e => (Ok new_event, e);
     UpdateEvent := fun _ _ _ _ _ _ e => (Ok new_event, e);
     DeleteEvent := fun _ _ e => (None, e) |}.

(** A calendar whose writes fail. *)
Definition gcal_down : GCalClient unit :=
  {| FetchEvents := fun _ _ e => (Ok (batch, next_token), e);
     CreateEvent := fun _ _ _ _ _ e => (Err (ErrMsg "calendar unavailable"), e);
     UpdateEvent := fun _ _ _ _ _ _ e => (Err (ErrMsg "calendar unavailable"), e);
     DeleteEvent := fun _ _ e => (Some (ErrMsg "calendar unavailable"), e) |}.

(** An issue tracker that accepts every write. *)
Definition yt_up : YTClient unit :=
  {| GetUpdatedIssues := fun _ _ e => (Ok issues, e);
     CreateIssue := fun _ _ _ _ e => (Ok new_issue, e);
     UpdateIssue := fun _ _ _ _ e => (None, e);
     GetDeletedIssueIDs := fun _ _ e => (Ok deleted, e);
     GetBaseURL := fun _ => "http://youtrack.example.com" |}.

(** An issue tracker whose writes fail. *)
Definition yt_down : YTClient unit :=
  {| GetUpdatedIssues := fun _ _ e => (Ok issues, e);
     CreateIssue := fun _ _ _ _ e => (Err (ErrMsg "youtrack unavailable"), e);
     UpdateIssue := fun _ _ _ _ e => (Some (ErrMsg "youtrack unavailable"), e);
     GetDeletedIssueIDs := fun _ _ e => (Ok deleted, e);
     GetBaseURL := fun _ => "http://youtrack.example.com" |}.

End Stateless.

(** A clock that stands still at [now]. *)
Definition rt_fixed (now : Time) : Runtime unit :=
  {| Now := fun e => (now, e); Parse_RFC3339 := fun _ => Err (ErrMsg "parsing time") |}.

(** An environment that is a running clock: every remote call takes one
    second, and [time.Now] reads the clock. *)
Definition gcal_timed : GCalClient Time :=
  {| FetchEvents := fun _ _ e => (Ok ([], "new-gcal-token"), e + gotime.Second);
     CreateEvent := fun _ _ _ _ _ e => (Ok new_event, e + gotime.Second);
     UpdateEvent := fun _ _ _ _ _ _ e => (Ok new_event, e + gotime.Second);
     DeleteEvent := fun _ _ e => (None, e + gotime.Second) |}.

Definition yt_timed : YTClient Time :=
  {| GetUpdatedIssues := fun _ _ e => (Ok [], e + gotime.Second);
     CreateIssue := fun _ _ _ _ e => (Ok new_issue, e + gotime.Second);
     UpdateIssue := fun _ _ _ _ e => (None, e + gotime.Second);
     GetDeletedIssueIDs := fun _ _ e => (Ok [], e + gotime.Second);
     GetBaseURL := fun _ => "http://youtrack.example.com" |}.

Definition rt_clock : Runtime Time :=
  {| Now := fun e => (e, e); Parse_RFC3339 := fun _ => Err (ErrMsg "parsing time") |}.

(** The real calendar client of [googlecalendar/client.go], in zone UTC,
    in front of a service that stores what it is sent. *)
Definition service_insert (calendarID : string) (ev : calendar.Event)
  (stored : list calendar.Event) : result calendar.Event * list calendar.Event :=
  (Ok ev, (stored ++ [ev])%list).

Definition service_update (calendarID eventID : string) (ev : calendar.Event)
  (stored : list calendar.Event) : result calendar.Event * list calendar.Event :=
  (Ok ev, (stored ++ [ev])%list).

Definition gcal_real : GCalClient (list calendar.Event) :=
  {| FetchEvents := fun _ _ e => (Ok ([], "new-gcal-token"), e);
     CreateEvent := googlecalendar.CreateEvent service_insert 0;
     UpdateEvent := googlecalendar.UpdateEvent service_update 0;
     DeleteEvent := fun _ _ e => (None, e) |}.

Definition yt_quiet : YTClient (list calendar.Event) :=
  {| GetUpdatedIssues := fun _ _ e => (Ok [], e);
     CreateIssue := fun _ _ _ _ e => (Ok new_issue, e);
     UpdateIssue := fun _ _ _ _ e => (None, e);
     GetDeletedIssueIDs := fun _ _ e => (Ok [], e);
     GetBaseURL := fun _ => "http://youtrack.example.com" |}.

Definition rt_quiet : Runtime (list calendar.Event) :=
  {| Now := fun e => (0, e); Parse_RFC3339 := fun _ => Err (ErrMsg "parsing time") |}.

Definition synchronizer : Synchronizer :=
  {| YouTrackProjectID := "yt-project";
     YouTrackQueryProjectID := "yt-query-project";
     CalendarID := "gcal-calendar" |}.

(** A world around a store and an environment, nothing called or logged. *)
Definition world {E : Type} (d : DB.t) (e : E) : Reconciler.World E :=
  {| Reconciler.db := d; Reconciler.env := e; Reconciler.calls := []; Reconciler.logs := [] |}.

(** A store holding one binding (EV-1, YT-1) last seen at instants 100
    (calendar side) and 50 (issue side). *)
Definition bound_db : DB.t :=
  {| DB.sync_items :=
       [ {| DB.id := 1; DB.gcal_id := Some "EV-1"; DB.yt_id := Some "YT-1";
            DB.gcal_updated_at := Some 100; DB.yt_updated_at := Some 50 |} ];
     DB.seq := 1; DB.last_sync := None; DB.faults := [] |}.

Definition event_EV1 (status : string) (updated : Time) : googlecalendar.Event :=
  {| googlecalendar.ID := "EV-1"; googlecalendar.Summary := "Sprint kickoff";
     googlecalendar.HTMLLink := "https://cal/EV-1"; googlecalendar.Start := 0;
     googlecalendar.End_ := 0; googlecalendar.Status := status;
     googlecalendar.Organizer := ""; googlecalendar.Recurrence := [];
     googlecalendar.RecurringEventID := ""; googlecalendar.Updated := updated |}.

Definition due_field (msec : Z) : youtrack.CustomField :=
  {| youtrack.CustomField_Type := "DateIssueCustomField"; youtrack.CustomField_ID := "";
     youtrack.Name := "Due Date"; youtrack.Value := youtrack.JNumber msec |}.

Definition issue_YT1 (updated : Z) (fields : list youtrack.CustomField) : youtrack.Issue :=
  {| youtrack.ID := "YT-1"; youtrack.IDReadable := "YT-1";
     youtrack.Summary := "Design review"; youtrack.Description := "";
     youtrack.Updated := updated; youtrack.Project_ := None;
     youtrack.CustomFields := fields |}.

End Doubles.

(** ** Vocabulary of the statements *)

Module Spec.

Section WithEnvironment.

Context {E : Type}.

Local Abbreviation World := (Reconciler.World E).

(** The bindings a world's store holds. *)
Definition rows (w : World) : list DB.Row := DB.sync_items (Reconciler.db w).

(** The stored issue watermark, if the cursor row has one. *)
Definition watermark (w : World) : option Time :=
  match DB.last_sync (Reconciler.db w) with
  | Some l => DB.yt_last_sync l
  | None => None
  end.

(** A total state-passing computation started in a world satisfying [P]
    returns a value and a world related by [Q]. *)
Definition hoare {A : Type} (P : World -> Prop) (m : Reconciler.M A)
  (Q : A -> World -> Prop) : Prop :=
  forall w, P w -> Q (fst (m w)) (snd (m w)).

(** A property of the binding table alone. *)
Definition on_rows (Q : list DB.Row -> Prop) : World -> Prop := fun w => Q (rows w).

End WithEnvironment.

(** Both remote ids of a row are populated. *)
Definition both_bound (r : DB.Row) : Prop := DB.gcal_id r <> None /\ DB.yt_id r <> None.

(** Two rows are the same binding: same local id, same remote ids. *)
Definition same_binding (r r' : DB.Row) : Prop :=
  DB.id r = DB.id r' /\ DB.gcal_id r = DB.gcal_id r' /\ DB.yt_id r = DB.yt_id r'.

(** Every row of [now] is fully bound or is a binding that [before] already
    held. *)
Definition no_new_half_bound (before now : list DB.Row) : Prop :=
  forall r', In r' now -> both_bound r' \/ exists r, In r before /\ same_binding r r'.

(** The batch holds an event with this id and status cancelled. *)
Definition cancelled_in (batch : list googlecalendar.Event) (gcalID : string) : bool :=
  List.existsb
    (fun ev => String.eqb (googlecalendar.ID ev) gcalID
               && String.eqb (googlecalendar.Status ev) "cancelled")
    batch.

(** The binding has a calendar id that is cancelled in the batch. *)
Definition binding_cancelled (batch : list googlecalendar.Event) (r : DB.Row) : bool :=
  match DB.gcal_id r with
  | Some g => cancelled_in batch g
  | None => false
  end.

(** The same, read off the map [handleDeletions] builds from the batch. *)
Definition marked_cancelled (m : gmap string googlecalendar.Event) (r : DB.Row) : bool :=
  match DB.gcal_id r with
  | Some g =>
      match m !! g with
      | Some ev => String.eqb (googlecalendar.Status ev) "cancelled"
      | None => false
      end
  | None => false
  end.

(** The last event of the batch with this id has status cancelled. *)
Definition last_cancelled_in (batch : list googlecalendar.Event) (gcalID : string) : bool :=
  match List.find (fun ev => String.eqb (googlecalendar.ID ev) gcalID) (List.rev batch) with
  | Some ev => String.eqb (googlecalendar.Status ev) "cancelled"
  | None => false
  end.

(** The binding has a calendar id whose last event in the batch is
    cancelled. *)
Definition binding_last_cancelled (batch : list googlecalendar.Event) (r : DB.Row) : bool :=
  match DB.gcal_id r with
  | Some g => last_cancelled_in batch g
  | None => false
  end.

(** The local ids whose DELETE goes through in a pass over [items] that
    issues one DELETE per marked binding, in order, against a driver that
    fails the statements its fault script says (and none once the script
    is used up). *)
Fixpoint deleted_ids (mark : DB.Row -> bool) (items : list DB.Row) (faults : list bool)
  : list Z :=
  match items with
  | [] => []
  | r :: items =>
      if mark r then
        match faults with
        | true :: faults => deleted_ids mark items faults
        | false :: faults => DB.id r :: deleted_ids mark items faults
        | [] => DB.id r :: deleted_ids mark items []
        end
      else deleted_ids mark items faults
  end.

(** The call that clears the paired issue of a binding. *)
Definition clear_due_call (r : DB.Row) : Call :=
  CallUpdateIssue (sql.ns_String (sql.NullString_Scan (DB.yt_id r))) "" "" None.

(** The line that is logged for an operation when it returned an error,
    nothing when it did not. *)
Definition logged_if_error (err : option error) (line : string) : list string :=
  match err with
  | Some _ => [line]
  | None => []
  end.


(** Errors of the cursor loads (step 1) and of the delta fetches (step 2). *)
Definition load_or_fetch_error (e : error) : Prop :=
  exists cause,
    e = Errorf "failed to get Google Calendar sync token" cause
    \/ e = Errorf "failed to get YouTrack last sync time" cause
    \/ e = Errorf "failed to fetch Google Calendar events" cause
    \/ e = Errorf "failed to fetch YouTrack issues" cause
    \/ e = Errorf "failed to fetch deleted YouTrack issue IDs" cause.

(** The error of the read of all bindings that opens the cancellation
    step (step 5). *)
Definition list_bindings_error (e : error) : Prop :=
  exists cause, e = Errorf "failed to get all sync items" cause.

End Spec.

(** ** The schema's constraints and the run's view of the store *)

Module Store.

(** The non-NULL calendar ids, and the non-NULL issue ids, of a table. *)
Definition gcal_ids (rows : list DB.Row) : list string := omap DB.gcal_id rows.
Definition yt_ids (rows : list DB.Row) : list string := omap DB.yt_id rows.

(** PRIMARY KEY(id), UNIQUE(gcal_id), UNIQUE(yt_id); NULLs do not clash. *)
Definition constraints (rows : list DB.Row) : Prop :=
  List.NoDup (List.map DB.id rows)
  /\ List.NoDup (gcal_ids rows)
  /\ List.NoDup (yt_ids rows).

(** AUTOINCREMENT's counter is at least every local id in use. *)
Definition ids_bounded (d : DB.t) : Prop :=
  forall r, In r (DB.sync_items d) -> DB.id r <= DB.seq d.

(** The row clashes with a non-NULL remote id the item would bind. *)
Definition clashes (item : DB.SyncItem) (o : DB.Row) : Prop :=
  (exists g, sql.NullString_Value (DB.GCalID item) = Some g /\ DB.gcal_id o = Some g)
  \/ (exists y, sql.NullString_Value (DB.YTID item) = Some y /\ DB.yt_id o = Some y).

(** The driver writes a [time.Time] bound to a TIMESTAMP column as text
    with a four-digit year, and reads text it cannot parse back as the
    zero time.  From 0001-01-01 to the end of 9998 (UTC) an instant has a
    four-digit year in whatever zone the value carries, and is read back
    as the same instant. *)
Definition four_digit_year (t : Time) : bool :=
  (gotime.zero <=? t) && (t <? 253370764800 * gotime.Second).

(** A nullable time that is NULL or within that range. *)
Definition kept (n : sql.NullTime) : bool :=
  negb (sql.nt_Valid n) || four_digit_year (sql.nt_Time n).

(** What a binding reads back as after it was bound to a statement, for
    a binding whose instants are within that range; outside it the model
    of the table does not say. *)
Definition stored (rowid : Z) (item : DB.SyncItem) : option DB.SyncItem :=
  if kept (DB.GCalUpdatedAt item) && kept (DB.YTUpdatedAt item)
  then Some (DB.scanSyncItem (DB.bind_row rowid item))
  else None.

(** No statement of the store fails any more. *)
Definition answers (d : DB.t) : Prop := DB.faults d = [].

End Store.

Module Run.

Section WithEnvironment.

Context {E : Type}.

(** A property of the store alone. *)
Definition on_db (P : DB.t -> Prop) : Reconciler.World E -> Prop :=
  fun w => P (Reconciler.db w).

(** The stored calendar token column, if there is a cursor row. *)
Definition token (w : Reconciler.World E) : option string :=
  match DB.last_sync (Reconciler.db w) with
  | Some l => DB.gcal_sync_token l
  | None => None
  end.

(** The delta queries among the calls made so far. *)
Definition is_query (c : Call) : bool :=
  match c with
  | CallFetchEvents _ _ | CallGetUpdatedIssues _ _ | CallGetDeletedIssueIDs _ _ => true
  | _ => false
  end.

Definition queries (w : Reconciler.World E) : list Call :=
  List.filter is_query (Reconciler.calls w).

(** The writes to the calendar and to the issue tracker among the calls
    made so far. *)
Definition is_write (c : Call) : bool :=
  match c with
  | CallCreateEvent _ _ _ _ _ | CallUpdateEvent _ _ _ _ _ _ | CallDeleteEvent _ _
  | CallCreateIssue _ _ _ _ | CallUpdateIssue _ _ _ _ => true
  | _ => false
  end.

Definition writes (w : Reconciler.World E) : list Call :=
  List.filter is_write (Reconciler.calls w).

End WithEnvironment.

(** The call names the configured calendar, or the configured project:
    the write project for a creation, the query project for a query. *)
Definition on_target (s : Synchronizer) (c : Call) : Prop :=
  match c with
  | CallFetchEvents calendarID _ => calendarID = CalendarID s
  | CallCreateEvent calendarID _ _ _ _ => calendarID = CalendarID s
  | CallUpdateEvent calendarID _ _ _ _ _ => calendarID = CalendarID s
  | CallDeleteEvent calendarID _ => calendarID = CalendarID s
  | CallGetUpdatedIssues projectID _ => projectID = YouTrackQueryProjectID s
  | CallGetDeletedIssueIDs projectID _ => projectID = YouTrackQueryProjectID s
  | CallCreateIssue projectID _ _ _ => projectID = YouTrackProjectID s
  | CallUpdateIssue _ _ _ _ => True
  | CallNow _ => True
  end.

End Run.

Module Frame.

(** A store operation keeps a property of the store. *)
Definition kept_by {A : Type} (P : DB.t -> Prop) (op : DB.t -> A * DB.t) : Prop :=
  forall d, P d -> P (snd (op d)).

(** The operations on bindings keep it, whatever their arguments. *)
Definition kept_by_bindings (P : DB.t -> Prop) : Prop :=
  (forall g, kept_by P (DB.GetSyncItemByGCalID g))
  /\ (forall y, kept_by P (DB.GetSyncItemByYTID y))
  /\ kept_by P DB.GetAllSyncItems
  /\ (forall item, kept_by P (DB.CreateSyncItem item))
  /\ (forall item, kept_by P (DB.UpdateSyncItem item))
  /\ (forall k, kept_by P (DB.DeleteSyncItem k)).

(** The two cursor reads keep it. *)
Definition kept_by_cursor_reads (P : DB.t -> Prop) : Prop :=
  kept_by P DB.GetGCalSyncToken /\ kept_by P DB.GetYTLastSync.

(** The two cursor writes keep it. *)
Definition kept_by_cursor_writes (P : DB.t -> Prop) : Prop :=
  (forall token, kept_by P (DB.SetGCalSyncToken token))
  /\ (forall t0, kept_by P (DB.SetYTLastSync t0)).

End Frame.

(** ** Configuration ([config/config.go]) *)

Module config.

Record Config := {
  YouTrackBaseURL : string;
  YouTrackPermanentToken : string;
  YouTrackProjectID : string;
  YouTrackQueryProjectID : string;
  GoogleClientID : string;
  GoogleClientSecret : string;
  GoogleRedirectURL : string;
  GoogleCalendarId : string
}.

(** The process environment; [os.Getenv] gives the empty string for a
    variable that is not set. *)
Definition Environ := gmap string string.

Definition Getenv (env : Environ) (key : string) : string :=
  match env !! key with
  | Some v => v
  | None => ""
  end.

Section Process.

(** [SetENV]: the environment after the lines of [./.env] were applied, or
    [None] when the file cannot be read and [log.Fatal] ends the process. *)
Variable SetENV : Environ -> option Environ.

(** [LoadConfig]; [None] when the process was ended inside [SetENV]. *)
Definition LoadConfig (env : Environ) : option (result Config) :=
  match SetENV env with
  | None => None
  | Some env =>
      let cfg :=
        {| YouTrackBaseURL := Getenv env "YOUTRACK_BASE_URL";
           YouTrackPermanentToken := Getenv env "YOUTRACK_PERMANENT_TOKEN";
           YouTrackProjectID := Getenv env "YOUTRACK_PROJECT_ID";
           YouTrackQueryProjectID := Getenv env "YOUTRACK_QUERY_PROJECT_ID";
           GoogleClientID := Getenv env "GOOGLE_CLIENT_ID";
           GoogleClientSecret := Getenv env "GOOGLE_CLIENT_SECRET";
           GoogleRedirectURL := Getenv env "GOOGLE_REDIRECT_URL";
           GoogleCalendarId := Getenv env "GOOGLE_CALENDAR_ID" |} in
      if String.eqb (YouTrackBaseURL cfg) ""
      then Some (Err (ErrMsg "YOUTRACK_BASE_URL not set"))
      else if String.eqb (YouTrackPermanentToken cfg) ""
      then Some (Err (ErrMsg "YOUTRACK_PERMANENT_TOKEN not set"))
      else if String.eqb (YouTrackProjectID cfg) ""
      then Some (Err (ErrMsg "YOUTRACK_PROJECT_ID not set"))
      else
        let cfg :=
          if String.eqb (YouTrackQueryProjectID cfg) ""
          then {| YouTrackBaseURL := YouTrackBaseURL cfg;
                  YouTrackPermanentToken := YouTrackPermanentToken cfg;
                  YouTrackProjectID := YouTrackProjectID cfg;
                  YouTrackQueryProjectID := YouTrackProjectID cfg;
                  GoogleClientID := GoogleClientID cfg;
                  GoogleClientSecret := GoogleClientSecret cfg;
                  GoogleRedirectURL := GoogleRedirectURL cfg;
                  GoogleCalendarId := GoogleCalendarId cfg |}
          else cfg in
        if String.eqb (GoogleClientID cfg) ""
        then Some (Err (ErrMsg "GOOGLE_CLIENT_ID not set"))
        else if String.eqb (GoogleClientSecret cfg) ""
        then Some (Err (ErrMsg "GOOGLE_CLIENT_SECRET not set"))
        else if String.eqb (GoogleRedirectURL cfg) ""
        then Some (Err (ErrMsg "GOOGLE_REDIRECT_URL not set"))
        else Some (Ok cfg)
  end.

End Process.

End config.

(** ** The calendar adapter's delta fetch ([googlecalendar/client.go]) *)

Module calendar_v3.

(** The fields of a listed [calendar.Event] that [FetchEvents] reads;
    [Organizer] is the organizer's e-mail when the pointer is not nil. *)
Record Event := {
  Id : string;
  Summary : string;
  HtmlLink : string;
  Start : option calendar.EventDateTime;
  End_ : option calendar.EventDateTime;
  Status : string;
  Organizer : option string;
  Recurrence : list string;
  RecurringEventId : string;
  Updated : string
}.

(** [calendar.Events], one page of a listing. *)
Record Events := {
  Items : list Event;
  NextPageToken : string;
  NextSyncToken : string
}.

(** The parameters of one [Events.List] call.  [TimeMin] is the instant
    whose RFC 3339 rendering is sent. *)
Record EventsListCall := {
  calendarId : string;
  ShowDeleted : bool;
  SingleEvents : bool;
  PageToken : string;
  SyncToken : option string;
  TimeMin : option Time
}.

(** What [eventsCall.Do()] gives: a page, a [*googleapi.Error] with its
    HTTP code, or another error. *)
Inductive Reply : Type :=
| Page (events : Events)
| GoogleapiError (Code : Z) (err : error)
| OtherError (err : error).

End calendar_v3.

Module googlecalendar_client.

Import calendar_v3.

Section Service.

Context {E : Type}.
Variable Events_List_Do : EventsListCall -> E -> Reply * E.
Variable Now : E -> Time * E.
Variable Parse_RFC3339 : string -> result Time.
Variable Parse_date : string -> result Time.

(** [t, _ := time.Parse(layout, value)]: the zero time on an error. *)
Definition parsed (r : result Time) : Time :=
  match r with
  | Ok t => t
  | Err _ => gotime.zero
  end.

Definition parseDateTime (dateTime : option calendar.EventDateTime) : Time :=
  match dateTime with
  | None => gotime.zero
  | Some dt =>
      if negb (String.eqb (calendar.DateTime dt) "")
      then parsed (Parse_RFC3339 (calendar.DateTime dt))
      else if negb (String.eqb (calendar.Date dt) "")
      then parsed (Parse_date (calendar.Date dt))
      else gotime.zero
  end.

(** The body of the loop over [events.Items]. *)
Definition simplified (item : Event) : googlecalendar.Event :=
  {| googlecalendar.ID := Id item;
     googlecalendar.Summary := Summary item;
     googlecalendar.HTMLLink := HtmlLink item;
     googlecalendar.Start := parseDateTime (Start item);
     googlecalendar.End_ := parseDateTime (End_ item);
     googlecalendar.Status := Status item;
     googlecalendar.Organizer :=
       match Organizer item with Some email => email | None => "" end;
     googlecalendar.Recurrence := Recurrence item;
     googlecalendar.RecurringEventID := RecurringEventId item;
     googlecalendar.Updated := parsed (Parse_RFC3339 (Updated item)) |}.

(** One request of the loop: the call is built, with the sync token when
    there is one and else with the clock read for [TimeMin], and done. *)
Definition request (calendarID syncToken pageToken : string) (e : E) : Reply * E :=
  if negb (String.eqb syncToken "")
  then Events_List_Do
         {| calendarId := calendarID; ShowDeleted := true; SingleEvents := false;
            PageToken := pageToken; SyncToken := Some syncToken; TimeMin := None |} e
  else
    let '(now, e) := Now e in
    Events_List_Do
      {| calendarId := calendarID; ShowDeleted := true; SingleEvents := false;
         PageToken := pageToken; SyncToken := None;
         TimeMin := Some (gotime.Add now (-30 * 24 * gotime.Hour)) |} e.

(** The loop of [FetchEvents], entered with the events collected so far
    and the page token; [fuel] bounds the number of requests, [None] when
    it runs out.  On code 410 the function calls itself with the empty
    sync token, which starts with no events and no page token. *)
Fixpoint FetchEvents_from (fuel : nat) (calendarID syncToken : string)
  (simplifiedEvents : list googlecalendar.Event) (pageToken : string) (e : E)
  : option (result (list googlecalendar.Event * string) * E) :=
  match fuel with
  | O => None
  | S fuel =>
      match request calendarID syncToken pageToken e with
      | (GoogleapiError Code err, e) =>
          if Code =? 410 then FetchEvents_from fuel calendarID "" [] "" e
          else Some (Err (Errorf "unable to retrieve events from calendar" err), e)
      | (OtherError err, e) =>
          Some (Err (Errorf "unable to retrieve events from calendar" err), e)
      | (Page events, e) =>
          let simplifiedEvents :=
            (simplifiedEvents ++ List.map simplified (Items events))%list in
          if String.eqb (NextPageToken events) ""
          then Some (Ok (simplifiedEvents, NextSyncToken events), e)
          else FetchEvents_from fuel calendarID syncToken simplifiedEvents
                 (NextPageToken events) e
      end
  end.

Definition FetchEvents (fuel : nat) (calendarID syncToken : string) (e : E)
  : option (result (list googlecalendar.Event * string) * E) :=
  FetchEvents_from fuel calendarID syncToken [] "" e.

(** The service answers the requests of one listing with the pages
    [pages], each but the last naming a next page: from page token
    [pageToken] in state [e], ending in state [e']. *)
Inductive Lists (calendarID syncToken : string)
  : string -> E -> list Events -> E -> Prop :=
| Lists_last (pageToken : string) (e e' : E) (events : Events) :
    request calendarID syncToken pageToken e = (Page events, e') ->
    NextPageToken events = "" ->
    Lists calendarID syncToken pageToken e [events] e'
| Lists_next (pageToken : string) (e e1 e' : E) (events : Events) (pages : list Events) :
    request calendarID syncToken pageToken e = (Page events, e1) ->
    NextPageToken events <> "" ->
    Lists calendarID syncToken (NextPageToken events) e1 pages e' ->
    Lists calendarID syncToken pageToken e (events :: pages) e'.

(** The events of a listing in page order, and its sync token. *)
Definition listed (pages : list Events) : list googlecalendar.Event :=
  List.concat (List.map (fun events => List.map simplified (Items events)) pages).

Definition token_of (pages : list Events) : string :=
  match List.last (List.map Some pages) None with
  | Some events => NextSyncToken events
  | None => ""
  end.

End Service.

End googlecalendar_client.

(** A calendar service that plays back the replies it was given, one per
    request, in front of a clock that stands at the epoch. *)
Module Playback.

Import calendar_v3.

Definition Events_List_Do (call : EventsListCall) (e : list Reply) : Reply * list Reply :=
  match e with
  | reply :: rest => (reply, rest)
  | [] => (OtherError (ErrMsg "connection closed"), [])
  end.

Definition Now (e : list Reply) : Time * list Reply := (0, e).

Definition Parse (value : string) : result Time := Err (ErrMsg "parsing time").

Definition FetchEvents :=
  googlecalendar_client.FetchEvents Events_List_Do Now Parse Parse.

Definition item (id : string) : Event :=
  {| Id := id; Summary := ""; HtmlLink := ""; Start := None; End_ := None;
     Status := "confirmed"; Organizer := None; Recurrence := [];
     RecurringEventId := ""; Updated := "" |}.

Definition page (ids : list string) (nextPage nextSync : string) : Events :=
  {| Items := List.map item ids; NextPageToken := nextPage; NextSyncToken := nextSync |}.

End Playback.

(** ** Creating an issue ([youtrack/client.go], [youtrack/models.go]) *)

Module youtrack_client.

Import youtrack.

(** A string member tagged [omitempty]. *)
Definition omitempty (key value : string) : list (string * JSON) :=
  if String.eqb value "" then [] else [(key, JString value)].

(** [json.Marshal] of a [Project] and of a [CustomField]; an [interface{}]
    tagged [omitempty] is left out when it is nil. *)
Definition Project_json (p : Project) : JSON :=
  JObject ([("$type", JString (Project_Type p))]
           ++ omitempty "id" (Project_ID p)
           ++ omitempty "name" (Project_Name p)
           ++ omitempty "shortName" (Project_ShortName p))%list.

Definition CustomField_json (cf : CustomField) : JSON :=
  JObject ([("$type", JString (CustomField_Type cf))]
           ++ omitempty "id" (CustomField_ID cf)
           ++ omitempty "name" (Name cf)
           ++ match Value cf with
              | JNull => []
              | value => [("value", value)]
              end)%list.

(** [issue.CustomFields] as [CreateIssue] fills it. *)
Definition CreateIssue_customFields (dueDate : option Time) : list CustomField :=
  match dueDate with
  | Some d =>
      [ {| CustomField_Type := "DateIssueCustomField"; CustomField_ID := "";
           Name := "Due Date"; Value := JNumber (Time_UnixMilli d) |} ]
  | None => []
  end.

(** [json.Marshal] of the [IssueWrapper] that [CreateIssue] builds. *)
Definition CreateIssue_issue (projectID summary description : string)
  (dueDate : option Time) : gmap string JSON :=
  let issue : gmap string JSON :=
    <["project" :=
        Project_json {| Project_Type := "Project"; Project_ID := projectID;
                        Project_Name := ""; Project_ShortName := "" |}]>
      (<["description" := JString description]>
         (<["summary" := JString summary]> (<["$type" := JString "Issue"]> ∅))) in
  match CreateIssue_customFields dueDate with
  | [] => issue
  | customFields => <["customFields" := JArray (List.map CustomField_json customFields)]> issue
  end.

Section Transport.

(** The HTTP side, as for [UpdateIssue], and [json.Decoder.Decode] into an
    [Issue]. *)
Context {E : Type}.
Variable Do : Request -> E -> result Response * E.
Variable url_ok : string -> bool.
Variable Decode : string -> result Issue.

Definition CreateIssue_request (c : Client) (projectID summary description : string)
  (dueDate : option Time) : Request :=
  {| Method := "POST";
     URL := BaseURL c +:+ apiPath +:+ "/issues?";
     Header := [("Authorization", "Bearer " +:+ Token c);
                ("Content-Type", "application/json");
                ("Accept", "application/json")];
     Body := CreateIssue_issue projectID summary description dueDate |}.

Definition CreateIssue (c : Client) (projectID summary description : string)
  (dueDate : option Time) (e : E) : result Issue * E :=
  let req := CreateIssue_request c projectID summary description dueDate in
  if negb (url_ok (URL req))
  then (Err (Errorf "failed to create request" (ErrMsg "net/url: invalid URL")), e)
  else
    match Do req e with
    | (Err err, e') => (Err (Errorf "failed to send request" err), e')
    | (Ok resp, e') =>
        if negb (StatusCode resp =? StatusOK)
        then (Err (ErrMsg ("failed to create issue, status: " +:+ Status resp
                            +:+ ", body: " +:+ ResponseBody resp)), e')
        else match Decode (ResponseBody resp) with
             | Err err => (Err (Errorf "failed to decode response" err), e')
             | Ok createdIssue => (Ok createdIssue, e')
             end
    end.

End Transport.

End youtrack_client.

(** * Theorems *)

(** ** The binding store *)

Section StoreFacts.

Import sql DB.

Lemma NullString_Value_Scan (v : option string) :
  NullString_Value (NullString_Scan v) = v.
Proof. destruct v; reflexivity. Qed.

Lemma NullTime_Value_Scan (v : option Time) :
  NullTime_Value (NullTime_Scan v) = v.
Proof. destruct v; reflexivity. Qed.

(** Binding what was scanned from a row gives the row back. *)
Lemma bind_row_scanSyncItem (r : Row) :
  bind_row (ID (scanSyncItem r)) (scanSyncItem r) = r.
Proof.
  destruct r; unfold bind_row, scanSyncItem; simpl.
  now rewrite !NullString_Value_Scan, !NullTime_Value_Scan.
Qed.

Lemma driver_ok_inv (d : t) :
  DB.driver_ok d -> exists d1, driver d = (false, d1) /\ sync_items d1 = sync_items d
    /\ last_sync d1 = last_sync d /\ seq d1 = seq d /\ faults d1 = tl (faults d).
Proof.
  unfold driver_ok, driver. destruct d as [rows n l fs]; simpl.
  destruct fs as [|f fs]; simpl; intros H.
  - eexists; repeat split; reflexivity.
  - subst f. eexists; repeat split; reflexivity.
Qed.

Lemma driver_tables (d : t) :
  sync_items (snd (driver d)) = sync_items d /\ last_sync (snd (driver d)) = last_sync d
  /\ seq (snd (driver d)) = seq d.
Proof. unfold driver. destruct (faults d); simpl; auto. Qed.

Lemma existsb_id_In (rows : list Row) (k : Z) :
  List.existsb (fun o => id o =? k) rows = true <-> In k (List.map id rows).
Proof.
  rewrite existsb_exists, in_map_iff. split.
  - intros (r & Hr & Heq). apply Z.eqb_eq in Heq. eauto.
  - intros (r & Heq & Hr). exists r. split; [assumption | now apply Z.eqb_eq].
Qed.

End StoreFacts.

(** C9, as stated, fails: updating a binding whose local id the store does
    not hold reports no error at all (so not NotFound), and an update that
    sets only the issue id of the binding (EV-1, YT-1, 100, 50) erases the
    stored calendar id and both stored timestamps. *)
Lemma UpdateSyncItem_counterexample :
  DB.UpdateSyncItem
    {| DB.ID := 7; DB.GCalID := Reconciler.NullString_of "gcal-id";
       DB.YTID := Reconciler.NullString_of "yt-id";
       DB.GCalUpdatedAt := sql.NullTime_Scan None; DB.YTUpdatedAt := sql.NullTime_Scan None |}
    Doubles.empty_db = (None, Doubles.empty_db)
  /\ DB.UpdateSyncItem
       {| DB.ID := 1; DB.GCalID := sql.NullString_Scan None;
          DB.YTID := Reconciler.NullString_of "YT-2";
          DB.GCalUpdatedAt := sql.NullTime_Scan None;
          DB.YTUpdatedAt := sql.NullTime_Scan None |}
       Doubles.bound_db
     = (None,
        DB.with_sync_items Doubles.bound_db
          [ {| DB.id := 1; DB.gcal_id := None; DB.yt_id := Some "YT-2";
               DB.gcal_updated_at := None; DB.yt_updated_at := None |} ]).
Proof. split; reflexivity. Qed.

(** C9, amended: when the driver accepts the statement, updating a local id
    the store does not hold reports no error and leaves the table as it
    was; an update of a local id the store holds that reports no error
    leaves every row in its place and replaces the row with that id, which
    is still in the table, by the values bound from the caller's struct,
    all four data columns, so a field the caller left unset is stored as
    NULL; and an update that reports an error leaves the table as it
    was. *)
Theorem UpdateSyncItem_overwrites_row (item : DB.SyncItem) (d : DB.t) :
  DB.driver_ok d ->
  (~ In (DB.ID item) (List.map DB.id (DB.sync_items d)) ->
     fst (DB.UpdateSyncItem item d) = None
     /\ DB.sync_items (snd (DB.UpdateSyncItem item d)) = DB.sync_items d)
  /\ (In (DB.ID item) (List.map DB.id (DB.sync_items d)) ->
      fst (DB.UpdateSyncItem item d) = None ->
      DB.sync_items (snd (DB.UpdateSyncItem item d))
      = List.map (fun o => if DB.id o =? DB.ID item then DB.bind_row (DB.ID item) item else o)
          (DB.sync_items d)
      /\ In (DB.bind_row (DB.ID item) item) (DB.sync_items (snd (DB.UpdateSyncItem item d))))
  /\ (fst (DB.UpdateSyncItem item d) = None ->
      forall r, In r (DB.sync_items (snd (DB.UpdateSyncItem item d))) ->
        DB.id r = DB.ID item -> r = DB.bind_row (DB.ID item) item)
  /\ (forall e, fst (DB.UpdateSyncItem item d) = Some e ->
        DB.sync_items (snd (DB.UpdateSyncItem item d)) = DB.sync_items d).
Proof.
  intros Hok. destruct (driver_ok_inv d Hok) as (d1 & Hd & Hrows & _).
  unfold DB.UpdateSyncItem. rewrite Hd, Hrows.
  destruct (List.existsb (fun o => DB.id o =? DB.ID item) (DB.sync_items d)) eqn:Hex.
  - split; [| split; [| split]].
    + intros Habs. apply existsb_id_In in Hex. contradiction.
    + intros Hin. destruct (DB.violates_unique _ _); simpl; [discriminate |].
      intros _. split; [reflexivity |].
      apply in_map_iff in Hin as (o & Hid & Ho).
      apply in_map_iff. exists o. split; [| assumption].
      rewrite Hid. now rewrite Z.eqb_refl.
    + destruct (DB.violates_unique _ _); simpl; [discriminate |].
      intros _ r Hin Hid. apply in_map_iff in Hin as (o & Ho & _).
      destruct (DB.id o =? DB.ID item) eqn:Heq; [now subst r |].
      subst r. apply Z.eqb_neq in Heq. contradiction.
    + intros e. destruct (DB.violates_unique _ _); simpl; [| discriminate].
      intros _. exact Hrows.
  - split; [| split; [| split]].
    + intros _. simpl. now split.
    + intros Hin. apply existsb_id_In in Hin. congruence.
    + simpl. intros _ r Hin Hid. rewrite Hrows in Hin.
      assert (List.existsb (fun o => DB.id o =? DB.ID item) (DB.sync_items d) = true)
        as Habs; [| congruence].
      apply existsb_id_In, in_map_iff. eauto.
    + simpl. discriminate.
Qed.

(** At the binding (EV-1, YT-1, 100, 50): an update that sets only the
    calendar instant leaves one row, with local id 1, whose calendar id,
    issue id and issue instant are NULL. *)
Lemma UpdateSyncItem_overwrites_row_witness :
  let item := {| DB.ID := 1; DB.GCalID := sql.NullString_Scan None;
                 DB.YTID := sql.NullString_Scan None;
                 DB.GCalUpdatedAt := Reconciler.NullTime_of 200;
                 DB.YTUpdatedAt := sql.NullTime_Scan None |} in
  DB.sync_items (snd (DB.UpdateSyncItem item Doubles.bound_db))
  = [ {| DB.id := 1; DB.gcal_id := None; DB.yt_id := None;
         DB.gcal_updated_at := Some 200; DB.yt_updated_at := None |} ]
  /\ In {| DB.id := 1; DB.gcal_id := None; DB.yt_id := None;
           DB.gcal_updated_at := Some 200; DB.yt_updated_at := None |}
        (DB.sync_items (snd (DB.UpdateSyncItem item Doubles.bound_db))).
Proof.
  intros item.
  refine (proj1 (proj2 (UpdateSyncItem_overwrites_row item Doubles.bound_db _)) _ _).
  - reflexivity.
  - simpl. now left.
  - reflexivity.
Defined.

(** When the driver accepts the statement, persisting a calendar delta
    token replaces the whole cursor row: the watermark column is NULL
    afterwards, whatever it held. *)
Lemma SetGCalSyncToken_replaces_row (token : string) (d : DB.t) :
  DB.driver_ok d ->
  fst (DB.SetGCalSyncToken token d) = None
  /\ DB.last_sync (snd (DB.SetGCalSyncToken token d))
     = Some {| DB.gcal_sync_token := Some token; DB.yt_last_sync := None |}.
Proof.
  intros Hok. destruct (driver_ok_inv d Hok) as (d1 & Hd & _).
  unfold DB.SetGCalSyncToken. rewrite Hd. now split.
Qed.

(** The sibling write keeps the other column: persisting the watermark
    never changes a stored calendar token. *)
Lemma SetYTLastSync_keeps_token (t0 : Time) (d : DB.t) (l : DB.LastSync) :
  DB.last_sync d = Some l ->
  exists l', DB.last_sync (snd (DB.SetYTLastSync t0 d)) = Some l'
             /\ DB.gcal_sync_token l' = DB.gcal_sync_token l.
Proof.
  intros Hl. unfold DB.SetYTLastSync.
  pose proof (driver_tables d) as (_ & Hls & _).
  destruct (DB.driver d) as [failed d1]; simpl in Hls.
  destruct failed; simpl.
  - exists l. split; congruence.
  - rewrite Hls, Hl. simpl. eexists; split; reflexivity.
Qed.

(** ** The issue tracker adapter *)

(** C7: for every call of [UpdateIssue] with the due date absent, the
    request body has the members "summary" and "description" and no
    "customFields" member, so the due-date field is left unmentioned and
    not removed; with a due date present the member is there.  And
    [UpdateIssue] returns [ErrNotFound] exactly when the request was made
    and the server answered with status 404. *)
Theorem UpdateIssue_absent_due_unmentioned {E : Type}
  (Do : youtrack.Request -> E -> result youtrack.Response * E) (url_ok : string -> bool)
  (c : youtrack.Client) (issueID summary description : string) :
  (let body := youtrack.Body (youtrack.UpdateIssue_request c issueID summary description None) in
   body !! "customFields" = None
   /\ body !! "summary" = Some (youtrack.JString summary)
   /\ body !! "description" = Some (youtrack.JString description))
  /\ (forall d : Time,
        youtrack.Body (youtrack.UpdateIssue_request c issueID summary description (Some d))
          !! "customFields"
        = Some (youtrack.JArray
                  [youtrack.CustomFieldWrapper "DateIssueCustomField"
                     (youtrack.JNumber (youtrack.Time_UnixMilli d))]))
  /\ (forall (dueDate : option Time) (e : E),
        let req := youtrack.UpdateIssue_request c issueID summary description dueDate in
        fst (youtrack.UpdateIssue Do url_ok c issueID summary description dueDate e)
          = Some ErrNotFound
        <-> url_ok (youtrack.URL req) = true
            /\ exists resp e', Do req e = (Ok resp, e')
                               /\ youtrack.StatusCode resp = youtrack.StatusNotFound).
Proof.
  split; [| split].
  - simpl. unfold youtrack.UpdateIssue_updates.
    rewrite lookup_insert_ne by discriminate.
    rewrite lookup_insert_ne by discriminate.
    rewrite lookup_empty, lookup_insert_ne by discriminate.
    now rewrite !lookup_insert_eq.
  - intros d. simpl. unfold youtrack.UpdateIssue_updates. now rewrite lookup_insert_eq.
  - intros dueDate e req. unfold youtrack.UpdateIssue. fold req.
    destruct (url_ok (youtrack.URL req)); simpl.
    + destruct (Do req e) as [[resp | err] e'] eqn:HDo; simpl.
      * destruct (youtrack.StatusCode resp =? youtrack.StatusNotFound) eqn:H404; simpl.
        -- apply Z.eqb_eq in H404. split; [| reflexivity].
           intros _. split; [reflexivity |]. now exists resp, e'.
        -- apply Z.eqb_neq in H404.
           split.
           ++ destruct (youtrack.StatusCode resp =? youtrack.StatusOK); discriminate.
           ++ intros (_ & resp' & e'' & Heq & Hst). congruence.
      * split; [discriminate |]. intros (_ & resp' & e'' & Heq & _). discriminate.
    + split; [discriminate |]. intros (Habs & _). discriminate.
Qed.

(** ** The calendar adapter *)

(** The day on which the event built from [start = t] and [end = t + 1h]
    ends (exclusive): one day after the start day while the local time of
    day of [t] is before 23:00, two days after it from 23:00 on. *)
Lemma civil_day_of_event_end (loc : Z) (t : Time) :
  gotime.civil_day loc (gotime.AddDate_days (gotime.Add t gotime.Hour) 1)
  = gotime.civil_day loc t
    + (if (t / gotime.Second + loc) mod 86400 <? 82800 then 1 else 2).
Proof.
  unfold gotime.civil_day, gotime.AddDate_days, gotime.Add, gotime.Hour, gotime.Second.
  replace (t + 3600 * 1000000000 + 1 * (24 * (3600 * 1000000000)))
    with (t + 90000 * 1000000000) by lia.
  rewrite Z.div_add by lia.
  set (x := t / 1000000000 + loc).
  replace (t / 1000000000 + 90000 + loc) with (x + 90000) by (unfold x; lia).
  destruct (x mod 86400 <? 82800) eqn:Hlt.
  - apply Z.ltb_lt in Hlt. Z.div_mod_to_equations. lia.
  - apply Z.ltb_ge in Hlt. Z.div_mod_to_equations. lia.
Qed.

(** C4 at a failing input: the issue YT-1 with due date 2023-11-14 23:30:00
    UTC and no binding, reconciled through the real calendar client in
    zone UTC.  The reconciler passes the due instant and the due instant
    plus one hour; the event that reaches the calendar service starts on
    2023-11-14 and ends (exclusive) on 2023-11-16, two days later. *)
Theorem new_dated_issue_event_spans_two_days :
  let issue := Doubles.issue_YT1 1700000000000 [Doubles.due_field 1700004600000] in
  let w := Doubles.world Doubles.empty_db ([] : list calendar.Event) in
  let w' := snd (@Reconciler.processYTissue _ Doubles.gcal_real Doubles.yt_quiet
                   Doubles.rt_quiet Doubles.synchronizer issue w) in
  Reconciler.calls w'
  = [CallCreateEvent "gcal-calendar" "Design review"
       "YouTrack Issue: http://youtrack.example.com/issue/YT-1"
       (gotime.UnixMilli 1700004600000)
       (gotime.Add (gotime.UnixMilli 1700004600000) gotime.Hour)]
  /\ List.map (fun ev => (calendar.Start ev, calendar.End_ ev)) (Reconciler.env w')
     = [(Some {| calendar.Date := "2023-11-14"; calendar.DateTime := "" |},
         Some {| calendar.Date := "2023-11-16"; calendar.DateTime := "" |})].
Proof. split; vm_compute; reflexivity. Qed.

(** ** Reasoning about runs *)

Section RunFacts.

Context {E : Type} {gcal : GCalClient E} {yt : YTClient E} {rt : Runtime E}.

Import Reconciler Spec.

Local Abbreviation World := (Reconciler.World E).

Lemma bind_eq {A B : Type} (m : M (E := E) A) (k : A -> M B) (w : World) :
  bind m k w = k (fst (m w)) (snd (m w)).
Proof. unfold bind. now destruct (m w). Qed.

Lemma hoare_ret {A : Type} (P : World -> Prop) (Q : A -> World -> Prop) (a : A) :
  (forall w, P w -> Q a w) -> hoare P (ret a) Q.
Proof. intros H w Hw. now apply H. Qed.

Lemma hoare_bind {A B : Type} (P : World -> Prop) (Q : A -> World -> Prop)
  (R : B -> World -> Prop) (m : M A) (k : A -> M B) :
  hoare P m Q -> (forall a, hoare (Q a) (k a) R) -> hoare P (bind m k) R.
Proof.
  intros Hm Hk w Hw. rewrite bind_eq. apply Hk. now apply Hm.
Qed.

Lemma hoare_weaken {A : Type} (P P' : World -> Prop) (Q Q' : A -> World -> Prop)
  (m : M A) :
  hoare P' m Q' -> (forall w, P w -> P' w) -> (forall a w, Q' a w -> Q a w) ->
  hoare P m Q.
Proof. intros Hm HP HQ w Hw. apply HQ, Hm, HP, Hw. Qed.

(** The loop rule: an invariant of the body is an invariant of the loop. *)
Lemma hoare_forM_ {A : Type} (I : World -> Prop) (body : A -> M unit) (l : list A) :
  (forall x, In x l -> hoare I (body x) (fun _ => I)) ->
  hoare I (forM_ l body) (fun _ => I).
Proof.
  induction l as [|x l IH]; intros Hbody.
  - now apply hoare_ret.
  - simpl. eapply hoare_bind.
    + apply Hbody. now left.
    + intros ?. apply IH. intros y Hy. apply Hbody. now right.
Qed.

(** Logging, the clients and the clock leave the store alone. *)
Lemma log_db (format : string) (w : World) : db (snd (log format w)) = db w.
Proof. reflexivity. Qed.

Lemma remote_db {A : Type} (c : Call) (op : E -> A * E) (w : World) :
  db (snd (remote c op w)) = db w.
Proof. unfold remote. now destruct (op (env w)). Qed.

Lemma time_Now_db (w : World) : db (snd (time_Now w)) = db w.
Proof. unfold time_Now. now destruct (Now (env w)). Qed.

Lemma onDB_db {A : Type} (op : DB.t -> A * DB.t) (w : World) :
  db (snd (onDB op w)) = snd (op (db w)) /\ fst (onDB op w) = fst (op (db w)).
Proof. unfold onDB. now destruct (op (db w)). Qed.

(** Steps that leave the binding table alone keep what is known of it. *)
Lemma hoare_ret_rows {A : Type} (Q Q' : list DB.Row -> Prop) (a : A) :
  (forall rows, Q rows -> Q' rows) ->
  hoare (E := E) (on_rows Q) (ret a) (fun _ => on_rows Q').
Proof. intros H w Hw. now apply H. Qed.

Lemma hoare_log_rows (Q Q' : list DB.Row -> Prop) (format : string) :
  (forall rows, Q rows -> Q' rows) ->
  hoare (E := E) (on_rows Q) (log format) (fun _ => on_rows Q').
Proof. intros H w Hw. now apply H. Qed.

Lemma hoare_remote_rows {A : Type} (Q Q' : list DB.Row -> Prop) (c : Call)
  (op : E -> A * E) :
  (forall rows, Q rows -> Q' rows) ->
  hoare (E := E) (on_rows Q) (remote c op) (fun _ => on_rows Q').
Proof. intros H w Hw. unfold on_rows, rows. rewrite remote_db. now apply H. Qed.

Lemma hoare_getBaseURL_rows (Q Q' : list DB.Row -> Prop) :
  (forall rows, Q rows -> Q' rows) ->
  hoare (E := E) (on_rows Q) getBaseURL (fun _ => on_rows Q').
Proof. intros H w Hw. now apply H. Qed.

Lemma hoare_time_Now_rows (Q Q' : list DB.Row -> Prop) :
  (forall rows, Q rows -> Q' rows) ->
  hoare (E := E) (on_rows Q) time_Now (fun _ => on_rows Q').
Proof. intros H w Hw. unfold on_rows, rows. rewrite time_Now_db. now apply H. Qed.

(** Sequencing after a step that keeps what is known of the table. *)
Lemma hoare_bind_rows {A B : Type} (Q : list DB.Row -> Prop) (R : B -> World -> Prop)
  (m : M A) (k : A -> M B) :
  hoare (on_rows Q) m (fun _ => on_rows Q) -> (forall a, hoare (on_rows Q) (k a) R) ->
  hoare (on_rows Q) (bind m k) R.
Proof. apply hoare_bind. Qed.

(** A store operation seen from the run. *)
Lemma hoare_onDB_rows {A : Type} (Q : list DB.Row -> Prop) (R : A -> list DB.Row -> Prop)
  (op : DB.t -> A * DB.t) :
  (forall d, Q (DB.sync_items d) -> R (fst (op d)) (DB.sync_items (snd (op d)))) ->
  hoare (E := E) (on_rows Q) (onDB op) (fun a => on_rows (R a)).
Proof.
  intros H w Hw. unfold on_rows, rows in *.
  destruct (onDB_db op w) as [-> ->]. now apply H.
Qed.

End RunFacts.

(** ** What store operations do to the binding table *)

Section RowFacts.

Import sql DB Spec.

Lemma find_some_In {A : Type} (f : A -> bool) (l : list A) (x : A) :
  List.find f l = Some x -> In x l /\ f x = true.
Proof. apply find_some. Qed.

Lemma opt_string_eqb_eq (a : option string) (b : string) :
  opt_string_eqb a b = true <-> a = Some b.
Proof.
  destruct a as [a|]; simpl.
  - rewrite String.eqb_eq. split; congruence.
  - split; discriminate.
Qed.

Lemma GetSyncItemByGCalID_rows (k : string) (d : t) :
  sync_items (snd (GetSyncItemByGCalID k d)) = sync_items d
  /\ forall item, fst (GetSyncItemByGCalID k d) = Ok (Some item) ->
       exists r, In r (sync_items d) /\ item = scanSyncItem r /\ gcal_id r = Some k.
Proof.
  unfold GetSyncItemByGCalID. pose proof (driver_tables d) as (Hrows & _).
  destruct (driver d) as [failed d1]; simpl in Hrows.
  destruct failed; simpl; split; try assumption; try discriminate.
  intros item. rewrite Hrows.
  destruct (List.find _ (sync_items d)) as [r|] eqn:Hfind; simpl; [| discriminate].
  intros [= <-]. apply find_some_In in Hfind as [Hin Heq].
  exists r. repeat split; [assumption | now apply opt_string_eqb_eq].
Qed.

Lemma GetSyncItemByYTID_rows (k : string) (d : t) :
  sync_items (snd (GetSyncItemByYTID k d)) = sync_items d
  /\ forall item, fst (GetSyncItemByYTID k d) = Ok (Some item) ->
       exists r, In r (sync_items d) /\ item = scanSyncItem r /\ yt_id r = Some k.
Proof.
  unfold GetSyncItemByYTID. pose proof (driver_tables d) as (Hrows & _).
  destruct (driver d) as [failed d1]; simpl in Hrows.
  destruct failed; simpl; split; try assumption; try discriminate.
  intros item. rewrite Hrows.
  destruct (List.find _ (sync_items d)) as [r|] eqn:Hfind; simpl; [| discriminate].
  intros [= <-]. apply find_some_In in Hfind as [Hin Heq].
  exists r. repeat split; [assumption | now apply opt_string_eqb_eq].
Qed.

Lemma GetAllSyncItems_rows (d : t) :
  sync_items (snd (GetAllSyncItems d)) = sync_items d
  /\ forall items, fst (GetAllSyncItems d) = Ok items ->
       items = List.map scanSyncItem (sync_items d).
Proof.
  unfold GetAllSyncItems. pose proof (driver_tables d) as (Hrows & _).
  destruct (driver d) as [failed d1]; simpl in Hrows.
  destruct failed; simpl; split; try assumption; try discriminate.
  intros items [= <-]. now rewrite Hrows.
Qed.

Lemma CreateSyncItem_rows (item : SyncItem) (d : t) :
  sync_items (snd (CreateSyncItem item d)) = sync_items d
  \/ exists n, sync_items (snd (CreateSyncItem item d)) = (sync_items d ++ [bind_row n item])%list.
Proof.
  unfold CreateSyncItem. pose proof (driver_tables d) as (Hrows & _).
  destruct (driver d) as [failed d1]; simpl in Hrows.
  destruct failed; simpl; [now left |].
  destruct (violates_unique _ _); simpl; [now left |].
  right. eexists. now rewrite Hrows.
Qed.

Lemma UpdateSyncItem_rows (item : SyncItem) (d : t) :
  sync_items (snd (UpdateSyncItem item d)) = sync_items d
  \/ sync_items (snd (UpdateSyncItem item d))
     = List.map (fun o => if id o =? ID item then bind_row (ID item) item else o)
         (sync_items d).
Proof.
  unfold UpdateSyncItem. pose proof (driver_tables d) as (Hrows & _).
  destruct (driver d) as [failed d1]; simpl in Hrows.
  destruct failed; simpl; [now left |].
  destruct (List.existsb _ _); simpl; [| now left].
  destruct (violates_unique _ _); simpl; [now left |].
  right. now rewrite Hrows.
Qed.

Lemma DeleteSyncItem_rows (k : Z) (d : t) :
  sync_items (snd (DeleteSyncItem k d)) = sync_items d
  \/ sync_items (snd (DeleteSyncItem k d))
     = List.filter (fun o => negb (id o =? k)) (sync_items d).
Proof.
  unfold DeleteSyncItem. pose proof (driver_tables d) as (Hrows & _).
  destruct (driver d) as [failed d1]; simpl in Hrows.
  destruct failed; simpl; [now left |].
  right. now rewrite Hrows.
Qed.

Lemma SetGCalSyncToken_rows (token : string) (d : t) :
  sync_items (snd (SetGCalSyncToken token d)) = sync_items d.
Proof.
  unfold SetGCalSyncToken. pose proof (driver_tables d) as (Hrows & _).
  destruct (driver d) as [failed d1]; simpl in Hrows.
  now destruct failed.
Qed.

Lemma SetYTLastSync_rows (t0 : Time) (d : t) :
  sync_items (snd (SetYTLastSync t0 d)) = sync_items d.
Proof.
  unfold SetYTLastSync. pose proof (driver_tables d) as (Hrows & _).
  destruct (driver d) as [failed d1]; simpl in Hrows.
  destruct failed; simpl; [assumption |].
  destruct (last_sync d1); simpl; [assumption |].
  pose proof (driver_tables d1) as (Hrows1 & _).
  destruct (driver d1) as [failed1 d2]; simpl in Hrows1.
  destruct failed1; simpl; congruence.
Qed.

Lemma GetGCalSyncToken_rows (d : t) :
  sync_items (snd (GetGCalSyncToken d)) = sync_items d.
Proof.
  unfold GetGCalSyncToken. pose proof (driver_tables d) as (Hrows & _).
  destruct (driver d) as [failed d1]; simpl in Hrows.
  destruct failed; simpl; [assumption |].
  destruct (last_sync d1) as [l|]; [destruct (gcal_sync_token l) |]; assumption.
Qed.

Lemma GetYTLastSync_rows (d : t) :
  sync_items (snd (GetYTLastSync d)) = sync_items d.
Proof.
  unfold GetYTLastSync. pose proof (driver_tables d) as (Hrows & _).
  destruct (driver d) as [failed d1]; simpl in Hrows.
  destruct failed; simpl; [assumption |].
  destruct (last_sync d1) as [l|]; [destruct (yt_last_sync l) |]; assumption.
Qed.

(** How [no_new_half_bound] moves along the three writes. *)

Lemma no_new_half_bound_refl (rows : list Row) : no_new_half_bound rows rows.
Proof. intros r Hr. right. exists r. now repeat split. Qed.

Lemma no_new_half_bound_insert (before rows : list Row) (r : Row) :
  no_new_half_bound before rows -> both_bound r ->
  no_new_half_bound before (rows ++ [r]).
Proof.
  intros H Hr r' Hin. apply in_app_or in Hin as [Hin | [<- | []]]; auto.
Qed.

Lemma no_new_half_bound_update (before rows : list Row) (r r' : Row) (k : Z) :
  no_new_half_bound before rows -> In r rows -> same_binding r r' ->
  no_new_half_bound before (List.map (fun o => if id o =? k then r' else o) rows).
Proof.
  intros H Hin (Hid & Hg & Hy) x Hx.
  apply in_map_iff in Hx as (o & <- & Ho).
  destruct (id o =? k); [| now apply H].
  destruct (H r Hin) as [[Hbg Hby] | (r0 & Hr0 & Hid0 & Hg0 & Hy0)].
  - left. split; congruence.
  - right. exists r0. split; [assumption |]. repeat split; congruence.
Qed.

Lemma no_new_half_bound_delete (before rows : list Row) (f : Row -> bool) :
  no_new_half_bound before rows -> no_new_half_bound before (List.filter f rows).
Proof. intros H r Hr. apply filter_In in Hr as [Hr _]. now apply H. Qed.

(** Writing back a scanned binding with one timestamp changed keeps the
    binding's three ids. *)
Lemma same_binding_set_GCalUpdatedAt (r : Row) (v : NullTime) :
  same_binding r
    (bind_row (ID (Reconciler.set_GCalUpdatedAt (scanSyncItem r) v))
       (Reconciler.set_GCalUpdatedAt (scanSyncItem r) v)).
Proof.
  unfold same_binding, bind_row; simpl. now rewrite !NullString_Value_Scan.
Qed.

Lemma same_binding_set_YTUpdatedAt (r : Row) (v : NullTime) :
  same_binding r
    (bind_row (ID (Reconciler.set_YTUpdatedAt (scanSyncItem r) v))
       (Reconciler.set_YTUpdatedAt (scanSyncItem r) v)).
Proof.
  unfold same_binding, bind_row; simpl. now rewrite !NullString_Value_Scan.
Qed.

End RowFacts.

(** ** No half-bound binding is ever created *)

Section BoundFacts.

Context {E : Type} {gcal : GCalClient E} {yt : YTClient E} {rt : Runtime E}.
Variable s : Synchronizer.
Variable before : list DB.Row.

Import Reconciler Spec.

(** A step that does not touch the table, under any knowledge of it. *)
Ltac quiet_step :=
  first [ apply hoare_log_rows | apply hoare_remote_rows | apply hoare_getBaseURL_rows
        | apply hoare_time_Now_rows | apply hoare_ret_rows ];
  first [ intros ? H; exact H | intros ? H; apply H | intros ? H; exact (proj1 H) ].

Ltac next_step := eapply hoare_bind; [ | intros ? ].

Ltac case_step :=
  match goal with
  | |- hoare _ (match ?x with _ => _ end) _ => destruct x
  end.

(** Past a step, possibly a case analysis on an error, that only logs or
    calls a client. *)
Ltac skip_step :=
  apply hoare_bind_rows; [ try case_step; quiet_step | intros ?; cbv zeta ].

(** Past a store operation that leaves the table as it is. *)
Ltac read_step :=
  apply hoare_bind_rows;
  [ apply hoare_onDB_rows; intros ? ?;
    first [ rewrite (proj1 (GetSyncItemByYTID_rows _ _))
          | rewrite (proj1 (GetSyncItemByGCalID_rows _ _))
          | rewrite (proj1 (GetAllSyncItems_rows _))
          | rewrite GetGCalSyncToken_rows | rewrite GetYTLastSync_rows
          | rewrite SetGCalSyncToken_rows | rewrite SetYTLastSync_rows ];
    assumption
  | intros ? ].


Let I : Reconciler.World E -> Prop := on_rows (no_new_half_bound before).

Lemma processGCalEvent_bound (event : googlecalendar.Event) :
  hoare I (processGCalEvent s event) (fun _ => I).
Proof.
  unfold processGCalEvent, I, yt_CreateIssue, yt_UpdateIssue.
  destruct (String.eqb _ _); [quiet_step |].
  eapply hoare_bind.
  - apply (hoare_onDB_rows _
             (fun r rows => no_new_half_bound before rows
                /\ forall item, r = Ok (Some item) ->
                     exists row, In row rows /\ item = DB.scanSyncItem row)).
    intros d Hd. destruct (GetSyncItemByGCalID_rows (googlecalendar.ID event) d) as [-> Hfound].
    split; [assumption |]. intros item Hitem.
    destruct (Hfound item Hitem) as (row & Hin & -> & _). eauto.
  - intros [[syncItem |] | err]; [| | quiet_step].
    + destruct (gotime.After _ _); [| quiet_step].
      do 3 skip_step. next_step.
      * apply (hoare_onDB_rows _ (fun _ => no_new_half_bound before)).
        intros d [Hd Hitem]. destruct (Hitem syncItem eq_refl) as (row & Hin & ->).
        destruct (UpdateSyncItem_rows
                    (set_GCalUpdatedAt (DB.scanSyncItem row)
                       (NullTime_of (googlecalendar.Updated event))) d) as [-> | ->];
          [assumption |].
        eapply no_new_half_bound_update; eauto using same_binding_set_GCalUpdatedAt.
      * case_step; quiet_step.
    + do 2 skip_step.
      case_step; [| quiet_step]. next_step.
      * apply (hoare_onDB_rows _ (fun _ => no_new_half_bound before)).
        intros d [Hd _].
        match goal with |- context [DB.CreateSyncItem ?it d] =>
          destruct (CreateSyncItem_rows it d) as [-> | [n ->]] end; [assumption |].
        apply no_new_half_bound_insert; [assumption |]. split; discriminate.
      * case_step; quiet_step.
Qed.

Lemma processYTissue_bound (issue : youtrack.Issue) :
  hoare I (processYTissue s issue) (fun _ => I).
Proof.
  unfold processYTissue, I, gcal_CreateEvent, gcal_UpdateEvent.
  eapply hoare_bind.
  - apply (hoare_onDB_rows _
             (fun r rows => no_new_half_bound before rows
                /\ forall item, r = Ok (Some item) ->
                     exists row, In row rows /\ item = DB.scanSyncItem row)).
    intros d Hd. destruct (GetSyncItemByYTID_rows (youtrack.ID issue) d) as [-> Hfound].
    split; [assumption |]. intros item Hitem.
    destruct (Hfound item Hitem) as (row & Hin & -> & _). eauto.
  - intros [[syncItem |] | err]; cbv zeta; [| | quiet_step].
    + destruct (gotime.After _ _); [| quiet_step].
      do 4 skip_step. next_step.
      * apply (hoare_onDB_rows _ (fun _ => no_new_half_bound before)).
        intros d [Hd Hitem]. destruct (Hitem syncItem eq_refl) as (row & Hin & ->).
        destruct (UpdateSyncItem_rows
                    (set_YTUpdatedAt (DB.scanSyncItem row)
                       (NullTime_of (gotime.UnixMilli (youtrack.Updated issue)))) d)
          as [-> | ->]; [assumption |].
        eapply no_new_half_bound_update; eauto using same_binding_set_YTUpdatedAt.
      * case_step; quiet_step.
    + destruct (negb _); [| quiet_step].
      do 3 skip_step.
      case_step; [| quiet_step]. cbv zeta. next_step.
      * apply (hoare_onDB_rows _ (fun _ => no_new_half_bound before)).
        intros d [Hd _].
        match goal with |- context [DB.CreateSyncItem ?it d] =>
          destruct (CreateSyncItem_rows it d) as [-> | [n ->]] end; [assumption |].
        apply no_new_half_bound_insert; [assumption |]. split; discriminate.
      * case_step; quiet_step.
Qed.

Lemma handleDeletion_bound (m : gmap string googlecalendar.Event) (item : DB.SyncItem) :
  hoare I (handleDeletion m item) (fun _ => I).
Proof.
  unfold handleDeletion, I, yt_UpdateIssue.
  destruct (sql.ns_Valid _); [| quiet_step].
  destruct (m !! _) as [event |]; [| quiet_step].
  destruct (String.eqb _ _); [| quiet_step].
  do 3 skip_step. next_step.
  - apply (hoare_onDB_rows _ (fun _ => no_new_half_bound before)).
    intros d Hd. destruct (DeleteSyncItem_rows (DB.ID item) d) as [-> | ->];
      [assumption | now apply no_new_half_bound_delete].
  - case_step; quiet_step.
Qed.

Lemma processYTDeletion_bound (ytID : string) :
  hoare I (processYTDeletion s ytID) (fun _ => I).
Proof.
  unfold processYTDeletion, I, gcal_DeleteEvent.
  read_step.
  case_step; [| quiet_step]. case_step; [| quiet_step].
  destruct (sql.ns_Valid _); [| quiet_step].
  do 3 skip_step. next_step.
  - apply (hoare_onDB_rows _ (fun _ => no_new_half_bound before)).
    intros d Hd.
    match goal with |- context [DB.DeleteSyncItem ?k d] =>
      destruct (DeleteSyncItem_rows k d) as [-> | ->] end;
      [assumption | now apply no_new_half_bound_delete].
  - case_step; quiet_step.
Qed.

Lemma loop_bound {A : Type} (body : A -> M unit) (l : list A) :
  (forall x, hoare I (body x) (fun _ => I)) ->
  hoare I (bind (forM_ l body) (fun _ => ret None)) (fun _ : option error => I).
Proof.
  intros Hbody. unfold I. apply hoare_bind_rows; [| intros ?; quiet_step].
  apply hoare_forM_. intros x _. apply Hbody.
Qed.

Lemma handleDeletions_bound (gcalEvents : list googlecalendar.Event) :
  hoare I (handleDeletions gcalEvents) (fun _ => I).
Proof.
  unfold handleDeletions. unfold I at 1. read_step.
  case_step; [| quiet_step]. apply loop_bound, handleDeletion_bound.
Qed.

Lemma commitCursors_bound (gcalSyncToken newGCalSyncToken : string) :
  hoare I (commitCursors gcalSyncToken newGCalSyncToken) (fun _ => I).
Proof.
  unfold commitCursors, I.
  apply hoare_bind_rows; [| intros ?].
  - destruct (_ && _); [| quiet_step]. read_step. case_step; quiet_step.
  - skip_step. read_step. skip_step. quiet_step.
Qed.

Lemma Sync_bound : hoare I (Sync s) (fun _ => I).
Proof.
  unfold Sync, gcal_FetchEvents, yt_GetUpdatedIssues, yt_GetDeletedIssueIDs.
  unfold I at 1.
  skip_step. read_step. case_step; [| quiet_step].
  read_step. case_step; [| quiet_step].
  apply hoare_bind_rows; [| intros ?].
  { destruct (gotime.IsZero _); [| quiet_step].
    apply hoare_bind_rows; [quiet_step | intros ?; quiet_step]. }
  skip_step. case_step; [case_step | quiet_step].
  skip_step. case_step; [| quiet_step].
  skip_step. case_step; [| quiet_step].
  apply hoare_bind_rows; [apply loop_bound, processGCalEvent_bound | intros ?].
  case_step; [quiet_step |].
  apply hoare_bind_rows; [apply loop_bound, processYTissue_bound | intros ?].
  case_step; [quiet_step |].
  apply hoare_bind_rows; [apply handleDeletions_bound | intros ?].
  case_step; [quiet_step |].
  apply hoare_bind_rows; [apply loop_bound, processYTDeletion_bound | intros ?].
  case_step; [quiet_step |].
  apply hoare_bind_rows; [apply commitCursors_bound | intros ?; quiet_step].
Qed.

End BoundFacts.

(** C10: after any run, from any store and against any collaborators, every
    binding the store holds either has both its calendar id and its issue
    id populated, or is a binding (same local id, same two remote ids) that
    the store already held before the run.  So every binding a run creates
    has both ids, and no run turns a binding into a half-bound one. *)
Theorem Sync_creates_only_fully_bound {E : Type} {gcal : GCalClient E} {yt : YTClient E}
  {rt : Runtime E} (s : Synchronizer) (w : Reconciler.World E) :
  Spec.no_new_half_bound (Spec.rows w) (Spec.rows (snd (Reconciler.Sync s w))).
Proof.
  apply (Sync_bound s (Spec.rows w) w). apply no_new_half_bound_refl.
Qed.

(** ** Which errors a run returns, and what it commits *)

Section ErrorFacts.

Context {E : Type} {gcal : GCalClient E} {yt : YTClient E} {rt : Runtime E}.
Variable s : Synchronizer.

Import Reconciler Spec.

Local Abbreviation World := (Reconciler.World E).
Local Abbreviation anywhere := (fun _ : World => True).

Lemma hoare_trivial {A : Type} (P : World -> Prop) (m : M A) :
  hoare P m (fun _ _ => True).
Proof. intros w _. exact Logic.I. Qed.

Lemma hoare_absurd {A : Type} (P : World -> Prop) (m : M A) (Q : A -> World -> Prop) :
  (forall w, ~ P w) -> hoare P m Q.
Proof. intros H w Hw. destruct (H w Hw). Qed.

(** A loop followed by [return nil] returns [nil]. *)
Lemma loop_returns_nil {A : Type} (body : A -> M unit) (l : list A) (P : World -> Prop) :
  hoare P (bind (forM_ l body) (fun _ => ret None)) (fun r _ => r = @None error).
Proof. intros w _. now rewrite bind_eq. Qed.

Lemma handleDeletions_error (gcalEvents : list googlecalendar.Event) (w : World) :
  (forall e, fst (handleDeletions gcalEvents w) = Some e -> list_bindings_error e)
  /\ (fst (handleDeletions gcalEvents w) = None
      <-> exists items, fst (DB.GetAllSyncItems (db w)) = Ok items).
Proof.
  unfold handleDeletions. rewrite bind_eq.
  destruct (onDB_db DB.GetAllSyncItems w) as [_ ->].
  destruct (fst (DB.GetAllSyncItems (db w))) as [items | err].
  - rewrite bind_eq. simpl. split; [discriminate |]. split; eauto.
  - simpl. split.
    + intros e [= <-]. now exists err.
    + split; [discriminate | intros [items Habs]; discriminate].
Qed.

Ltac skip := eapply hoare_bind; [apply hoare_trivial | intros ?; cbv beta].

Ltac case_result :=
  match goal with
  | |- hoare _ (match ?x with _ => _ end) _ => destruct x
  end.

(** Every error [Sync] returns is the wrapped error of a cursor load, of a
    delta fetch, or of the read of all bindings in [handleDeletions]. *)
Lemma Sync_error_kinds_hoare :
  hoare anywhere (Sync s)
    (fun r _ => forall e, r = Some e -> load_or_fetch_error e \/ list_bindings_error e).
Proof.
  unfold Sync.
  assert (Hleaf : forall (P : World -> Prop) msg cause,
            load_or_fetch_error (Errorf msg cause) ->
            hoare P (ret (Some (Errorf msg cause)))
              (fun r _ => forall e, r = Some e ->
                 load_or_fetch_error e \/ list_bindings_error e)).
  { intros P msg cause H. apply hoare_ret. intros ? _ e [= <-]. now left. }
  skip. skip. case_result; [| apply Hleaf; exists e; tauto].
  skip. case_result; [| apply Hleaf; exists e; tauto].
  skip. skip. case_result; [case_result | apply Hleaf; exists e; tauto].
  skip. case_result; [| apply Hleaf; exists e; tauto].
  skip. case_result; [| apply Hleaf; exists e; tauto].
  eapply hoare_bind; [apply loop_returns_nil | intros ?].
  case_result; [apply hoare_absurd; discriminate |].
  eapply hoare_bind; [apply loop_returns_nil | intros ?].
  case_result; [apply hoare_absurd; discriminate |].
  apply (hoare_bind _ (fun r _ => forall e, r = Some e -> list_bindings_error e)).
  { intros w0 _. exact (proj1 (handleDeletions_error l w0)). }
  intros ?. case_result.
  { apply hoare_ret. intros ? H e' [= <-]. right. now apply H. }
  eapply hoare_bind; [apply loop_returns_nil | intros ?].
  case_result; [apply hoare_absurd; discriminate |].
  skip. apply hoare_ret. discriminate.
Qed.

Lemma Sync_error_kinds (w : World) (e : error) :
  fst (Sync s w) = Some e -> load_or_fetch_error e \/ list_bindings_error e.
Proof. apply (Sync_error_kinds_hoare w Logic.I). Qed.

Lemma SetYTLastSync_ok (t0 : Time) (d : DB.t) :
  fst (DB.SetYTLastSync t0 d) = None ->
  exists l, DB.last_sync (snd (DB.SetYTLastSync t0 d)) = Some l
            /\ DB.yt_last_sync l = Some t0.
Proof.
  unfold DB.SetYTLastSync.
  destruct (DB.driver d) as [[] d1]; simpl; [discriminate |].
  destruct (DB.last_sync d1) as [l |]; simpl.
  - intros _. eexists; split; reflexivity.
  - destruct (DB.driver d1) as [[] d2]; simpl; [discriminate |].
    intros _. eexists; split; reflexivity.
Qed.

(** The end of a run: the clock is read once more, after everything else,
    and that reading is what is stored as the watermark unless the write
    fails, which is logged. *)
Lemma commitCursors_watermark (gcalSyncToken newGCalSyncToken : string)
  (P : World -> Prop) :
  hoare P (commitCursors gcalSyncToken newGCalSyncToken)
    (fun _ w' =>
       exists pre now,
         calls w' = (pre ++ [CallNow now])%list
         /\ (watermark w' = Some now
             \/ exists l, logs w'
                   = (l ++ ["Error setting YouTrack last sync time: %v\n";
                            "Synchronization finished."])%list)).
Proof.
  intros w _. unfold commitCursors. rewrite bind_eq. cbv beta.
  match goal with |- context [snd (?m w)] => set (w1 := snd (m w)) end.
  unfold bind, time_Now, onDB.
  destruct (Now (env w1)) as [now e']; simpl.
  pose proof (SetYTLastSync_ok now (db w1)) as Hok.
  destruct (DB.SetYTLastSync now (db w1)) as [[err |] d']; simpl in *.
  - exists (calls w1), now. split; [reflexivity |]. right.
    exists (logs w1). now rewrite <- app_assoc.
  - exists (calls w1), now. split; [reflexivity |]. left.
    destruct (Hok eq_refl) as (l & Hl & Hyt). unfold watermark; simpl. now rewrite Hl.
Qed.

Lemma Sync_watermark_hoare :
  hoare anywhere (Sync s)
    (fun r w' =>
       r = None ->
       exists pre now,
         calls w' = (pre ++ [CallNow now])%list
         /\ (watermark w' = Some now
             \/ exists l, logs w'
                   = (l ++ ["Error setting YouTrack last sync time: %v\n";
                            "Synchronization finished."])%list)).
Proof.
  unfold Sync.
  assert (Hleaf : forall (P : World -> Prop) (e : error) (Q : World -> Prop),
            hoare P (ret (Some e)) (fun r w' => r = None -> Q w')).
  { intros P e Q. apply hoare_ret. discriminate. }
  skip. skip. case_result; [| apply Hleaf].
  skip. case_result; [| apply Hleaf].
  skip. skip. case_result; [case_result | apply Hleaf].
  skip. case_result; [| apply Hleaf].
  skip. case_result; [| apply Hleaf].
  skip. case_result; [apply Hleaf |].
  skip. case_result; [apply Hleaf |].
  skip. case_result; [apply Hleaf |].
  skip. case_result; [apply Hleaf |].
  eapply hoare_bind; [apply commitCursors_watermark | intros ?].
  apply hoare_ret. intros w H _. exact H.
Qed.

(** A failed write of the watermark leaves the cursor row as it was. *)
Lemma SetYTLastSync_failed (t0 : Time) (d : DB.t) :
  fst (DB.SetYTLastSync t0 d) <> None ->
  DB.last_sync (snd (DB.SetYTLastSync t0 d)) = DB.last_sync d.
Proof.
  unfold DB.SetYTLastSync.
  pose proof (driver_tables d) as (_ & Hls & _).
  destruct (DB.driver d) as [[] d1]; simpl in *; [intros _; exact Hls |].
  destruct (DB.last_sync d1) as [l |] eqn:Hl; simpl; [congruence |].
  pose proof (driver_tables d1) as (_ & Hls1 & _).
  destruct (DB.driver d1) as [[] d2]; simpl in *; [| congruence].
  intros _. congruence.
Qed.

(** Step 7, whatever the two writes answer: the token is written when the
    calendar returned a new one, the clock is read, the watermark is
    written, and each write that failed is logged. *)
Lemma commitCursors_outcome (gcalSyncToken newGCalSyncToken : string) (w : World) :
  let token_write :=
    if negb (String.eqb newGCalSyncToken "")
       && negb (String.eqb newGCalSyncToken gcalSyncToken)
    then DB.SetGCalSyncToken newGCalSyncToken (db w) else (None, db w) in
  let now := fst (Now (env w)) in
  let watermark_write := DB.SetYTLastSync now (snd token_write) in
  let w' := snd (commitCursors gcalSyncToken newGCalSyncToken w) in
  calls w' = (calls w ++ [CallNow now])%list
  /\ db w' = snd watermark_write
  /\ logs w'
     = (logs w
        ++ logged_if_error (fst token_write) "Error setting Google Calendar sync token: %v\n"
        ++ logged_if_error (fst watermark_write) "Error setting YouTrack last sync time: %v\n"
        ++ ["Synchronization finished."])%list.
Proof.
  cbv zeta. unfold commitCursors, bind, onDB, time_Now, log, ret.
  destruct (negb (String.eqb newGCalSyncToken "")
            && negb (String.eqb newGCalSyncToken gcalSyncToken)).
  - destruct (DB.SetGCalSyncToken newGCalSyncToken (db w)) as [[err |] d1]; simpl;
      destruct (Now (env w)) as [now e']; simpl;
      destruct (DB.SetYTLastSync now d1) as [[err' |] d2]; simpl;
      rewrite <- ?app_assoc; repeat split; reflexivity.
  - simpl. destruct (Now (env w)) as [now e']; simpl.
    destruct (DB.SetYTLastSync now (db w)) as [[err' |] d2]; simpl;
      rewrite <- ?app_assoc; repeat split; reflexivity.
Qed.

(** A run that returns no error ends with step 7, entered with the token
    that step 1 loaded. *)
Lemma Sync_ends_with_commit (w : World) :
  fst (Sync s w) = None ->
  exists gcalSyncToken newGCalSyncToken w4,
    fst (DB.GetGCalSyncToken (db w)) = Ok gcalSyncToken
    /\ snd (Sync s w) = snd (commitCursors gcalSyncToken newGCalSyncToken w4).
Proof.
  unfold Sync. rewrite bind_eq. unfold log at 1 2. cbn [fst snd]. cbv beta.
  rewrite bind_eq.
  match goal with |- context [onDB DB.GetGCalSyncToken ?x] => set (w0 := x) end.
  destruct (onDB_db DB.GetGCalSyncToken w0) as [_ Hfst]. rewrite Hfst.
  change (db w0) with (db w).
  destruct (fst (DB.GetGCalSyncToken (db w))) as [tok | err]; [| discriminate].
  set (w1 := snd (onDB DB.GetGCalSyncToken w0)). clearbody w1. clear Hfst w0.
  cbv beta iota.
  match goal with
  | |- fst (?m w1) = None -> _ =>
      assert (H : hoare anywhere m
                    (fun r w' =>
                       r = None ->
                       exists gcalSyncToken newGCalSyncToken w4,
                         Ok tok = Ok gcalSyncToken
                         /\ w' = snd (commitCursors gcalSyncToken newGCalSyncToken w4)))
  end.
  { assert (Hleaf : forall (P : World -> Prop) (e : error) (Q : World -> Prop),
              hoare P (ret (Some e)) (fun r w' => r = None -> Q w')).
    { intros P e Q. apply hoare_ret. discriminate. }
    skip. case_result; [| apply Hleaf].
    skip. skip. case_result; [case_result | apply Hleaf].
    skip. case_result; [| apply Hleaf].
    skip. case_result; [| apply Hleaf].
    skip. case_result; [apply Hleaf |].
    skip. case_result; [apply Hleaf |].
    skip. case_result; [apply Hleaf |].
    skip. case_result; [apply Hleaf |].
    intros w4 _ _. eexists tok, _, w4. split; [reflexivity |]. now rewrite bind_eq. }
  exact (H w1 Logic.I).
Qed.








End ErrorFacts.


Section PerItemFailures.

Context {E : Type} {gcal : GCalClient E} {yt : YTClient E} {rt : Runtime E}.
Variable s : Synchronizer.

Import Reconciler Spec.


End PerItemFailures.


(** C3, as stated, fails: against collaborators whose every call takes one
    second, a run started when the clock reads 1000 (the reading taken
    before the delta fetches) returns no error and stores as watermark the
    clock reading taken after the three fetches, three seconds later. *)
Lemma Sync_counterexample_watermark_is_not_run_start :
  let w := Doubles.world Doubles.empty_db (1000 : Time) in
  let run := @Reconciler.Sync Time Doubles.gcal_timed Doubles.yt_timed Doubles.rt_clock
               Doubles.synchronizer w in
  fst (@Now Time Doubles.rt_clock (Reconciler.env w)) = 1000
  /\ fst run = None
  /\ List.hd_error (Reconciler.calls (snd run)) = Some (CallNow 1000)
  /\ Spec.watermark (snd run) = Some (1000 + 3 * gotime.Second)
  /\ Spec.watermark (snd run) <> Some 1000.
Proof. repeat split; try reflexivity. discriminate. Qed.

(** C3, amended: step 7 reads the clock and persists that reading: for
    every state in which it starts, the token is written when the
    calendar returned a new one, then the clock is read, as the last call
    of the run, and the watermark is written with that reading; each of
    the two writes that fails is logged, the closing line is logged in
    any case, a watermark write that succeeded leaves that reading as the
    stored watermark and one that failed leaves the cursor row as it was.
    A run that returns no error ends with this step, entered with the
    token step 1 loaded, so the watermark it stores is the reading taken
    last, not the one taken when the run started; and no error that
    [Sync] returns comes from a cursor write: each is an error of step 1,
    of step 2 or of the read of all bindings. *)
Theorem Sync_persists_last_clock_reading {E : Type}
  {gcal : GCalClient E} {yt : YTClient E} {rt : Runtime E}
  (s : Synchronizer) (w : Reconciler.World E) :
  (forall (gcalSyncToken newGCalSyncToken : string) (w4 : Reconciler.World E),
     let token_write :=
       if negb (String.eqb newGCalSyncToken "")
          && negb (String.eqb newGCalSyncToken gcalSyncToken)
       then DB.SetGCalSyncToken newGCalSyncToken (Reconciler.db w4)
       else (None, Reconciler.db w4) in
     let now := fst (Now (Reconciler.env w4)) in
     let watermark_write := DB.SetYTLastSync now (snd token_write) in
     let w' := snd (Reconciler.commitCursors gcalSyncToken newGCalSyncToken w4) in
     Reconciler.calls w' = (Reconciler.calls w4 ++ [CallNow now])%list
     /\ Reconciler.db w' = snd watermark_write
     /\ Reconciler.logs w'
        = (Reconciler.logs w4
           ++ Spec.logged_if_error (fst token_write)
                "Error setting Google Calendar sync token: %v\n"
           ++ Spec.logged_if_error (fst watermark_write)
                "Error setting YouTrack last sync time: %v\n"
           ++ ["Synchronization finished."])%list
     /\ (fst watermark_write = None -> Spec.watermark w' = Some now)
     /\ (fst watermark_write <> None ->
         DB.last_sync (Reconciler.db w') = DB.last_sync (snd token_write)))
  /\ (fst (Reconciler.Sync s w) = None ->
      (exists gcalSyncToken newGCalSyncToken w4,
         fst (DB.GetGCalSyncToken (Reconciler.db w)) = Ok gcalSyncToken
         /\ snd (Reconciler.Sync s w)
            = snd (Reconciler.commitCursors gcalSyncToken newGCalSyncToken w4))
      /\ exists pre now,
           Reconciler.calls (snd (Reconciler.Sync s w)) = (pre ++ [CallNow now])%list
           /\ (Spec.watermark (snd (Reconciler.Sync s w)) = Some now
               \/ exists l, Reconciler.logs (snd (Reconciler.Sync s w))
                     = (l ++ ["Error setting YouTrack last sync time: %v\n";
                              "Synchronization finished."])%list))
  /\ (forall e, fst (Reconciler.Sync s w) = Some e ->
        Spec.load_or_fetch_error e \/ Spec.list_bindings_error e).
Proof.
  split; [| split].
  - intros tok new w4. cbv zeta.
    destruct (commitCursors_outcome tok new w4) as (Hc & Hdb & Hl).
    split; [exact Hc |]. split; [exact Hdb |]. split; [exact Hl |]. split.
    + intros Hok. unfold Spec.watermark. rewrite Hdb.
      destruct (SetYTLastSync_ok _ _ Hok) as (l & -> & Hyt). exact Hyt.
    + intros Hfail. rewrite Hdb. now apply SetYTLastSync_failed.
  - intros Hnone. split.
    + now apply Sync_ends_with_commit.
    + now apply (Sync_watermark_hoare s w Logic.I).
  - intros e. apply Sync_error_kinds.
Qed.

(** Against collaborators whose every call takes one second, the run
    started at clock reading 1000 ends with the step 7 of the theorem,
    and at a store whose watermark write fails step 7 logs the failure
    and leaves the cursor row as it was. *)
Lemma Sync_persists_last_clock_reading_witness :
  let run := @Reconciler.Sync Time Doubles.gcal_timed Doubles.yt_timed Doubles.rt_clock
               Doubles.synchronizer (Doubles.world Doubles.empty_db (1000 : Time)) in
  (exists gcalSyncToken newGCalSyncToken w4,
     fst (DB.GetGCalSyncToken Doubles.empty_db) = Ok gcalSyncToken
     /\ snd run
        = snd (@Reconciler.commitCursors Time Doubles.rt_clock gcalSyncToken
                 newGCalSyncToken w4))
  /\ exists pre now,
       Reconciler.calls (snd run) = (pre ++ [CallNow now])%list
       /\ (Spec.watermark (snd run) = Some now
           \/ exists l, Reconciler.logs (snd run)
                 = (l ++ ["Error setting YouTrack last sync time: %v\n";
                          "Synchronization finished."])%list).
Proof.
  refine (proj1 (proj2 (@Sync_persists_last_clock_reading Time Doubles.gcal_timed
                          Doubles.yt_timed Doubles.rt_clock Doubles.synchronizer
                          (Doubles.world Doubles.empty_db (1000 : Time)))) _).
  reflexivity.
Defined.

(** ** Echoes *)

(** C6: when the binding the store returns for a calendar event carries,
    as its calendar-side timestamp, exactly the event's updated instant,
    processing the event makes no call on any collaborator (so no issue is
    written), and leaves the binding table and the environment as they
    were; and the same for an issue whose updated instant equals the
    issue-side timestamp of its binding.  This holds whether or not the
    look-up itself fails. *)
Theorem echo_is_ignored {E : Type} {gcal : GCalClient E} {yt : YTClient E} {rt : Runtime E}
  (s : Synchronizer) (w : Reconciler.World E) :
  (forall (event : googlecalendar.Event) (row : DB.Row),
     List.find (fun r => DB.opt_string_eqb (DB.gcal_id r) (googlecalendar.ID event))
       (Spec.rows w) = Some row ->
     DB.gcal_updated_at row = Some (googlecalendar.Updated event) ->
     let w' := snd (Reconciler.processGCalEvent s event w) in
     Reconciler.calls w' = Reconciler.calls w
     /\ Spec.rows w' = Spec.rows w
     /\ Reconciler.env w' = Reconciler.env w)
  /\ (forall (issue : youtrack.Issue) (row : DB.Row),
        List.find (fun r => DB.opt_string_eqb (DB.yt_id r) (youtrack.ID issue))
          (Spec.rows w) = Some row ->
        DB.yt_updated_at row = Some (gotime.UnixMilli (youtrack.Updated issue)) ->
        let w' := snd (Reconciler.processYTissue s issue w) in
        Reconciler.calls w' = Reconciler.calls w
        /\ Spec.rows w' = Spec.rows w
        /\ Reconciler.env w' = Reconciler.env w).
Proof.
  split.
  - intros event row Hfind Hts. unfold Reconciler.processGCalEvent.
    destruct (String.eqb _ _); [now repeat split |].
    unfold Reconciler.bind, Reconciler.onDB, DB.GetSyncItemByGCalID, Spec.rows in *.
    pose proof (driver_tables (Reconciler.db w)) as (Hrows & _).
    destruct (DB.driver (Reconciler.db w)) as [[] d1]; simpl in *.
    + now repeat split.
    + rewrite Hrows, Hfind. simpl. rewrite Hts. simpl.
      unfold gotime.After. rewrite Z.ltb_irrefl. simpl. now repeat split.
  - intros issue row Hfind Hts. unfold Reconciler.processYTissue.
    unfold Reconciler.bind, Reconciler.onDB, DB.GetSyncItemByYTID, Spec.rows in *.
    pose proof (driver_tables (Reconciler.db w)) as (Hrows & _).
    destruct (DB.driver (Reconciler.db w)) as [[] d1]; simpl in *.
    + now repeat split.
    + rewrite Hrows, Hfind. simpl. rewrite Hts. simpl.
      unfold gotime.After. rewrite Z.ltb_irrefl. simpl. now repeat split.
Qed.

Lemma echo_is_ignored_witness :
  (let w' := snd (@Reconciler.processGCalEvent unit (Doubles.yt_up [] [])
                    Doubles.synchronizer (Doubles.event_EV1 "confirmed" 100)
                    (Doubles.world Doubles.bound_db tt)) in
   Reconciler.calls w' = [] /\ Spec.rows w' = DB.sync_items Doubles.bound_db
   /\ Reconciler.env w' = tt)
  /\ (let w' := snd (@Reconciler.processYTissue unit (Doubles.gcal_up [] "")
                       (Doubles.yt_up [] []) (Doubles.rt_fixed 0) Doubles.synchronizer
                       (Doubles.issue_YT1 0 [Doubles.due_field 1700004600000])
                       (Doubles.world
                          (DB.with_sync_items Doubles.bound_db
                             [ {| DB.id := 1; DB.gcal_id := Some "EV-1";
                                  DB.yt_id := Some "YT-1";
                                  DB.gcal_updated_at := Some 100;
                                  DB.yt_updated_at := Some 0 |} ]) tt)) in
      Reconciler.calls w' = [] /\ Reconciler.env w' = tt).
Proof.
  split.
  - refine (proj1 (@echo_is_ignored unit (Doubles.gcal_up [] "") (Doubles.yt_up [] [])
                     (Doubles.rt_fixed 0) Doubles.synchronizer
                     (Doubles.world Doubles.bound_db tt))
                  (Doubles.event_EV1 "confirmed" 100) _ _ _); reflexivity.
  - pose proof (proj2 (@echo_is_ignored unit (Doubles.gcal_up [] "") (Doubles.yt_up [] [])
                     (Doubles.rt_fixed 0) Doubles.synchronizer
                     (Doubles.world
                          (DB.with_sync_items Doubles.bound_db
                             [ {| DB.id := 1; DB.gcal_id := Some "EV-1";
                                  DB.yt_id := Some "YT-1";
                                  DB.gcal_updated_at := Some 100;
                                  DB.yt_updated_at := Some 0 |} ]) tt))
                  (Doubles.issue_YT1 0 [Doubles.due_field 1700004600000]) _
                  eq_refl eq_refl) as (H1 & _ & H3).
    split; [exact H1 | exact H3].
Defined.

(** ** Calendar cancellations *)

Section CancellationFacts.

Context {E : Type} {yt : YTClient E}.

Import Reconciler Spec.

Local Abbreviation World := (Reconciler.World E).

Lemma find_app_last {A : Type} (p : A -> bool) (l : list A) (x : A) :
  List.find p (l ++ [x])
  = match List.find p l with
    | Some y => Some y
    | None => if p x then Some x else None
    end.
Proof.
  induction l as [|y l IH]; simpl; [reflexivity |].
  now destruct (p y).
Qed.

(** What [gcalEventMap] holds for an id: the last event of the batch with
    that id. *)
Lemma gcalEventMap_lookup (batch : list googlecalendar.Event)
  (m : gmap string googlecalendar.Event) (g : string) :
  List.fold_left (fun m ev => <[googlecalendar.ID ev := ev]> m) batch m !! g
  = match List.find (fun ev => String.eqb (googlecalendar.ID ev) g) (List.rev batch) with
    | Some ev => Some ev
    | None => m !! g
    end.
Proof.
  revert m. induction batch as [|x batch IH]; intros m; simpl; [reflexivity |].
  rewrite IH, find_app_last.
  destruct (List.find _ (List.rev batch)); [reflexivity |].
  destruct (String.eqb (googlecalendar.ID x) g) eqn:Heq.
  - apply String.eqb_eq in Heq. subst g. apply lookup_insert_eq.
  - apply String.eqb_neq in Heq. now apply lookup_insert_ne.
Qed.

Lemma NoDup_map_inj {A B : Type} (f : A -> B) (l : list A) (a b : A) :
  List.NoDup (List.map f l) -> In a l -> In b l -> f a = f b -> a = b.
Proof.
  induction l as [|x l IH]; simpl; intros Hnd Ha Hb Hf; [contradiction |].
  inversion Hnd as [|? ? Hnotin Hnd']; subst.
  destruct Ha as [-> | Ha], Hb as [-> | Hb]; auto.
  - exfalso. apply Hnotin. rewrite Hf. now apply in_map.
  - exfalso. apply Hnotin. rewrite <- Hf. now apply in_map.
Qed.

(** In a batch that lists every event id once, the map marks a binding
    exactly when the batch holds its calendar id with status cancelled. *)
Lemma marked_cancelled_batch (batch : list googlecalendar.Event) (r : DB.Row) :
  List.NoDup (List.map googlecalendar.ID batch) ->
  marked_cancelled (gcalEventMap_of batch) r = binding_cancelled batch r.
Proof.
  intros Hnd. unfold marked_cancelled, binding_cancelled, gcalEventMap_of, cancelled_in.
  destruct (DB.gcal_id r) as [g |]; [| reflexivity].
  rewrite gcalEventMap_lookup, lookup_empty.
  destruct (List.find _ (List.rev batch)) as [ev |] eqn:Hfind.
  - apply find_some in Hfind as [Hin Hid]. apply in_rev in Hin.
    apply String.eqb_eq in Hid.
    destruct (String.eqb (googlecalendar.Status ev) "cancelled") eqn:Hst.
    + symmetry. apply existsb_exists. exists ev. split; [assumption |].
      rewrite Hst. subst g. now rewrite String.eqb_refl.
    + symmetry. apply not_true_is_false. intros Hex.
      apply existsb_exists in Hex as (ev' & Hin' & Hboth).
      apply andb_true_iff in Hboth as [Hid' Hst']. apply String.eqb_eq in Hid'.
      assert (ev' = ev) by (eapply NoDup_map_inj; eauto; congruence).
      subst ev'. congruence.
  - symmetry. apply not_true_is_false. intros Hex.
    apply existsb_exists in Hex as (ev' & Hin' & Hboth).
    apply andb_true_iff in Hboth as [Hid' _].
    apply in_rev in Hin'.
    pose proof (find_none _ _ Hfind ev' Hin') as Hno. congruence.
Qed.

Lemma filter_all {A : Type} (f : A -> bool) (l : list A) :
  (forall x, In x l -> f x = true) -> List.filter f l = l.
Proof.
  induction l as [|x l IH]; simpl; intros H; [reflexivity |].
  rewrite (H x) by now left. f_equal. apply IH. intros y Hy. apply H. now right.
Qed.

(** Deleting by local id removes exactly the one row with that id. *)
Lemma filter_delete_unique (pre suf : list DB.Row) (r : DB.Row) :
  List.NoDup (List.map DB.id (pre ++ r :: suf)) ->
  List.filter (fun o => negb (DB.id o =? DB.id r)) (pre ++ r :: suf) = (pre ++ suf)%list.
Proof.
  intros Hnd. rewrite List.map_app in Hnd. simpl in Hnd.
  apply NoDup_remove_2 in Hnd.
  rewrite List.filter_app. simpl. rewrite Z.eqb_refl. simpl.
  rewrite !filter_all; [reflexivity | |].
  - intros x Hx. apply negb_true_iff, Z.eqb_neq. intros Heq. apply Hnd.
    apply in_or_app. right. rewrite <- Heq. now apply in_map.
  - intros x Hx. apply negb_true_iff, Z.eqb_neq. intros Heq. apply Hnd.
    apply in_or_app. left. rewrite <- Heq. now apply in_map.
Qed.

Lemma handleDeletion_marked (m : gmap string googlecalendar.Event) (r : DB.Row) (w : World) :
  marked_cancelled m r = true -> DB.faults (db w) = [] ->
  let w' := snd (handleDeletion m (DB.scanSyncItem r) w) in
  calls w' = (calls w ++ [clear_due_call r])%list
  /\ rows w' = List.filter (fun o => negb (DB.id o =? DB.id r)) (rows w)
  /\ DB.faults (db w') = [].
Proof.
  unfold marked_cancelled, handleDeletion, clear_due_call, rows. intros Hm Hf.
  destruct (DB.gcal_id r) as [g |] eqn:Hg; [| discriminate]. simpl. rewrite Hg. simpl.
  destruct (m !! g) as [ev |]; [| discriminate]. rewrite Hm.
  unfold bind, log, yt_UpdateIssue, remote, onDB. simpl.
  destruct (UpdateIssue _ "" "" None (env w)) as [err e'].
  unfold DB.DeleteSyncItem, DB.driver.
  destruct err; simpl; rewrite Hf; simpl; now repeat split.
Qed.

Lemma handleDeletion_unmarked (m : gmap string googlecalendar.Event) (r : DB.Row)
  (w : World) :
  marked_cancelled m r = false -> handleDeletion m (DB.scanSyncItem r) w = (tt, w).
Proof.
  unfold marked_cancelled, handleDeletion. intros Hm.
  destruct (DB.gcal_id r) as [g |] eqn:Hg; simpl; rewrite Hg; simpl; [| reflexivity].
  destruct (m !! g) as [ev |]; [| reflexivity]. now rewrite Hm.
Qed.

Lemma handleDeletions_loop (m : gmap string googlecalendar.Event) (suf : list DB.Row) :
  forall (pre : list DB.Row) (w : World),
    DB.faults (db w) = [] -> rows w = (pre ++ suf)%list ->
    List.NoDup (List.map DB.id (pre ++ suf)) ->
    let w' := snd (forM_ (List.map DB.scanSyncItem suf) (handleDeletion m) w) in
    calls w' = (calls w ++ List.map clear_due_call (List.filter (marked_cancelled m) suf))%list
    /\ rows w' = (pre ++ List.filter (fun r => negb (marked_cancelled m r)) suf)%list.
Proof.
  induction suf as [|r suf IH]; intros pre w Hf Hrows Hnd; simpl.
  - rewrite !app_nil_r in *. now split.
  - rewrite bind_eq.
    destruct (marked_cancelled m r) eqn:Hm; simpl.
    + destruct (handleDeletion_marked m r w Hm Hf) as (Hc & Hr & Hf').
      rewrite Hrows, filter_delete_unique in Hr by assumption.
      destruct (IH pre _ Hf' Hr) as [Hc' Hr'].
      { rewrite List.map_app in *. simpl in Hnd. now apply NoDup_remove_1 in Hnd. }
      split; [| exact Hr']. rewrite Hc', Hc, <- app_assoc. reflexivity.
    + rewrite (handleDeletion_unmarked m r w Hm). simpl.
      destruct (IH (pre ++ [r])%list w Hf) as [Hc' Hr'].
      { now rewrite <- app_assoc. }
      { now rewrite <- app_assoc. }
      split; [exact Hc' |]. now rewrite Hr', <- app_assoc.
Qed.

(** The map marks a binding exactly when the last event of the batch
    with the binding's calendar id is cancelled. *)
Lemma marked_cancelled_last (batch : list googlecalendar.Event) (r : DB.Row) :
  marked_cancelled (gcalEventMap_of batch) r = binding_last_cancelled batch r.
Proof.
  unfold marked_cancelled, binding_last_cancelled, last_cancelled_in, gcalEventMap_of.
  destruct (DB.gcal_id r) as [g |]; [| reflexivity].
  rewrite gcalEventMap_lookup, lookup_empty.
  now destruct (List.find _ (List.rev batch)).
Qed.

(** One marked binding, whatever the driver does with the DELETE. *)
Lemma handleDeletion_marked_any (m : gmap string googlecalendar.Event) (r : DB.Row)
  (w : World) :
  marked_cancelled m r = true ->
  let w' := snd (handleDeletion m (DB.scanSyncItem r) w) in
  calls w' = (calls w ++ [clear_due_call r])%list
  /\ db w' = snd (DB.DeleteSyncItem (DB.id r) (db w)).
Proof.
  unfold marked_cancelled, handleDeletion, clear_due_call. intros Hm.
  destruct (DB.gcal_id r) as [g |] eqn:Hg; [| discriminate]. simpl. rewrite Hg. simpl.
  destruct (m !! g) as [ev |]; [| discriminate]. rewrite Hm.
  unfold bind, log, yt_UpdateIssue, remote, onDB. simpl.
  destruct (UpdateIssue _ "" "" None (env w)) as [err e'].
  destruct err; simpl; destruct (DB.DeleteSyncItem (DB.id r) (db w)) as [[] d']; simpl;
    now split.
Qed.

Lemma filter_filter {A : Type} (f g : A -> bool) (l : list A) :
  List.filter f (List.filter g l) = List.filter (fun x => g x && f x) l.
Proof.
  induction l as [|x l IH]; simpl; [reflexivity |].
  destruct (g x); simpl; [destruct (f x) |]; now rewrite IH.
Qed.

(** The loop of [handleDeletions] over the bindings read at its start:
    one call per marked binding, and the rows whose DELETE went through
    are gone. *)
Lemma handleDeletions_loop_any (m : gmap string googlecalendar.Event) (items : list DB.Row) :
  forall w : World,
    let w' := snd (forM_ (List.map DB.scanSyncItem items) (handleDeletion m) w) in
    calls w'
    = (calls w ++ List.map clear_due_call (List.filter (marked_cancelled m) items))%list
    /\ rows w'
       = List.filter
           (fun o => negb (List.existsb (Z.eqb (DB.id o))
                             (deleted_ids (marked_cancelled m) items (DB.faults (db w)))))
           (rows w).
Proof.
  induction items as [|r items IH]; intros w; simpl.
  - rewrite app_nil_r. split; [reflexivity |]. symmetry. now apply filter_all.
  - rewrite bind_eq.
    destruct (marked_cancelled m r) eqn:Hm; simpl.
    + destruct (handleDeletion_marked_any m r w Hm) as [Hc Hdb].
      destruct (IH (snd (handleDeletion m (DB.scanSyncItem r) w))) as [Hc' Hr'].
      split; [rewrite Hc', Hc, <- app_assoc; reflexivity |].
      rewrite Hr'. unfold rows. rewrite Hdb.
      unfold DB.DeleteSyncItem, DB.driver.
      destruct (DB.faults (db w)) as [| [] fs] eqn:Hf; simpl; rewrite ?Hf;
        try reflexivity.
      * rewrite filter_filter. apply List.filter_ext. intros o. simpl.
        now destruct (DB.id o =? DB.id r).
      * rewrite filter_filter. apply List.filter_ext. intros o. simpl.
        now destruct (DB.id o =? DB.id r).
    + rewrite (handleDeletion_unmarked m r w Hm). simpl. apply IH.
Qed.

Lemma deleted_ids_ext (mark mark' : DB.Row -> bool) (items : list DB.Row)
  (faults : list bool) :
  (forall r, mark r = mark' r) ->
  deleted_ids mark items faults = deleted_ids mark' items faults.
Proof.
  intros H. revert faults. induction items as [|r items IH]; intros faults; simpl;
    [reflexivity |].
  rewrite <- (H r). destruct (mark r); [| apply IH].
  destruct faults as [| [] fs]; now rewrite IH.
Qed.

(** When no DELETE fails, the ids deleted are those of the marked
    bindings. *)
Lemma deleted_ids_all (mark : DB.Row -> bool) (items : list DB.Row) (faults : list bool) :
  List.Forall (fun f => f = false) faults ->
  deleted_ids mark items faults = List.map DB.id (List.filter mark items).
Proof.
  revert faults. induction items as [|r items IH]; intros faults Hf; simpl; [reflexivity |].
  destruct (mark r); [| now apply IH].
  destruct Hf as [| f fs Hf Hfs]; simpl.
  - f_equal. apply IH. constructor.
  - subst f. f_equal. now apply IH.
Qed.

Lemma deleted_ids_marked (mark : DB.Row -> bool) (items : list DB.Row) (faults : list bool)
  (k : Z) :
  In k (deleted_ids mark items faults) ->
  exists r, In r items /\ mark r = true /\ DB.id r = k.
Proof.
  revert faults. induction items as [|r items IH]; intros faults; simpl; [contradiction |].
  destruct (mark r) eqn:Hm.
  - destruct faults as [| [] fs]; simpl.
    + intros [<- | Hin]; [exists r; auto |].
      destruct (IH _ Hin) as (r' & ? & ? & ?). exists r'. auto.
    + intros Hin. destruct (IH _ Hin) as (r' & ? & ? & ?). exists r'. auto.
    + intros [<- | Hin]; [exists r; auto |].
      destruct (IH _ Hin) as (r' & ? & ? & ?). exists r'. auto.
  - intros Hin. destruct (IH _ Hin) as (r' & ? & ? & ?). exists r'. auto.
Qed.

End CancellationFacts.

(** C8, as stated, fails: with the binding (EV-1, YT-1) in the store and
    a batch that lists EV-1 first as cancelled and then as confirmed, the
    binding's calendar id is in the batch with status cancelled, yet the
    step makes no call and the binding stays: the map built from the
    batch keeps the last event per id.  And with the batch holding EV-1
    as cancelled only, against a store whose DELETE fails, the issue is
    cleared and the binding stays. *)
Lemma handleDeletions_counterexample_last_event_decides :
  let batch := [Doubles.event_EV1 "cancelled" 200; Doubles.event_EV1 "confirmed" 300] in
  let run := @Reconciler.handleDeletions unit (Doubles.yt_up [] []) batch
               (Doubles.world Doubles.bound_db tt) in
  List.map (Spec.binding_cancelled batch) (DB.sync_items Doubles.bound_db) = [true]
  /\ fst run = None
  /\ Reconciler.calls (snd run) = []
  /\ Spec.rows (snd run) = DB.sync_items Doubles.bound_db
  /\ (let run' := @Reconciler.handleDeletions unit (Doubles.yt_up [] [])
                    [Doubles.event_EV1 "cancelled" 200]
                    (Doubles.world (DB.with_faults Doubles.bound_db [false; true]) tt) in
      fst run' = None
      /\ Reconciler.calls (snd run') = [CallUpdateIssue "YT-1" "" "" None]
      /\ Spec.rows (snd run') = DB.sync_items Doubles.bound_db).
Proof. repeat split; reflexivity. Qed.

(** C8, amended: whenever the read of all bindings that opens the
    cancellation step succeeds, for any batch and any later behaviour of
    the store and of the issue tracker, the step returns no error and
    makes exactly one call per binding whose calendar id has, as its last
    event in the batch, a cancelled one: [UpdateIssue] on the binding's
    issue id with empty summary, empty description and no due date, in
    table order and nothing else, each followed by the DELETE of that
    binding.  The rows left are those whose DELETE did not go through:
    with pairwise different local ids every other binding stays, the
    bindings cleared are gone when no DELETE fails, and in a batch that
    lists each event id once the bindings cleared are those whose
    calendar id is in the batch with status cancelled. *)
Theorem handleDeletions_clears_and_unbinds {E : Type} {yt : YTClient E}
  (batch : list googlecalendar.Event) (w : Reconciler.World E) :
  DB.driver_ok (Reconciler.db w) ->
  let w' := snd (Reconciler.handleDeletions batch w) in
  let cleared := Spec.binding_last_cancelled batch in
  (fst (Reconciler.handleDeletions batch w) = None
   /\ Reconciler.calls w'
      = (Reconciler.calls w
         ++ List.map Spec.clear_due_call (List.filter cleared (Spec.rows w)))%list
   /\ Spec.rows w'
      = List.filter
          (fun o => negb (List.existsb (Z.eqb (DB.id o))
                            (Spec.deleted_ids cleared (Spec.rows w)
                               (List.tl (DB.faults (Reconciler.db w))))))
          (Spec.rows w))
  /\ (DB.unique_ids (Reconciler.db w) ->
      (forall r, In r (Spec.rows w) -> cleared r = false -> In r (Spec.rows w'))
      /\ (List.Forall (fun f => f = false) (DB.faults (Reconciler.db w)) ->
          Spec.rows w' = List.filter (fun r => negb (cleared r)) (Spec.rows w)))
  /\ (List.NoDup (List.map googlecalendar.ID batch) ->
      forall r, cleared r = Spec.binding_cancelled batch r).
Proof.
  intros Hok. cbv zeta.
  destruct (driver_ok_inv _ Hok) as (d1 & Hdrv & Hrows1 & _ & _ & Hfaults1).
  set (m := Reconciler.gcalEventMap_of batch).
  set (w1 := {| Reconciler.db := d1; Reconciler.env := Reconciler.env w;
                Reconciler.calls := Reconciler.calls w;
                Reconciler.logs := Reconciler.logs w |}).
  assert (Hrun : Reconciler.handleDeletions batch w
                 = (None, snd (Reconciler.forM_ (List.map DB.scanSyncItem (Spec.rows w))
                                 (Reconciler.handleDeletion m) w1))).
  { unfold Reconciler.handleDeletions. rewrite bind_eq.
    unfold Reconciler.onDB at 1 2, DB.GetAllSyncItems. rewrite Hdrv. simpl.
    rewrite Hrows1, bind_eq. reflexivity. }
  rewrite Hrun. cbn [fst snd].
  destruct (handleDeletions_loop_any m (Spec.rows w) w1) as [Hc Hr].
  assert (Hmark : forall r, Spec.marked_cancelled m r = Spec.binding_last_cancelled batch r)
    by (intros r; apply marked_cancelled_last).
  assert (Hrows : Spec.rows
                    (snd (Reconciler.forM_ (List.map DB.scanSyncItem (Spec.rows w))
                            (Reconciler.handleDeletion m) w1))
                  = List.filter
                      (fun o => negb (List.existsb (Z.eqb (DB.id o))
                                        (Spec.deleted_ids (Spec.binding_last_cancelled batch)
                                           (Spec.rows w)
                                           (List.tl (DB.faults (Reconciler.db w))))))
                      (Spec.rows w)).
  { rewrite Hr. unfold Spec.rows at 2. cbn [Reconciler.db w1]. rewrite Hrows1, Hfaults1.
    fold (Spec.rows w). apply List.filter_ext. intros o. do 2 f_equal.
    apply deleted_ids_ext. exact Hmark. }
  split; [| split].
  - split; [reflexivity |]. split; [| exact Hrows].
    rewrite Hc. cbn [Reconciler.calls w1]. do 2 f_equal.
    apply List.filter_ext. exact Hmark.
  - intros Hids. rewrite Hrows. split.
    + intros r Hin Hr0. apply filter_In. split; [assumption |].
      apply negb_true_iff, not_true_is_false. intros Hex.
      apply existsb_exists in Hex as (k & Hk & Heq). apply Z.eqb_eq in Heq.
      destruct (deleted_ids_marked _ _ _ _ Hk) as (r' & Hin' & Hm' & Hid').
      assert (r' = r) by (eapply NoDup_map_inj; eauto; congruence).
      subst r'. congruence.
    + intros Hnone. rewrite deleted_ids_all.
      2:{ destruct Hnone; simpl; [constructor | assumption]. }
      apply List.filter_ext_in. intros o Ho. f_equal.
      destruct (Spec.binding_last_cancelled batch o) eqn:Hm'.
      * apply existsb_exists. exists (DB.id o). split; [| apply Z.eqb_refl].
        apply in_map. apply filter_In. now split.
      * apply not_true_is_false. intros Hex.
        apply existsb_exists in Hex as (k & Hk & Heq). apply Z.eqb_eq in Heq.
        apply in_map_iff in Hk as (r' & Hid' & Hin'). apply filter_In in Hin' as [Hin' Hm''].
        assert (r' = o) by (eapply NoDup_map_inj; eauto; congruence).
        subst r'. congruence.
  - intros Hnd r. rewrite <- marked_cancelled_last. now apply marked_cancelled_batch.
Qed.

Lemma handleDeletions_clears_and_unbinds_witness :
  let run := @Reconciler.handleDeletions unit (Doubles.yt_down [] [])
               [Doubles.event_EV1 "confirmed" 100; Doubles.event_EV1 "cancelled" 200]
               (Doubles.world Doubles.bound_db tt) in
  fst run = None
  /\ Reconciler.calls (snd run) = [CallUpdateIssue "YT-1" "" "" None]
  /\ Spec.rows (snd run) = [].
Proof.
  refine (proj1 (@handleDeletions_clears_and_unbinds unit (Doubles.yt_down [] [])
                   [Doubles.event_EV1 "confirmed" 100; Doubles.event_EV1 "cancelled" 200]
                   (Doubles.world Doubles.bound_db tt) _)).
  reflexivity.
Defined.

(** ** Runs in which the code departs from its specification *)

Section UpdateBranch.

Context {E : Type} {gcal : GCalClient E} {yt : YTClient E} {rt : Runtime E}.
Variable s : Synchronizer.

Import Reconciler Spec.

(** The update branch of [processGCalEvents]: for an event that is newer
    than its binding, the issue is updated and then, whatever that call
    answered, the binding is written back with the event's instant. *)
Lemma processGCalEvent_update_branch (event : googlecalendar.Event) (row : DB.Row)
  (w : Reconciler.World E) :
  String.eqb (googlecalendar.Status event) "cancelled" = false ->
  DB.faults (db w) = [] ->
  List.find (fun r => DB.opt_string_eqb (DB.gcal_id r) (googlecalendar.ID event)) (rows w)
    = Some row ->
  gotime.After (googlecalendar.Updated event)
    (sql.nt_Time (sql.NullTime_Scan (DB.gcal_updated_at row))) = true ->
  let w' := snd (processGCalEvent s event w) in
  calls w'
    = (calls w
       ++ [CallUpdateIssue (sql.ns_String (sql.NullString_Scan (DB.yt_id row)))
             (googlecalendar.Summary event) (googlecalendar.HTMLLink event)
             (Some (googlecalendar.Start event))])%list
  /\ db w'
     = snd (DB.UpdateSyncItem
              (set_GCalUpdatedAt (DB.scanSyncItem row)
                 (NullTime_of (googlecalendar.Updated event))) (db w)).
Proof.
  intros Hst Hf Hfind Hafter. cbv zeta.
  assert (Hdrv : DB.driver (db w) = (false, db w)) by (unfold DB.driver; now rewrite Hf).
  unfold processGCalEvent, rows in *. rewrite Hst.
  unfold bind, onDB, DB.GetSyncItemByGCalID. rewrite Hdrv, Hfind. simpl.
  rewrite Hafter. unfold log, yt_UpdateIssue, remote. simpl.
  destruct (UpdateIssue _ _ _ _ (env w)) as [err e'].
  destruct err; simpl;
    destruct (DB.UpdateSyncItem _ (db w)) as [[] d']; simpl; now split.
Qed.

(** The same for [processYTissues]. *)
Lemma processYTissue_update_branch (issue : youtrack.Issue) (row : DB.Row)
  (w : Reconciler.World E) :
  DB.faults (db w) = [] ->
  List.find (fun r => DB.opt_string_eqb (DB.yt_id r) (youtrack.ID issue)) (rows w)
    = Some row ->
  gotime.After (gotime.UnixMilli (youtrack.Updated issue))
    (sql.nt_Time (sql.NullTime_Scan (DB.yt_updated_at row))) = true ->
  let w' := snd (processYTissue s issue w) in
  calls w'
    = (calls w
       ++ [CallUpdateEvent (CalendarID s)
             (sql.ns_String (sql.NullString_Scan (DB.gcal_id row)))
             (youtrack.Summary issue)
             (issue_link (GetBaseURL (env w)) (youtrack.ID issue))
             (dueDate_of issue) (gotime.Add (dueDate_of issue) gotime.Hour)])%list
  /\ db w'
     = snd (DB.UpdateSyncItem
              (set_YTUpdatedAt (DB.scanSyncItem row)
                 (NullTime_of (gotime.UnixMilli (youtrack.Updated issue)))) (db w)).
Proof.
  intros Hf Hfind Hafter. cbv zeta.
  assert (Hdrv : DB.driver (db w) = (false, db w)) by (unfold DB.driver; now rewrite Hf).
  unfold processYTissue, rows in *.
  unfold bind, onDB, DB.GetSyncItemByYTID. rewrite Hdrv, Hfind. simpl.
  rewrite Hafter. unfold log, getBaseURL, gcal_UpdateEvent, remote. simpl.
  destruct (UpdateEvent _ _ _ _ _ _ (env w)) as [r e'].
  destruct r; simpl;
    destruct (DB.UpdateSyncItem _ (db w)) as [[] d']; simpl; now split.
Qed.

(** The create branch of [processYTissues]: for an issue with a due date
    and no binding, the calendar client is asked for an event from the due
    instant to the due instant plus one hour. *)
Lemma processYTissue_create_branch (issue : youtrack.Issue) (w : Reconciler.World E) :
  DB.faults (db w) = [] ->
  List.find (fun r => DB.opt_string_eqb (DB.yt_id r) (youtrack.ID issue)) (rows w) = None ->
  gotime.IsZero (dueDate_of issue) = false ->
  exists rest,
    calls (snd (processYTissue s issue w))
    = (calls w
       ++ CallCreateEvent (CalendarID s) (youtrack.Summary issue)
            (issue_link (GetBaseURL (env w)) (youtrack.ID issue))
            (dueDate_of issue) (gotime.Add (dueDate_of issue) gotime.Hour) :: rest)%list.
Proof.
  intros Hf Hfind Hdue.
  assert (Hdrv : DB.driver (db w) = (false, db w)) by (unfold DB.driver; now rewrite Hf).
  unfold processYTissue, rows in *.
  unfold bind, onDB, DB.GetSyncItemByYTID. rewrite Hdrv, Hfind. simpl.
  rewrite Hdue. unfold log, getBaseURL, gcal_CreateEvent, remote. simpl.
  destruct (CreateEvent _ _ _ _ _ (env w)) as [[event | err] e']; simpl.
  - destruct (DB.CreateSyncItem _ (db w)) as [[] d']; simpl; now exists [].
  - now exists [].
Qed.

End UpdateBranch.

(** C1 at a failing input: the store holds the binding (EV-1, YT-1) last
    seen at 100 on the calendar side and 50 on the issue side.  The event
    EV-1 arrives with updated instant 200 while the issue tracker rejects
    every write: the one [UpdateIssue] call fails and is logged, and the
    binding's calendar-side timestamp is 200 afterwards.  Symmetrically
    the issue YT-1 arrives with updated instant 1 ms while the calendar
    rejects every write: the [UpdateEvent] call fails and is logged, and
    the binding's issue-side timestamp is advanced to 1 ms. *)
Theorem timestamp_advanced_although_update_failed :
  (let w := Doubles.world Doubles.bound_db tt in
   let w' := snd (@Reconciler.processGCalEvent unit (Doubles.yt_down [] [])
                    Doubles.synchronizer (Doubles.event_EV1 "confirmed" 200) w) in
   fst (@UpdateIssue unit (Doubles.yt_down [] []) "YT-1" "Sprint kickoff"
          "https://cal/EV-1" (Some 0) tt) = Some (ErrMsg "youtrack unavailable")
   /\ Reconciler.calls w'
      = [CallUpdateIssue "YT-1" "Sprint kickoff" "https://cal/EV-1" (Some 0)]
   /\ Reconciler.logs w'
      = ["Google Calendar event '%s' was updated. Updating YouTrack.";
         "Error updating YouTrack task %s: %v\n"]
   /\ Spec.rows w'
      = [ {| DB.id := 1; DB.gcal_id := Some "EV-1"; DB.yt_id := Some "YT-1";
             DB.gcal_updated_at := Some 200; DB.yt_updated_at := Some 50 |} ])
  /\ (let w := Doubles.world Doubles.bound_db tt in
      let w' := snd (@Reconciler.processYTissue unit (Doubles.gcal_down [] "")
                       (Doubles.yt_up [] []) (Doubles.rt_fixed 0) Doubles.synchronizer
                       (Doubles.issue_YT1 1 [Doubles.due_field 1700004600000]) w) in
      Reconciler.logs w'
      = ["YouTrack task '%s' was updated. Updating Google Calendar.";
         "Error updating Google Calendar event %s: %v\n"]
      /\ Spec.rows w'
         = [ {| DB.id := 1; DB.gcal_id := Some "EV-1"; DB.yt_id := Some "YT-1";
                DB.gcal_updated_at := Some 100;
                DB.yt_updated_at := Some (gotime.UnixMilli 1) |} ]).
Proof. repeat split; vm_compute; reflexivity. Qed.

(** C5 at a failing input: the cursor row holds the token "token-1" and
    the watermark 2023-11-14 22:13:20 UTC.  Persisting the token "token-2"
    succeeds and leaves the watermark column NULL, so the watermark can no
    longer be read.  In a run over that store in which the calendar issues
    a new token and the write of the watermark fails, the run returns no
    error and the stored watermark is gone; the next run then fails at its
    cursor load. *)
Theorem SetGCalSyncToken_erases_stored_watermark :
  let stored := Some {| DB.gcal_sync_token := Some "token-1";
                        DB.yt_last_sync := Some 1700000000000000000 |} in
  let d := DB.with_last_sync Doubles.empty_db stored in
  (DB.SetGCalSyncToken "token-2" d
   = (None, DB.with_last_sync d
              (Some {| DB.gcal_sync_token := Some "token-2"; DB.yt_last_sync := None |}))
   /\ fst (DB.GetYTLastSync (snd (DB.SetGCalSyncToken "token-2" d))) = Err ErrScanNull)
  /\ (let run := @Reconciler.Sync unit (Doubles.gcal_up [] "new-gcal-token")
                   (Doubles.yt_up [] []) (Doubles.rt_fixed 1700000100000000000)
                   Doubles.synchronizer
                   (Doubles.world (DB.with_faults d [false; false; false; false; true]) tt) in
      fst run = None
      /\ DB.last_sync (Reconciler.db (snd run))
         = Some {| DB.gcal_sync_token := Some "new-gcal-token"; DB.yt_last_sync := None |}
      /\ fst (@Reconciler.Sync unit (Doubles.gcal_up [] "new-gcal-token")
                (Doubles.yt_up [] []) (Doubles.rt_fixed 1700000200000000000)
                Doubles.synchronizer (snd run))
         = Some (Errorf "failed to get YouTrack last sync time" ErrScanNull)).
Proof. repeat split; vm_compute; reflexivity. Qed.

(** ** The repository's tests, replayed on the model *)

(** [TestDBUpdateAndDelete] *)
Example test_DBUpdateAndDelete :
  let item := {| DB.ID := 0; DB.GCalID := Reconciler.NullString_of "gcal-id";
                 DB.YTID := sql.NullString_Scan None;
                 DB.GCalUpdatedAt := sql.NullTime_Scan None;
                 DB.YTUpdatedAt := sql.NullTime_Scan None |} in
  let '(created, d1) := DB.CreateSyncItem item Doubles.empty_db in
  let item' := {| DB.ID := 1; DB.GCalID := Reconciler.NullString_of "gcal-id";
                  DB.YTID := Reconciler.NullString_of "yt-id";
                  DB.GCalUpdatedAt := sql.NullTime_Scan None;
                  DB.YTUpdatedAt := sql.NullTime_Scan None |} in
  let '(err, d2) := DB.UpdateSyncItem item' d1 in
  let '(retrieved, d3) := DB.GetSyncItemByGCalID "gcal-id" d2 in
  let '(err', d4) := DB.DeleteSyncItem 1 d3 in
  created = Ok 1 /\ err = None
  /\ option_map DB.YTID
       (match retrieved with Ok found => found | Err _ => None end)
     = Some (Reconciler.NullString_of "yt-id")
  /\ err' = None
  /\ fst (DB.GetSyncItemByGCalID "gcal-id" d4) = Ok None.
Proof. vm_compute. repeat split. Qed.

(** [TestSyncTokens] *)
Example test_SyncTokens :
  let '(err, d1) := DB.SetGCalSyncToken "test-token" Doubles.empty_db in
  let '(token, d2) := DB.GetGCalSyncToken d1 in
  let '(err', d3) := DB.SetYTLastSync 1700000000000000000 d2 in
  err = None /\ token = Ok "test-token" /\ err' = None
  /\ fst (DB.GetYTLastSync d3) = Ok 1700000000000000000.
Proof. vm_compute. repeat split. Qed.

(** [TestSync_NewGCalEventCreatesYTIssue] *)
Example test_Sync_NewGCalEventCreatesYTIssue :
  let batch := [ {| googlecalendar.ID := "gcal-1"; googlecalendar.Summary := "New GCal Event";
                    googlecalendar.HTMLLink := ""; googlecalendar.Start := gotime.zero;
                    googlecalendar.End_ := gotime.zero; googlecalendar.Status := "";
                    googlecalendar.Organizer := ""; googlecalendar.Recurrence := [];
                    googlecalendar.RecurringEventID := "";
                    googlecalendar.Updated := 1700000000000000000 |} ] in
  let run := @Reconciler.Sync unit (Doubles.gcal_up batch "new-gcal-token")
               (Doubles.yt_up [] []) (Doubles.rt_fixed 1700000000000000000)
               Doubles.synchronizer (Doubles.world Doubles.empty_db tt) in
  fst run = None
  /\ option_map DB.YTID
       (match fst (DB.GetSyncItemByGCalID "gcal-1" (Reconciler.db (snd run))) with
        | Ok found => found
        | Err _ => None
        end)
     = Some (Reconciler.NullString_of "new-yt-issue").
Proof. vm_compute. repeat split. Qed.

(** [TestSync_CancelledGCalEventUpdatesYTIssue] *)
Example test_Sync_CancelledGCalEventUpdatesYTIssue :
  let d := DB.with_sync_items Doubles.empty_db
             [ {| DB.id := 1; DB.gcal_id := Some "EV-1"; DB.yt_id := Some "YT-1";
                  DB.gcal_updated_at := None; DB.yt_updated_at := None |} ] in
  let run := @Reconciler.Sync unit
               (Doubles.gcal_up [Doubles.event_EV1 "cancelled" 0] "new-gcal-token")
               (Doubles.yt_up [] []) (Doubles.rt_fixed 1700000000000000000)
               Doubles.synchronizer (Doubles.world d tt) in
  fst run = None
  /\ In (CallUpdateIssue "YT-1" "" "" None) (Reconciler.calls (snd run))
  /\ fst (DB.GetSyncItemByGCalID "EV-1" (Reconciler.db (snd run))) = Ok None.
Proof. vm_compute. repeat split. right; right; right; right. now left. Qed.

(** [TestSync_UpdatesTokensAndTimestamps] *)
Example test_Sync_UpdatesTokensAndTimestamps :
  let run := @Reconciler.Sync unit (Doubles.gcal_up [] "new-gcal-token")
               (Doubles.yt_up [] []) (Doubles.rt_fixed 1700000000000000000)
               Doubles.synchronizer (Doubles.world Doubles.empty_db tt) in
  fst run = None
  /\ fst (DB.GetGCalSyncToken (Reconciler.db (snd run))) = Ok "new-gcal-token"
  /\ fst (DB.GetYTLastSync (Reconciler.db (snd run))) = Ok 1700000000000000000.
Proof. vm_compute. repeat split. Qed.

(** [TestSync_NewYTIssueWithoutDueDateDoesNotCreateGCalEvent] *)
Example test_Sync_NewYTIssueWithoutDueDate :
  let run := @Reconciler.Sync unit (Doubles.gcal_up [] "new-gcal-token")
               (Doubles.yt_up [Doubles.issue_YT1 1700000000000 []] [])
               (Doubles.rt_fixed 1700000000000000000)
               Doubles.synchronizer (Doubles.world Doubles.empty_db tt) in
  fst run = None
  /\ Spec.rows (snd run) = []
  /\ List.existsb (fun c => match c with CallCreateEvent _ _ _ _ _ => true | _ => false end)
       (Reconciler.calls (snd run)) = false.
Proof. vm_compute. repeat split. Qed.

(** [TestUpdateIssue_NotFound]: a server that answers 404 to everything. *)
Example test_UpdateIssue_NotFound :
  let Do := fun (_ : youtrack.Request) (e : unit) =>
              (Ok {| youtrack.StatusCode := 404; youtrack.Status := "404 Not Found";
                     youtrack.ResponseBody := "" |}, e) in
  fst (youtrack.UpdateIssue Do (fun _ => true)
         {| youtrack.BaseURL := "http://127.0.0.1"; youtrack.Token := "test-token" |}
         "non-existent-issue" "Summary" "Description" None tt)
  = Some ErrNotFound.
Proof. reflexivity. Qed.

(** [TestParseDateTime] fixes 2024-01-01 as a date; the formatter agrees on
    it, on the epoch, on a leap day and on the zero time. *)
Example test_Format_date :
  gotime.Format_date 0 (gotime.UnixMilli 1704103200000) = "2024-01-01"
  /\ gotime.Format_date 0 0 = "1970-01-01"
  /\ gotime.Format_date 0 (gotime.UnixMilli 1709164800000) = "2024-02-29"
  /\ gotime.Format_date 0 gotime.zero = "0001-01-01"
  /\ gotime.Format_date 3600 (gotime.UnixMilli 1704063600000) = "2024-01-01".
Proof. vm_compute. repeat split. Qed.

(** * Further properties *)

(** ** The binding store: constraints, identifiers, round trips *)

Section StoreLaws.

Import sql DB Store.

Lemma answers_driver (d : t) : answers d -> driver d = (false, d).
Proof. unfold answers, driver. now intros ->. Qed.

Lemma driver_ok_driver (d : t) :
  driver_ok d -> fst (driver d) = false.
Proof. intros H. destruct (driver_ok_inv d H) as (d1 & -> & _). reflexivity. Qed.

Lemma driver_seq_faults (d : t) :
  seq (snd (driver d)) = seq d /\ faults (snd (driver d)) = tl (faults d).
Proof. unfold driver. destruct d as [rows n l [|f fs]]; simpl; auto. Qed.

Lemma In_gcal_ids (rows : list Row) (g : string) :
  In g (gcal_ids rows) <-> exists o, In o rows /\ gcal_id o = Some g.
Proof.
  unfold gcal_ids. rewrite <- list_elem_of_In, list_elem_of_omap.
  split; intros (o & Ho & Hg); exists o; [rewrite <- list_elem_of_In | rewrite list_elem_of_In];
    auto.
Qed.

Lemma In_yt_ids (rows : list Row) (y : string) :
  In y (yt_ids rows) <-> exists o, In o rows /\ yt_id o = Some y.
Proof.
  unfold yt_ids. rewrite <- list_elem_of_In, list_elem_of_omap.
  split; intros (o & Ho & Hg); exists o; [rewrite <- list_elem_of_In | rewrite list_elem_of_In];
    auto.
Qed.

Lemma max_rowid_ge (rows : list Row) (o : Row) : In o rows -> id o <= max_rowid rows.
Proof.
  induction rows as [|x rows IH]; simpl; [contradiction |].
  intros [-> | Hin]; [lia |]. specialize (IH Hin). lia.
Qed.

(** The UNIQUE check, spelled out. *)
Lemma violates_unique_false (r : Row) (others : list Row) :
  violates_unique r others = false <->
  forall o, In o others ->
    (forall g, gcal_id r = Some g -> gcal_id o <> Some g)
    /\ (forall y, yt_id r = Some y -> yt_id o <> Some y).
Proof.
  unfold violates_unique. induction others as [|x others IH]; simpl.
  - split; [intros _ o [] | reflexivity].
  - rewrite orb_false_iff, IH, orb_false_iff. split.
    + intros [[Hg Hy] Hrest] o [<- | Ho]; [| now apply Hrest].
      split.
      * intros g Hrg Hxg. rewrite Hrg in Hg.
        apply not_true_iff_false in Hg. apply Hg. now apply opt_string_eqb_eq.
      * intros y Hry Hxy. rewrite Hry in Hy.
        apply not_true_iff_false in Hy. apply Hy. now apply opt_string_eqb_eq.
    + intros H. split; [| intros o Ho; apply H; now right].
      destruct (H x (or_introl eq_refl)) as [Hg Hy]. split.
      * destruct (gcal_id r) as [g |]; [| reflexivity].
        apply not_true_iff_false. intros Heq. apply opt_string_eqb_eq in Heq.
        now apply (Hg g).
      * destruct (yt_id r) as [y |]; [| reflexivity].
        apply not_true_iff_false. intros Heq. apply opt_string_eqb_eq in Heq.
        now apply (Hy y).
Qed.

Lemma violates_unique_true (item : SyncItem) (n : Z) (others : list Row) :
  violates_unique (bind_row n item) others = true <->
  exists o, In o others /\ clashes item o.
Proof.
  unfold violates_unique, clashes. rewrite existsb_exists. simpl.
  split; intros (o & Ho & H); exists o; (split; [assumption |]).
  - apply orb_true_iff in H as [H | H].
    + left. destruct (NullString_Value (GCalID item)) as [g |]; [| discriminate].
      exists g. split; [reflexivity | now apply opt_string_eqb_eq].
    + right. destruct (NullString_Value (YTID item)) as [y |]; [| discriminate].
      exists y. split; [reflexivity | now apply opt_string_eqb_eq].
  - apply orb_true_iff. destruct H as [(g & -> & Hg) | (y & -> & Hy)].
    + left. now apply opt_string_eqb_eq.
    + right. now apply opt_string_eqb_eq.
Qed.

(** [CreateSyncItem], case by case. *)
Lemma CreateSyncItem_cases (item : SyncItem) (d : t) :
  let n := Z.max (seq d) (max_rowid (sync_items d)) + 1 in
  (exists e, fst (CreateSyncItem item d) = Err e
             /\ sync_items (snd (CreateSyncItem item d)) = sync_items d
             /\ seq (snd (CreateSyncItem item d)) = seq d)
  \/ (fst (CreateSyncItem item d) = Ok n
      /\ violates_unique (bind_row n item) (sync_items d) = false
      /\ sync_items (snd (CreateSyncItem item d)) = (sync_items d ++ [bind_row n item])%list
      /\ seq (snd (CreateSyncItem item d)) = n).
Proof.
  unfold CreateSyncItem.
  pose proof (driver_tables d) as (Hrows & _ & Hseq).
  destruct (driver d) as [[] d1]; simpl in *.
  - left. eauto.
  - rewrite Hrows, Hseq.
    destruct (violates_unique _ (sync_items d)) eqn:Hv; simpl.
    + left. eauto.
    + right. auto.
Qed.

(** [UpdateSyncItem], case by case. *)
Lemma UpdateSyncItem_cases (item : SyncItem) (d : t) :
  (sync_items (snd (UpdateSyncItem item d)) = sync_items d)
  \/ (fst (UpdateSyncItem item d) = None
      /\ In (ID item) (List.map id (sync_items d))
      /\ violates_unique (bind_row (ID item) item)
           (List.filter (fun o => negb (id o =? ID item)) (sync_items d)) = false
      /\ sync_items (snd (UpdateSyncItem item d))
         = List.map (fun o => if id o =? ID item then bind_row (ID item) item else o)
             (sync_items d)).
Proof.
  unfold UpdateSyncItem.
  pose proof (driver_tables d) as (Hrows & _).
  destruct (driver d) as [[] d1]; simpl in *; [now left |].
  rewrite Hrows.
  destruct (List.existsb _ (sync_items d)) eqn:Hex; simpl; [| now left].
  destruct (violates_unique _ _) eqn:Hv; simpl; [now left |].
  right. repeat split. now apply existsb_id_In.
Qed.

Lemma omap_cons_In {A B : Type} (f : A -> option B) (x : A) (l : list A) (b : B) :
  In b (omap f (x :: l)) <-> f x = Some b \/ In b (omap f l).
Proof. simpl. destruct (f x) as [b' |]; simpl; intuition congruence. Qed.

Lemma In_omap {A B : Type} (f : A -> option B) (l : list A) (b : B) :
  In b (omap f l) <-> exists o, In o l /\ f o = Some b.
Proof.
  rewrite <- list_elem_of_In, list_elem_of_omap.
  split; intros (o & Ho & Hb); exists o; [rewrite <- list_elem_of_In | rewrite list_elem_of_In];
    auto.
Qed.

Lemma NoDup_omap_cons {A B : Type} (f : A -> option B) (x : A) (l : list A) :
  List.NoDup (omap f (x :: l)) <->
  (forall b, f x = Some b -> ~ In b (omap f l)) /\ List.NoDup (omap f l).
Proof.
  simpl. destruct (f x) as [b |] eqn:Hfx; simpl.
  - split.
    + intros H. inversion H; subst. split; [| assumption]. now intros b' [= <-].
    + intros [Hn Hnd]. constructor; auto.
  - split; [intros H; split; [discriminate | assumption] | now intros [_ H]].
Qed.

Lemma NoDup_omap_filter {A B : Type} (f : A -> option B) (p : A -> bool) (l : list A) :
  List.NoDup (omap f l) -> List.NoDup (omap f (List.filter p l)).
Proof.
  induction l as [|x l IH]; [trivial |].
  rewrite NoDup_omap_cons. intros [Hx Hnd]. simpl List.filter.
  destruct (p x); [| now apply IH].
  rewrite NoDup_omap_cons. split; [| now apply IH].
  intros b Hb Hin. apply (Hx b Hb). apply In_omap in Hin as (o & Ho & Hfo).
  apply filter_In in Ho as [Ho _]. apply In_omap. eauto.
Qed.

Lemma NoDup_omap_app_one {A B : Type} (f : A -> option B) (l : list A) (r : A) :
  List.NoDup (omap f l) ->
  (forall o b, In o l -> f r = Some b -> f o <> Some b) ->
  List.NoDup (omap f (l ++ [r])%list).
Proof.
  induction l as [|x l IH]; intros Hnd Hr.
  - simpl. destruct (f r); repeat constructor. intros [].
  - apply NoDup_omap_cons in Hnd as [Hx Hnd]. simpl app. rewrite NoDup_omap_cons.
    split.
    + intros b Hb Hin. apply In_omap in Hin as (o & Ho & Hfo).
      apply in_app_or in Ho as [Ho | [<- | []]].
      * apply (Hx b Hb). apply In_omap. eauto.
      * apply (Hr x b); [now left | assumption | assumption].
    + apply IH; [assumption |]. intros o b Ho. apply Hr. now right.
Qed.

Lemma map_replace_absent (rows : list Row) (r : Row) (k : Z) :
  ~ In k (List.map id rows) ->
  List.map (fun o => if id o =? k then r else o) rows = rows.
Proof.
  induction rows as [|x rows IH]; simpl; intros Hk; [reflexivity |].
  destruct (id x =? k) eqn:Heq.
  - apply Z.eqb_eq in Heq. exfalso. apply Hk. now left.
  - f_equal. apply IH. intros H. apply Hk. now right.
Qed.

Lemma NoDup_omap_update {B : Type} (f : Row -> option B) (rows : list Row) (r : Row) (k : Z) :
  List.NoDup (List.map id rows) -> List.NoDup (omap f rows) ->
  (forall o b, In o rows -> id o <> k -> f r = Some b -> f o <> Some b) ->
  List.NoDup (omap f (List.map (fun o => if id o =? k then r else o) rows)).
Proof.
  induction rows as [|x rows IH]; intros Hids Hnd Hr; [constructor |].
  simpl List.map in *. inversion Hids as [|? ? Hxid Hids']; subst.
  apply NoDup_omap_cons in Hnd as [Hx Hnd].
  destruct (id x =? k) eqn:Heq.
  - apply Z.eqb_eq in Heq. subst k. rewrite map_replace_absent by assumption.
    rewrite NoDup_omap_cons. split; [| assumption].
    intros b Hb Hin. apply In_omap in Hin as (o & Ho & Hfo).
    apply (Hr o b); auto; [now right |].
    intros Hid. apply Hxid. rewrite <- Hid. now apply in_map.
  - apply Z.eqb_neq in Heq. rewrite NoDup_omap_cons. split.
    + intros b Hb Hin. apply In_omap in Hin as (o' & Ho' & Hfo').
      apply in_map_iff in Ho' as (o & Hoo' & Ho).
      destruct (id o =? k); subst o'.
      * apply (Hr x b); auto. now left.
      * apply (Hx b Hb). apply In_omap. eauto.
    + apply IH; auto. intros o b Ho. apply Hr. now right.
Qed.

Lemma map_id_replace (rows : list Row) (r : Row) :
  List.map id (List.map (fun o => if id o =? id r then r else o) rows) = List.map id rows.
Proof.
  rewrite List.map_map. apply List.map_ext. intros o.
  destruct (id o =? id r) eqn:Heq; [| reflexivity]. apply Z.eqb_eq in Heq. congruence.
Qed.

Lemma constraints_insert (rows : list Row) (r : Row) :
  constraints rows -> (forall o, In o rows -> id o < id r) ->
  violates_unique r rows = false -> constraints (rows ++ [r])%list.
Proof.
  intros (Hids & Hg & Hy) Hfresh Hv. rewrite violates_unique_false in Hv.
  repeat split.
  - rewrite List.map_app. simpl. apply List.NoDup_app; [assumption | |].
    + repeat constructor. intros [].
    + intros x Hx [<- | []]. apply in_map_iff in Hx as (o & Hid & Ho).
      specialize (Hfresh o Ho). lia.
  - apply NoDup_omap_app_one; [assumption |]. intros o b Ho Hb. now apply (Hv o Ho).
  - apply NoDup_omap_app_one; [assumption |]. intros o b Ho Hb. now apply (Hv o Ho).
Qed.

Lemma constraints_update (rows : list Row) (r : Row) :
  constraints rows ->
  violates_unique r (List.filter (fun o => negb (id o =? id r)) rows) = false ->
  constraints (List.map (fun o => if id o =? id r then r else o) rows).
Proof.
  intros (Hids & Hg & Hy) Hv. rewrite violates_unique_false in Hv.
  assert (Hothers : forall o, In o rows -> id o <> id r ->
            In o (List.filter (fun o => negb (id o =? id r)) rows)).
  { intros o Ho Hne. apply filter_In. split; [assumption |].
    now apply negb_true_iff, Z.eqb_neq. }
  repeat split.
  - now rewrite map_id_replace.
  - apply NoDup_omap_update; auto. intros o b Ho Hne Hb.
    now apply (Hv o (Hothers o Ho Hne)).
  - apply NoDup_omap_update; auto. intros o b Ho Hne Hb.
    now apply (Hv o (Hothers o Ho Hne)).
Qed.

Lemma constraints_delete (rows : list Row) (p : Row -> bool) :
  constraints rows -> constraints (List.filter p rows).
Proof.
  intros (Hids & Hg & Hy). repeat split.
  - clear Hg Hy. induction rows as [|x rows IH]; simpl; [constructor |].
    inversion Hids; subst. destruct (p x); [| auto].
    simpl. constructor; [| auto]. intros Hin. apply in_map_iff in Hin as (o & Hid & Ho).
    apply filter_In in Ho as [Ho _]. match goal with H : ~ In _ _ |- _ => apply H end.
    rewrite <- Hid. now apply in_map.
  - now apply NoDup_omap_filter.
  - now apply NoDup_omap_filter.
Qed.

Lemma CreateSyncItem_constraints (item : SyncItem) (d : t) :
  constraints (sync_items d) -> constraints (sync_items (snd (CreateSyncItem item d))).
Proof.
  intros H. destruct (CreateSyncItem_cases item d) as [(e & _ & -> & _) | (_ & Hv & -> & _)];
    [assumption |].
  apply constraints_insert; auto. intros o Ho. simpl.
  pose proof (max_rowid_ge _ _ Ho). lia.
Qed.

Lemma UpdateSyncItem_constraints (item : SyncItem) (d : t) :
  constraints (sync_items d) -> constraints (sync_items (snd (UpdateSyncItem item d))).
Proof.
  intros H. destruct (UpdateSyncItem_cases item d) as [-> | (_ & _ & Hv & ->)];
    [assumption |].
  now apply (constraints_update (sync_items d) (bind_row (ID item) item)).
Qed.

Lemma DeleteSyncItem_constraints (k : Z) (d : t) :
  constraints (sync_items d) -> constraints (sync_items (snd (DeleteSyncItem k d))).
Proof.
  intros H. destruct (DeleteSyncItem_rows k d) as [-> | ->];
    [assumption | now apply constraints_delete].
Qed.

Lemma find_unique {A : Type} (p : A -> bool) (l : list A) (r : A) :
  In r l -> p r = true -> (forall x, In x l -> p x = true -> x = r) ->
  List.find p l = Some r.
Proof.
  intros Hin Hp Huniq. destruct (List.find p l) as [x |] eqn:Hfind.
  - apply find_some in Hfind as [Hx Hpx]. f_equal. now apply Huniq.
  - pose proof (find_none _ _ Hfind r Hin). congruence.
Qed.

Lemma find_absent {A : Type} (p : A -> bool) (l : list A) :
  (forall x, In x l -> p x = false) -> List.find p l = None.
Proof.
  intros H. destruct (List.find p l) as [x |] eqn:Hfind; [| reflexivity].
  apply find_some in Hfind as [Hx Hpx]. rewrite (H x Hx) in Hpx. discriminate.
Qed.

Lemma find_filter_same {A : Type} (p q : A -> bool) (l : list A) :
  (forall x, In x l -> p x = true -> q x = true) ->
  List.find p (List.filter q l) = List.find p l.
Proof.
  induction l as [|x l IH]; simpl; intros H; [reflexivity |].
  destruct (p x) eqn:Hp.
  - rewrite (H x (or_introl eq_refl) Hp). simpl. now rewrite Hp.
  - destruct (q x); simpl; [rewrite Hp |]; apply IH; intros y Hy; apply H; now right.
Qed.

Lemma NoDup_omap_inj {A B : Type} (f : A -> option B) (l : list A) (a b : A) (v : B) :
  List.NoDup (omap f l) -> In a l -> In b l -> f a = Some v -> f b = Some v -> a = b.
Proof.
  induction l as [|x l IH]; [contradiction |].
  rewrite NoDup_omap_cons. intros [Hx Hnd] [-> | Ha] [-> | Hb] Hfa Hfb; auto.
  - exfalso. apply (Hx v Hfa). apply In_omap. eauto.
  - exfalso. apply (Hx v Hfb). apply In_omap. eauto.
Qed.

Lemma lookup_by_gcal (g : string) (d : t) :
  answers d ->
  GetSyncItemByGCalID g d
  = (Ok (option_map scanSyncItem
           (List.find (fun r => opt_string_eqb (gcal_id r) g) (sync_items d))), d).
Proof. intros H. unfold GetSyncItemByGCalID. now rewrite (answers_driver d H). Qed.

Lemma lookup_by_yt (y : string) (d : t) :
  answers d ->
  GetSyncItemByYTID y d
  = (Ok (option_map scanSyncItem
           (List.find (fun r => opt_string_eqb (yt_id r) y) (sync_items d))), d).
Proof. intros H. unfold GetSyncItemByYTID. now rewrite (answers_driver d H). Qed.

Lemma CreateSyncItem_answers (item : SyncItem) (d : t) :
  answers d -> answers (snd (CreateSyncItem item d)).
Proof.
  intros H. unfold CreateSyncItem. rewrite (answers_driver d H).
  now destruct (violates_unique _ _).
Qed.

Lemma UpdateSyncItem_answers (item : SyncItem) (d : t) :
  answers d -> answers (snd (UpdateSyncItem item d)).
Proof.
  intros H. unfold UpdateSyncItem. rewrite (answers_driver d H).
  destruct (List.existsb _ _); [| assumption]. now destruct (violates_unique _ _).
Qed.

Lemma DeleteSyncItem_answers (k : Z) (d : t) :
  answers d -> answers (snd (DeleteSyncItem k d)).
Proof. intros H. unfold DeleteSyncItem. now rewrite (answers_driver d H). Qed.

Lemma DeleteSyncItem_filter (k : Z) (d : t) :
  answers d ->
  DeleteSyncItem k d
  = (None, with_sync_items d (List.filter (fun o => negb (id o =? k)) (sync_items d))).
Proof. intros H. unfold DeleteSyncItem. now rewrite (answers_driver d H). Qed.

End StoreLaws.

(** The three writes of the store keep the schema's constraints: from a
    table whose local ids are pairwise different and whose non-NULL
    calendar ids and issue ids are each pairwise different, creating,
    updating or deleting a binding, whatever the arguments and whether or
    not the statement fails, leaves such a table. *)
Theorem store_writes_keep_constraints (d : DB.t) (item : DB.SyncItem) (k : Z) :
  Store.constraints (DB.sync_items d) ->
  Store.constraints (DB.sync_items (snd (DB.CreateSyncItem item d)))
  /\ Store.constraints (DB.sync_items (snd (DB.UpdateSyncItem item d)))
  /\ Store.constraints (DB.sync_items (snd (DB.DeleteSyncItem k d))).
Proof.
  intros H. split; [| split].
  - apply CreateSyncItem_constraints, H.
  - apply UpdateSyncItem_constraints, H.
  - apply DeleteSyncItem_constraints, H.
Qed.

Lemma store_writes_keep_constraints_witness :
  let item := {| DB.ID := 1; DB.GCalID := Reconciler.NullString_of "EV-2";
                 DB.YTID := Reconciler.NullString_of "YT-2";
                 DB.GCalUpdatedAt := sql.NullTime_Scan None;
                 DB.YTUpdatedAt := sql.NullTime_Scan None |} in
  Store.constraints (DB.sync_items (snd (DB.CreateSyncItem item Doubles.bound_db)))
  /\ Store.constraints (DB.sync_items (snd (DB.UpdateSyncItem item Doubles.bound_db)))
  /\ Store.constraints (DB.sync_items (snd (DB.DeleteSyncItem 1 Doubles.bound_db))).
Proof.
  refine (store_writes_keep_constraints Doubles.bound_db _ 1 _).
  repeat split; simpl; repeat constructor; intros [].
Defined.

(** Local ids are handed out in increasing order and never again: when
    the counter bounds the ids in use, a created binding gets an id above
    the counter and above every id in use, the counter moves up to it,
    updates and deletions leave the counter alone, and so a binding
    created after another was deleted never gets the deleted one's id. *)
Theorem local_ids_are_never_reused (d : DB.t) (item : DB.SyncItem) :
  Store.ids_bounded d ->
  (forall n, fst (DB.CreateSyncItem item d) = Ok n ->
     DB.seq d < n /\ DB.seq (snd (DB.CreateSyncItem item d)) = n
     /\ forall r, In r (DB.sync_items d) -> DB.id r < n)
  /\ Store.ids_bounded (snd (DB.CreateSyncItem item d))
  /\ (forall r n, In r (DB.sync_items d) ->
        fst (DB.CreateSyncItem item (snd (DB.DeleteSyncItem (DB.id r) d))) = Ok n ->
        DB.id r < n).
Proof.
  intros Hb. split; [| split].
  - intros n Hn. destruct (CreateSyncItem_cases item d) as [(e & He & _) | (Hok & _ & _ & Hseq)];
      [congruence |].
    rewrite Hok in Hn. injection Hn as <-. split; [lia |]. split; [assumption |].
    intros r Hr. specialize (Hb r Hr). lia.
  - intros r Hr.
    destruct (CreateSyncItem_cases item d) as [(e & _ & Hrows & Hseq) | (_ & _ & Hrows & Hseq)];
      rewrite Hrows in Hr; rewrite Hseq.
    + now apply Hb.
    + apply in_app_or in Hr as [Hr | [<- | []]]; [| simpl; lia].
      specialize (Hb r Hr). lia.
  - intros r n Hr Hn.
    set (d1 := snd (DB.DeleteSyncItem (DB.id r) d)) in *.
    assert (Hseq1 : DB.seq d1 = DB.seq d).
    { unfold d1, DB.DeleteSyncItem. pose proof (driver_tables d) as (_ & _ & Hs).
      destruct (DB.driver d) as [[] d0]; simpl in *; assumption. }
    destruct (CreateSyncItem_cases item d1) as [(e & He & _) | (Hok & _)]; [congruence |].
    rewrite Hok in Hn. injection Hn as <-. specialize (Hb r Hr). lia.
Qed.

Lemma local_ids_are_never_reused_witness :
  let r := {| DB.id := 1; DB.gcal_id := Some "EV-1"; DB.yt_id := Some "YT-1";
              DB.gcal_updated_at := Some 100; DB.yt_updated_at := Some 50 |} in
  DB.id r < 2.
Proof.
  intros r.
  refine (proj2 (proj2 (local_ids_are_never_reused Doubles.bound_db
                          {| DB.ID := 0; DB.GCalID := Reconciler.NullString_of "EV-2";
                             DB.YTID := Reconciler.NullString_of "YT-2";
                             DB.GCalUpdatedAt := sql.NullTime_Scan None;
                             DB.YTUpdatedAt := sql.NullTime_Scan None |} _))
            r 2 _ _).
  - intros o [<- | []]. simpl. lia.
  - now left.
  - reflexivity.
Defined.

(** A created binding is found again under either remote id: when the
    store answers, the instants of the binding are ones the TIMESTAMP
    columns keep (NULL, or from year 1 to year 9998) and [CreateSyncItem]
    returned the local id [n], looking the binding up by its calendar id,
    or by its issue id, returns the binding with local id [n] and the
    values that were bound. *)
Theorem CreateSyncItem_then_lookup (item found : DB.SyncItem) (d : DB.t) (n : Z) :
  Store.answers d ->
  Store.stored n item = Some found ->
  fst (DB.CreateSyncItem item d) = Ok n ->
  (forall g, sql.NullString_Value (DB.GCalID item) = Some g ->
     fst (DB.GetSyncItemByGCalID g (snd (DB.CreateSyncItem item d)))
     = Ok (Some found))
  /\ (forall y, sql.NullString_Value (DB.YTID item) = Some y ->
        fst (DB.GetSyncItemByYTID y (snd (DB.CreateSyncItem item d)))
        = Ok (Some found)).
Proof.
  intros Hans Hfound Hn.
  assert (Hf : found = DB.scanSyncItem (DB.bind_row n item)).
  { unfold Store.stored in Hfound.
    destruct (Store.kept _ && Store.kept _); congruence. }
  subst found. clear Hfound.
  pose proof (CreateSyncItem_answers item d Hans) as Hans'.
  destruct (CreateSyncItem_cases item d) as [(e & He & _) | (Hok & Hv & Hrows & _)];
    [congruence |].
  rewrite Hok in Hn. injection Hn as Hn. rewrite Hn in *. clear Hn Hok.
  rewrite violates_unique_false in Hv.
  split.
  - intros g Hg. rewrite (lookup_by_gcal g _ Hans'). simpl. rewrite Hrows, find_app_last.
    rewrite find_absent.
    + simpl. rewrite Hg. simpl. now rewrite String.eqb_refl.
    + intros o Ho. apply not_true_iff_false. intros Heq. apply opt_string_eqb_eq in Heq.
      now apply (proj1 (Hv o Ho) g).
  - intros y Hy. rewrite (lookup_by_yt y _ Hans'). simpl. rewrite Hrows, find_app_last.
    rewrite find_absent.
    + simpl. rewrite Hy. simpl. now rewrite String.eqb_refl.
    + intros o Ho. apply not_true_iff_false. intros Heq. apply opt_string_eqb_eq in Heq.
      now apply (proj2 (Hv o Ho) y).
Qed.

Lemma CreateSyncItem_then_lookup_witness :
  let item := {| DB.ID := 0; DB.GCalID := Reconciler.NullString_of "EV-2";
                 DB.YTID := Reconciler.NullString_of "YT-2";
                 DB.GCalUpdatedAt := Reconciler.NullTime_of 7;
                 DB.YTUpdatedAt := sql.NullTime_Scan None |} in
  fst (DB.GetSyncItemByGCalID "EV-2" (snd (DB.CreateSyncItem item Doubles.bound_db)))
  = Ok (Some {| DB.ID := 2; DB.GCalID := Reconciler.NullString_of "EV-2";
                DB.YTID := Reconciler.NullString_of "YT-2";
                DB.GCalUpdatedAt := Reconciler.NullTime_of 7;
                DB.YTUpdatedAt := sql.NullTime_Scan None |}).
Proof.
  intros item.
  refine (proj1 (CreateSyncItem_then_lookup item _ Doubles.bound_db 2 _ _ _) "EV-2" _);
    reflexivity.
Defined.

(** Creating a binding fails with the UNIQUE violation exactly when a row
    already holds one of the non-NULL remote ids of the new binding (when
    the driver accepts the statement); and whenever creating fails, the
    table and the id counter are as before. *)
Theorem CreateSyncItem_conflict (item : DB.SyncItem) (d : DB.t) :
  DB.driver_ok d ->
  (fst (DB.CreateSyncItem item d) = Err ErrConstraint
   <-> exists o, In o (DB.sync_items d) /\ Store.clashes item o)
  /\ (forall e, fst (DB.CreateSyncItem item d) = Err e ->
        DB.sync_items (snd (DB.CreateSyncItem item d)) = DB.sync_items d
        /\ DB.seq (snd (DB.CreateSyncItem item d)) = DB.seq d).
Proof.
  intros Hok. split.
  - destruct (driver_ok_inv d Hok) as (d1 & Hd & Hrows & _).
    unfold DB.CreateSyncItem. rewrite Hd, Hrows.
    destruct (DB.violates_unique _ (DB.sync_items d)) eqn:Hv; simpl.
    + split; [intros _ | reflexivity]. now apply violates_unique_true in Hv.
    + split; [discriminate |]. intros H. apply violates_unique_true with (n := Z.max (DB.seq d1) (DB.max_rowid (DB.sync_items d)) + 1) in H.
      congruence.
  - intros e He.
    destruct (CreateSyncItem_cases item d) as [(e' & _ & Hrows & Hseq) | (Hn & _)];
      [now split | congruence].
Qed.

Lemma CreateSyncItem_conflict_witness :
  fst (DB.CreateSyncItem
         {| DB.ID := 0; DB.GCalID := Reconciler.NullString_of "EV-9";
            DB.YTID := Reconciler.NullString_of "YT-1";
            DB.GCalUpdatedAt := sql.NullTime_Scan None;
            DB.YTUpdatedAt := sql.NullTime_Scan None |} Doubles.bound_db)
  = Err ErrConstraint.
Proof.
  refine (proj2 (proj1 (CreateSyncItem_conflict _ Doubles.bound_db _)) _).
  - reflexivity.
  - eexists. split; [now left |]. right. exists "YT-1". now split.
Defined.

(** After a successful update of an existing binding, the binding is found
    under its (possibly new) calendar id and issue id with exactly the
    values of the caller's struct (when the store answers and the
    instants of the struct are ones the TIMESTAMP columns keep: NULL, or
    from year 1 to year 9998). *)
Theorem UpdateSyncItem_then_lookup (item found : DB.SyncItem) (d : DB.t) :
  Store.answers d ->
  Store.stored (DB.ID item) item = Some found ->
  In (DB.ID item) (List.map DB.id (DB.sync_items d)) ->
  fst (DB.UpdateSyncItem item d) = None ->
  (forall g, sql.NullString_Value (DB.GCalID item) = Some g ->
     fst (DB.GetSyncItemByGCalID g (snd (DB.UpdateSyncItem item d)))
     = Ok (Some found))
  /\ (forall y, sql.NullString_Value (DB.YTID item) = Some y ->
        fst (DB.GetSyncItemByYTID y (snd (DB.UpdateSyncItem item d)))
        = Ok (Some found)).
Proof.
  intros Hans Hfound Hin Hnone.
  assert (Hf : found = DB.scanSyncItem (DB.bind_row (DB.ID item) item)).
  { unfold Store.stored in Hfound.
    destruct (Store.kept _ && Store.kept _); congruence. }
  subst found. clear Hfound.
  pose proof (UpdateSyncItem_answers item d Hans) as Hans'.
  assert (Hcase : DB.violates_unique (DB.bind_row (DB.ID item) item)
                    (List.filter (fun o => negb (DB.id o =? DB.ID item)) (DB.sync_items d))
                  = false
                  /\ DB.sync_items (snd (DB.UpdateSyncItem item d))
                     = List.map (fun o => if DB.id o =? DB.ID item
                                          then DB.bind_row (DB.ID item) item else o)
                         (DB.sync_items d)).
  { revert Hnone. unfold DB.UpdateSyncItem. rewrite (answers_driver d Hans).
    rewrite (proj2 (existsb_id_In _ _) Hin).
    destruct (DB.violates_unique _ _); simpl; [discriminate | auto]. }
  destruct Hcase as [Hv Hrows]. rewrite violates_unique_false in Hv.
  set (r := DB.bind_row (DB.ID item) item) in *.
  assert (Hr : In r (DB.sync_items (snd (DB.UpdateSyncItem item d)))).
  { rewrite Hrows. apply in_map_iff in Hin as (o & Hid & Ho).
    apply in_map_iff. exists o. split; [| assumption].
    now rewrite (proj2 (Z.eqb_eq _ _) Hid). }
  assert (Hother : forall x, In x (DB.sync_items (snd (DB.UpdateSyncItem item d))) ->
            x = r \/ In x (List.filter (fun o => negb (DB.id o =? DB.ID item))
                             (DB.sync_items d))).
  { intros x Hx. rewrite Hrows in Hx. apply in_map_iff in Hx as (o & Hox & Ho).
    destruct (DB.id o =? DB.ID item) eqn:Heq; [now left |].
    right. subst x. apply filter_In. split; [assumption |]. now rewrite Heq. }
  split.
  - intros g Hg. rewrite (lookup_by_gcal g _ Hans'). simpl.
    rewrite (find_unique _ _ r Hr); [reflexivity | |].
    + unfold r. simpl. rewrite Hg. simpl. apply String.eqb_refl.
    + intros x Hx Hpx. destruct (Hother x Hx) as [-> | Hx']; [reflexivity |].
      apply opt_string_eqb_eq in Hpx. exfalso.
      apply (proj1 (Hv x Hx') g); [exact Hg | exact Hpx].
  - intros y Hy. rewrite (lookup_by_yt y _ Hans'). simpl.
    rewrite (find_unique _ _ r Hr); [reflexivity | |].
    + unfold r. simpl. rewrite Hy. simpl. apply String.eqb_refl.
    + intros x Hx Hpx. destruct (Hother x Hx) as [-> | Hx']; [reflexivity |].
      apply opt_string_eqb_eq in Hpx. exfalso.
      apply (proj2 (Hv x Hx') y); [exact Hy | exact Hpx].
Qed.

Lemma UpdateSyncItem_then_lookup_witness :
  let item := {| DB.ID := 1; DB.GCalID := Reconciler.NullString_of "EV-1";
                 DB.YTID := Reconciler.NullString_of "YT-3";
                 DB.GCalUpdatedAt := Reconciler.NullTime_of 200;
                 DB.YTUpdatedAt := sql.NullTime_Scan None |} in
  fst (DB.GetSyncItemByYTID "YT-3" (snd (DB.UpdateSyncItem item Doubles.bound_db)))
  = Ok (Some item).
Proof.
  intros item.
  refine (proj2 (UpdateSyncItem_then_lookup item item Doubles.bound_db _ _ _ _) "YT-3" _);
    try reflexivity.
  now left.
Defined.

(** Deleting the binding found under a calendar id unbinds that id and
    nothing else: in a table that satisfies the schema's constraints, with
    the store answering, the deletion reports no error, the calendar id is
    no longer found, every other calendar id is found exactly as before,
    and deleting the same local id again reports no error and changes
    nothing. *)
Theorem DeleteSyncItem_unbinds (g : string) (item : DB.SyncItem) (d : DB.t) :
  Store.answers d ->
  Store.constraints (DB.sync_items d) ->
  fst (DB.GetSyncItemByGCalID g d) = Ok (Some item) ->
  let d' := snd (DB.DeleteSyncItem (DB.ID item) d) in
  fst (DB.DeleteSyncItem (DB.ID item) d) = None
  /\ fst (DB.GetSyncItemByGCalID g d') = Ok None
  /\ (forall g', g' <> g ->
        fst (DB.GetSyncItemByGCalID g' d') = fst (DB.GetSyncItemByGCalID g' d))
  /\ DB.DeleteSyncItem (DB.ID item) d' = (None, d').
Proof.
  intros Hans (Hids & Hg & _) Hget. cbv zeta.
  rewrite (lookup_by_gcal g d Hans) in Hget. simpl in Hget.
  destruct (List.find _ (DB.sync_items d)) as [row |] eqn:Hfind; [| discriminate].
  simpl in Hget. injection Hget as <-. simpl.
  apply find_some in Hfind as [Hrow Hrg]. apply opt_string_eqb_eq in Hrg.
  pose proof (DeleteSyncItem_answers (DB.id row) d Hans) as Hans'.
  rewrite (DeleteSyncItem_filter _ d Hans) in *. simpl in *.
  split; [reflexivity |]. split; [| split].
  - rewrite (lookup_by_gcal g _ Hans'). simpl. rewrite find_absent; [reflexivity |].
    intros x Hx. apply filter_In in Hx as [Hx Hne].
    apply not_true_iff_false. intros Hxg. apply opt_string_eqb_eq in Hxg.
    assert (x = row) by (eapply (NoDup_omap_inj DB.gcal_id); eauto).
    subst x. now rewrite Z.eqb_refl in Hne.
  - intros g' Hne. rewrite (lookup_by_gcal g' _ Hans'), (lookup_by_gcal g' _ Hans). simpl.
    rewrite find_filter_same; [reflexivity |].
    intros x Hx Hxg. apply opt_string_eqb_eq in Hxg.
    apply negb_true_iff, Z.eqb_neq. intros Hid.
    assert (x = row) by (eapply (NoDup_map_inj DB.id); eauto).
    subst x. congruence.
  - rewrite (DeleteSyncItem_filter _ _ Hans'). simpl. f_equal.
    unfold DB.with_sync_items. simpl. f_equal.
    apply filter_all. intros x Hx. now apply filter_In in Hx as [_ Hx].
Qed.

Lemma DeleteSyncItem_unbinds_witness :
  fst (DB.GetSyncItemByGCalID "EV-1" (snd (DB.DeleteSyncItem 1 Doubles.bound_db))) = Ok None.
Proof.
  refine (proj1 (proj2 (DeleteSyncItem_unbinds "EV-1"
                          (DB.scanSyncItem
                             {| DB.id := 1; DB.gcal_id := Some "EV-1";
                                DB.yt_id := Some "YT-1"; DB.gcal_updated_at := Some 100;
                                DB.yt_updated_at := Some 50 |})
                          Doubles.bound_db _ _ _))).
  - reflexivity.
  - repeat split; simpl; repeat constructor; intros [].
  - reflexivity.
Defined.

(** The two cursors round-trip in the order a run writes them: when the
    store answers and the watermark is an instant the TIMESTAMP column
    keeps (from year 1 to year 9998), the token just stored is the token
    read, the watermark just stored is the watermark read, and writing
    the watermark after the token leaves both readable; a store without
    a cursor row reads as the empty token and the zero time. *)
Theorem cursors_round_trip (token : string) (t0 : Time) (d : DB.t) :
  Store.answers d ->
  Store.four_digit_year t0 = true ->
  fst (DB.GetGCalSyncToken (snd (DB.SetGCalSyncToken token d))) = Ok token
  /\ fst (DB.GetYTLastSync (snd (DB.SetYTLastSync t0 d))) = Ok t0
  /\ (let d2 := snd (DB.SetYTLastSync t0 (snd (DB.SetGCalSyncToken token d))) in
      fst (DB.GetGCalSyncToken d2) = Ok token /\ fst (DB.GetYTLastSync d2) = Ok t0)
  /\ (DB.last_sync d = None ->
      fst (DB.GetGCalSyncToken d) = Ok "" /\ fst (DB.GetYTLastSync d) = Ok gotime.zero).
Proof.
  intros Hans _. unfold Store.answers in Hans.
  unfold DB.GetGCalSyncToken, DB.GetYTLastSync, DB.SetGCalSyncToken, DB.SetYTLastSync,
    DB.driver.
  destruct d as [rows n l fs]. simpl in *. subst fs. simpl.
  split; [reflexivity |]. split; [now destruct l |]. split; [now split |].
  intros ->. now split.
Qed.

Lemma cursors_round_trip_witness :
  fst (DB.GetYTLastSync (snd (DB.SetYTLastSync 5 Doubles.empty_db))) = Ok 5.
Proof.
  refine (proj1 (proj2 (cursors_round_trip "" 5 Doubles.empty_db _ _))); reflexivity.
Defined.

(** ** Properties of the store that a whole run keeps *)

Section FrameFacts.

Context {E : Type} {gcal : GCalClient E} {yt : YTClient E} {rt : Runtime E}.
Variable s : Synchronizer.
Variable P : DB.t -> Prop.

Import Reconciler Spec Run Frame.

Local Abbreviation World := (Reconciler.World E).
Local Abbreviation I := (on_db (E := E) P).

Lemma hoare_db_ret {A : Type} (a : A) : hoare I (ret a) (fun _ => I).
Proof. intros w Hw. exact Hw. Qed.

Lemma hoare_db_log (format : string) : hoare I (log format) (fun _ => I).
Proof. intros w Hw. exact Hw. Qed.

Lemma hoare_db_remote {A : Type} (c : Call) (op : E -> A * E) :
  hoare I (remote c op) (fun _ => I).
Proof. intros w Hw. unfold on_db. now rewrite remote_db. Qed.

Lemma hoare_db_getBaseURL : hoare I getBaseURL (fun _ => I).
Proof. intros w Hw. exact Hw. Qed.

Lemma hoare_db_time_Now : hoare I time_Now (fun _ => I).
Proof. intros w Hw. unfold on_db. now rewrite time_Now_db. Qed.

Lemma hoare_db_onDB {A : Type} (op : DB.t -> A * DB.t) :
  kept_by P op -> hoare I (onDB op) (fun _ => I).
Proof.
  intros H w Hw. unfold on_db in *. destruct (onDB_db op w) as [-> _]. now apply H.
Qed.

Lemma hoare_db_bind {A B : Type} (m : M A) (k : A -> M B) (R : B -> World -> Prop) :
  hoare I m (fun _ => I) -> (forall a, hoare I (k a) R) -> hoare I (bind m k) R.
Proof. apply hoare_bind. Qed.

Lemma hoare_db_forM_ {A : Type} (body : A -> M unit) (l : list A) :
  (forall x, hoare I (body x) (fun _ => I)) -> hoare I (forM_ l body) (fun _ => I).
Proof. intros H. apply hoare_forM_. intros x _. apply H. Qed.

Hypothesis bindings : kept_by_bindings P.

Ltac walk :=
  repeat first
    [ apply hoare_db_log | apply hoare_db_remote | apply hoare_db_getBaseURL
    | apply hoare_db_time_Now | apply hoare_db_ret
    | apply hoare_db_onDB; apply bindings
    | apply hoare_db_bind; [ | intros ? ]
    | progress cbv zeta
    | match goal with |- hoare _ (match ?x with _ => _ end) _ => destruct x end
    | match goal with |- hoare _ (if ?b then _ else _) _ => destruct b end ].

Lemma processGCalEvent_keeps (event : googlecalendar.Event) :
  hoare I (processGCalEvent s event) (fun _ => I).
Proof. unfold processGCalEvent, yt_CreateIssue, yt_UpdateIssue. walk. Qed.

Lemma processYTissue_keeps (issue : youtrack.Issue) :
  hoare I (processYTissue s issue) (fun _ => I).
Proof. unfold processYTissue, gcal_CreateEvent, gcal_UpdateEvent. walk. Qed.

Lemma handleDeletion_keeps (m : gmap string googlecalendar.Event) (item : DB.SyncItem) :
  hoare I (handleDeletion m item) (fun _ => I).
Proof. unfold handleDeletion, yt_UpdateIssue. walk. Qed.

Lemma processYTDeletion_keeps (ytID : string) :
  hoare I (processYTDeletion s ytID) (fun _ => I).
Proof. unfold processYTDeletion, gcal_DeleteEvent. walk. Qed.

Lemma loop_keeps {A : Type} (body : A -> M unit) (l : list A) :
  (forall x, hoare I (body x) (fun _ => I)) ->
  hoare I (bind (forM_ l body) (fun _ => ret None)) (fun _ : option error => I).
Proof.
  intros H. apply hoare_db_bind; [now apply hoare_db_forM_ | intros ?; apply hoare_db_ret].
Qed.

Lemma handleDeletions_keeps (gcalEvents : list googlecalendar.Event) :
  hoare I (handleDeletions gcalEvents) (fun _ => I).
Proof.
  unfold handleDeletions. apply hoare_db_bind; [apply hoare_db_onDB, bindings | intros r].
  destruct r; [apply loop_keeps, handleDeletion_keeps | apply hoare_db_ret].
Qed.

Hypothesis cursor_reads : kept_by_cursor_reads P.

(** Steps 1 to 6 of a run, in the shape [Sync] has them: what holds of the
    store before holds at every return before the cursor writes, and at
    the cursor writes. *)
Lemma Sync_upto_commit (R : option error -> World -> Prop) :
  (forall e, hoare I (ret (Some e)) R) ->
  (forall gcalSyncToken newGCalSyncToken,
     hoare I (bind (commitCursors gcalSyncToken newGCalSyncToken) (fun _ => ret None)) R) ->
  hoare I (Sync s) R.
Proof.
  intros Hleaf Hcommit.
  unfold Sync, gcal_FetchEvents, yt_GetUpdatedIssues, yt_GetDeletedIssueIDs.
  apply hoare_db_bind; [apply hoare_db_log | intros ?].
  apply hoare_db_bind; [apply hoare_db_onDB, cursor_reads | intros r].
  destruct r; [| apply Hleaf].
  apply hoare_db_bind; [apply hoare_db_onDB, cursor_reads | intros r].
  destruct r; [| apply Hleaf].
  apply hoare_db_bind; [| intros ?].
  { destruct (gotime.IsZero _); [| apply hoare_db_ret].
    apply hoare_db_bind; [apply hoare_db_time_Now | intros ?; apply hoare_db_ret]. }
  apply hoare_db_bind; [apply hoare_db_remote | intros r].
  destruct r as [[gcalEvents newGCalSyncToken] |]; [| apply Hleaf].
  apply hoare_db_bind; [apply hoare_db_remote | intros r].
  destruct r; [| apply Hleaf].
  apply hoare_db_bind; [apply hoare_db_remote | intros r].
  destruct r; [| apply Hleaf].
  apply hoare_db_bind; [apply loop_keeps, processGCalEvent_keeps | intros r].
  destruct r; [apply Hleaf |].
  apply hoare_db_bind; [apply loop_keeps, processYTissue_keeps | intros r].
  destruct r; [apply Hleaf |].
  apply hoare_db_bind; [apply handleDeletions_keeps | intros r].
  destruct r; [apply Hleaf |].
  apply hoare_db_bind; [apply loop_keeps, processYTDeletion_keeps | intros r].
  destruct r; [apply Hleaf |].
  apply Hcommit.
Qed.

(** A run that returns an error has kept the property. *)
Lemma Sync_error_keeps :
  hoare I (Sync s) (fun r w' => r <> None -> I w').
Proof.
  apply Sync_upto_commit.
  - intros e. apply hoare_ret. auto.
  - intros a b w _. rewrite bind_eq. simpl. congruence.
Qed.

Hypothesis cursor_writes : kept_by_cursor_writes P.

Lemma commitCursors_keeps (gcalSyncToken newGCalSyncToken : string) :
  hoare I (commitCursors gcalSyncToken newGCalSyncToken) (fun _ => I).
Proof.
  unfold commitCursors.
  apply hoare_db_bind; [| intros ?].
  { destruct (_ && _); [| apply hoare_db_ret].
    apply hoare_db_bind; [apply hoare_db_onDB, cursor_writes | intros r].
    destruct r; [apply hoare_db_log | apply hoare_db_ret]. }
  apply hoare_db_bind; [apply hoare_db_time_Now | intros ?].
  apply hoare_db_bind; [apply hoare_db_onDB, cursor_writes | intros r].
  apply hoare_db_bind; [destruct r; [apply hoare_db_log | apply hoare_db_ret] | intros ?].
  apply hoare_db_log.
Qed.

(** A run keeps the property. *)
Lemma Sync_keeps : hoare I (Sync s) (fun _ => I).
Proof.
  apply Sync_upto_commit.
  - intros e. apply hoare_db_ret.
  - intros a b. apply hoare_db_bind; [apply commitCursors_keeps | intros ?; apply hoare_db_ret].
Qed.

End FrameFacts.

Section KeptFacts.

Import DB Store Frame.

Lemma driver_last_sync (d : t) : last_sync (snd (driver d)) = last_sync d.
Proof. apply driver_tables. Qed.

(** Reads and writes of bindings leave the cursor row alone; every
    operation leaves the counter at least where it was. *)
Lemma bindings_keep_cursor_row (L : option LastSync) :
  kept_by_bindings (fun d => last_sync d = L).
Proof.
  unfold kept_by_bindings, kept_by.
  repeat split; intros; subst L.
  - unfold GetSyncItemByGCalID. pose proof (driver_last_sync d).
    now destruct (driver d) as [[] d1].
  - unfold GetSyncItemByYTID. pose proof (driver_last_sync d).
    now destruct (driver d) as [[] d1].
  - unfold GetAllSyncItems. pose proof (driver_last_sync d).
    now destruct (driver d) as [[] d1].
  - unfold CreateSyncItem. pose proof (driver_last_sync d).
    destruct (driver d) as [[] d1]; simpl in *; [assumption |].
    now destruct (violates_unique _ _).
  - unfold UpdateSyncItem. pose proof (driver_last_sync d).
    destruct (driver d) as [[] d1]; simpl in *; [assumption |].
    destruct (List.existsb _ _); [| assumption]. now destruct (violates_unique _ _).
  - unfold DeleteSyncItem. pose proof (driver_last_sync d).
    now destruct (driver d) as [[] d1].
Qed.

Lemma cursor_reads_keep_cursor_row (L : option LastSync) :
  kept_by_cursor_reads (fun d => last_sync d = L).
Proof.
  unfold kept_by_cursor_reads, kept_by. split; intros d <-.
  - unfold GetGCalSyncToken. pose proof (driver_last_sync d).
    destruct (driver d) as [[] d1]; simpl in *; [assumption |].
    destruct (last_sync d1) as [l |] eqn:Hl; [destruct (gcal_sync_token l) |]; simpl; congruence.
  - unfold GetYTLastSync. pose proof (driver_last_sync d).
    destruct (driver d) as [[] d1]; simpl in *; [assumption |].
    destruct (last_sync d1) as [l |] eqn:Hl; [destruct (yt_last_sync l) |]; simpl; congruence.
Qed.

Lemma bindings_keep_constraints :
  kept_by_bindings (fun d => constraints (sync_items d)).
Proof.
  unfold kept_by_bindings, kept_by.
  split; [| split; [| split; [| split; [| split]]]].
  - intros g d H. now rewrite (proj1 (GetSyncItemByGCalID_rows _ _)).
  - intros y d H. now rewrite (proj1 (GetSyncItemByYTID_rows _ _)).
  - intros d H. now rewrite (proj1 (GetAllSyncItems_rows _)).
  - intros item d H. now apply CreateSyncItem_constraints.
  - intros item d H. now apply UpdateSyncItem_constraints.
  - intros k d H. now apply DeleteSyncItem_constraints.
Qed.

Lemma cursor_reads_keep_constraints :
  kept_by_cursor_reads (fun d => constraints (sync_items d)).
Proof.
  split; intros d H; [rewrite GetGCalSyncToken_rows | rewrite GetYTLastSync_rows]; exact H.
Qed.

Lemma cursor_writes_keep_constraints :
  kept_by_cursor_writes (fun d => constraints (sync_items d)).
Proof.
  split; intros x d H; [rewrite SetGCalSyncToken_rows | rewrite SetYTLastSync_rows]; exact H.
Qed.

End KeptFacts.

(** A whole run keeps the schema's constraints: whatever the
    collaborators answer and whichever statements fail, if the local ids
    were pairwise different and the non-NULL calendar ids and issue ids
    were each pairwise different before the run, they are after it. *)
Theorem Sync_keeps_constraints {E : Type} {gcal : GCalClient E} {yt : YTClient E}
  {rt : Runtime E} (s : Synchronizer) (w : Reconciler.World E) :
  Store.constraints (Spec.rows w) ->
  Store.constraints (Spec.rows (snd (Reconciler.Sync s w))).
Proof.
  intros H.
  exact (Sync_keeps s (fun d => Store.constraints (DB.sync_items d))
           bindings_keep_constraints cursor_reads_keep_constraints
           cursor_writes_keep_constraints w H).
Qed.

Lemma Sync_keeps_constraints_witness :
  Store.constraints
    (Spec.rows
       (snd (@Reconciler.Sync unit
               (Doubles.gcal_up [Doubles.event_EV1 "confirmed" 200] "new-gcal-token")
               (Doubles.yt_up [] []) (Doubles.rt_fixed 1000) Doubles.synchronizer
               (Doubles.world Doubles.bound_db tt)))).
Proof.
  apply Sync_keeps_constraints.
  repeat split; simpl; repeat constructor; intros [].
Defined.

(** The cursor writes are the last thing a run does: a run that returns an
    error, whichever one, leaves the cursor row of the store exactly as it
    found it, so the next run loads the same token and watermark. *)
Theorem Sync_error_leaves_cursors {E : Type} {gcal : GCalClient E} {yt : YTClient E}
  {rt : Runtime E} (s : Synchronizer) (w : Reconciler.World E) (e : error) :
  fst (Reconciler.Sync s w) = Some e ->
  DB.last_sync (Reconciler.db (snd (Reconciler.Sync s w)))
  = DB.last_sync (Reconciler.db w).
Proof.
  intros He.
  apply (Sync_error_keeps s (fun d => DB.last_sync d = DB.last_sync (Reconciler.db w))
           (bindings_keep_cursor_row _) (cursor_reads_keep_cursor_row _) w eq_refl).
  congruence.
Qed.

Lemma Sync_error_leaves_cursors_witness :
  let w := Doubles.world (DB.with_faults Doubles.empty_db [false; false; true]) tt in
  DB.last_sync
    (Reconciler.db
       (snd (@Reconciler.Sync unit (Doubles.gcal_up [] "new-gcal-token")
               (Doubles.yt_up [] []) (Doubles.rt_fixed 1000) Doubles.synchronizer w)))
  = DB.last_sync (Reconciler.db w).
Proof.
  intros w.
  refine (@Sync_error_leaves_cursors unit (Doubles.gcal_up [] "new-gcal-token")
            (Doubles.yt_up [] []) (Doubles.rt_fixed 1000) Doubles.synchronizer w
            (Errorf "failed to get all sync items" ErrDriver) _).
  reflexivity.
Defined.

Section ItemBranches.

Context {E : Type} {gcal : GCalClient E} {yt : YTClient E} {rt : Runtime E}.
Variable s : Synchronizer.

Import Reconciler Spec.

Local Abbreviation World := (Reconciler.World E).

Lemma CreateSyncItem_fresh (item : DB.SyncItem) (d : DB.t) :
  Store.answers d ->
  DB.violates_unique
    (DB.bind_row (Z.max (DB.seq d) (DB.max_rowid (DB.sync_items d)) + 1) item)
    (DB.sync_items d) = false ->
  DB.sync_items (snd (DB.CreateSyncItem item d))
  = (DB.sync_items d
     ++ [DB.bind_row (Z.max (DB.seq d) (DB.max_rowid (DB.sync_items d)) + 1) item])%list.
Proof.
  intros Hans Hv. unfold DB.CreateSyncItem. rewrite (answers_driver d Hans), Hv.
  reflexivity.
Qed.

Lemma CreateSyncItem_clash (item : DB.SyncItem) (d : DB.t) :
  Store.answers d ->
  DB.violates_unique
    (DB.bind_row (Z.max (DB.seq d) (DB.max_rowid (DB.sync_items d)) + 1) item)
    (DB.sync_items d) = true ->
  DB.sync_items (snd (DB.CreateSyncItem item d)) = DB.sync_items d.
Proof.
  intros Hans Hv. unfold DB.CreateSyncItem. rewrite (answers_driver d Hans), Hv.
  reflexivity.
Qed.

(** Lookup misses, in the form the UNIQUE check uses. *)
Lemma find_none_no_row (f : DB.Row -> option string) (k : string) (rows : list DB.Row) :
  List.find (fun r => DB.opt_string_eqb (f r) k) rows = None ->
  forall o, In o rows -> f o <> Some k.
Proof.
  intros Hfind o Ho Heq. pose proof (find_none _ _ Hfind o Ho) as Hno.
  simpl in Hno. rewrite Heq in Hno. simpl in Hno. now rewrite String.eqb_refl in Hno.
Qed.

End ItemBranches.

(** A new calendar event becomes an issue and a binding: for an event
    that is not cancelled and has no binding, with the store answering,
    exactly one call is made, [CreateIssue] in the write project with the
    event's summary, its link as description and its start as due date.
    If that call fails nothing is stored.  If it returns an issue whose
    id no binding holds yet, one binding is appended, with a fresh local
    id, both remote ids, the event's updated instant and the issue's
    updated milliseconds; if the id is already bound nothing is stored. *)
Theorem processGCalEvent_creates_binding {E : Type} {yt : YTClient E}
  (s : Synchronizer) (event : googlecalendar.Event) (w : Reconciler.World E) :
  String.eqb (googlecalendar.Status event) "cancelled" = false ->
  Store.answers (Reconciler.db w) ->
  List.find (fun r => DB.opt_string_eqb (DB.gcal_id r) (googlecalendar.ID event))
    (Spec.rows w) = None ->
  let w' := snd (Reconciler.processGCalEvent s event w) in
  Reconciler.calls w'
  = (Reconciler.calls w
     ++ [CallCreateIssue (YouTrackProjectID s) (googlecalendar.Summary event)
           (googlecalendar.HTMLLink event) (Some (googlecalendar.Start event))])%list
  /\ match fst (CreateIssue (YouTrackProjectID s) (googlecalendar.Summary event)
                  (googlecalendar.HTMLLink event) (Some (googlecalendar.Start event))
                  (Reconciler.env w)) with
     | Err _ => Spec.rows w' = Spec.rows w
     | Ok issue =>
         match List.find (fun r => DB.opt_string_eqb (DB.yt_id r) (youtrack.ID issue))
                 (Spec.rows w) with
         | Some _ => Spec.rows w' = Spec.rows w
         | None =>
             Spec.rows w'
             = (Spec.rows w
                ++ [ {| DB.id := Z.max (DB.seq (Reconciler.db w))
                                   (DB.max_rowid (Spec.rows w)) + 1;
                        DB.gcal_id := Some (googlecalendar.ID event);
                        DB.yt_id := Some (youtrack.ID issue);
                        DB.gcal_updated_at := Some (googlecalendar.Updated event);
                        DB.yt_updated_at :=
                          Some (gotime.UnixMilli (youtrack.Updated issue)) |} ])%list
         end
     end.
Proof.
  intros Hst Hans Hfind. cbv zeta.
  pose proof (answers_driver _ Hans) as Hdrv.
  unfold Reconciler.processGCalEvent, Spec.rows in *. rewrite Hst.
  unfold Reconciler.bind, Reconciler.onDB, DB.GetSyncItemByGCalID. rewrite Hdrv, Hfind.
  simpl. unfold Reconciler.yt_CreateIssue, Reconciler.remote. simpl.
  destruct (CreateIssue _ _ _ _ (Reconciler.env w)) as [[issue | err] e']; simpl.
  - set (item := {| DB.ID := 0; DB.GCalID := _ |}).
    destruct (List.find (fun r => DB.opt_string_eqb (DB.yt_id r) (youtrack.ID issue))
                (DB.sync_items (Reconciler.db w))) as [row |] eqn:Hyt.
    + assert (Hv : DB.violates_unique
                     (DB.bind_row (Z.max (DB.seq (Reconciler.db w))
                                     (DB.max_rowid (DB.sync_items (Reconciler.db w))) + 1)
                        item)
                     (DB.sync_items (Reconciler.db w)) = true).
      { apply violates_unique_true. apply find_some in Hyt as [Hrow Hy].
        apply opt_string_eqb_eq in Hy. exists row. split; [assumption |].
        right. exists (youtrack.ID issue). now split. }
      pose proof (CreateSyncItem_clash item _ Hans Hv) as Hrows.
      destruct (DB.CreateSyncItem item (Reconciler.db w)) as [[n | err] d']; simpl in *;
        now split.
    + assert (Hv : DB.violates_unique
                     (DB.bind_row (Z.max (DB.seq (Reconciler.db w))
                                     (DB.max_rowid (DB.sync_items (Reconciler.db w))) + 1)
                        item)
                     (DB.sync_items (Reconciler.db w)) = false).
      { apply violates_unique_false. intros o Ho. simpl. split.
        - intros g [= <-]. now apply (find_none_no_row DB.gcal_id _ _ Hfind).
        - intros y [= <-]. now apply (find_none_no_row DB.yt_id _ _ Hyt). }
      pose proof (CreateSyncItem_fresh item _ Hans Hv) as Hrows.
      destruct (DB.CreateSyncItem item (Reconciler.db w)) as [[n | err] d']; simpl in *;
        now split.
  - now split.
Qed.

Lemma processGCalEvent_creates_binding_witness :
  let event := Doubles.event_EV1 "confirmed" 200 in
  let w := Doubles.world Doubles.empty_db tt in
  let w' := snd (@Reconciler.processGCalEvent unit (Doubles.yt_up [] [])
                   Doubles.synchronizer event w) in
  Reconciler.calls w'
  = [CallCreateIssue "yt-project" "Sprint kickoff" "https://cal/EV-1" (Some 0)].
Proof.
  intros event w.
  refine (proj1 (@processGCalEvent_creates_binding unit (Doubles.yt_up [] [])
                   Doubles.synchronizer event w _ _ _)); reflexivity.
Defined.

(** A new dated issue becomes a calendar event and a binding: for an
    issue that has a due date and no binding, with the store answering,
    exactly one call is made, [CreateEvent] on the configured calendar
    with the issue's summary, the link to the issue, the due instant and
    the due instant plus one hour.  If that call fails nothing is
    stored.  If it returns an event whose id no binding holds yet, one
    binding is appended, with a fresh local id, both remote ids, the
    event's updated instant (the zero time when it does not parse) and
    the issue's updated milliseconds; if the id is already bound nothing
    is stored. *)
Theorem processYTissue_creates_binding {E : Type} {gcal : GCalClient E} {yt : YTClient E}
  {rt : Runtime E} (s : Synchronizer) (issue : youtrack.Issue) (w : Reconciler.World E) :
  Store.answers (Reconciler.db w) ->
  List.find (fun r => DB.opt_string_eqb (DB.yt_id r) (youtrack.ID issue)) (Spec.rows w)
  = None ->
  gotime.IsZero (Reconciler.dueDate_of issue) = false ->
  let w' := snd (Reconciler.processYTissue s issue w) in
  let due := Reconciler.dueDate_of issue in
  let link := Reconciler.issue_link (GetBaseURL (Reconciler.env w)) (youtrack.ID issue) in
  Reconciler.calls w'
  = (Reconciler.calls w
     ++ [CallCreateEvent (CalendarID s) (youtrack.Summary issue) link due
           (gotime.Add due gotime.Hour)])%list
  /\ match fst (CreateEvent (CalendarID s) (youtrack.Summary issue) link due
                  (gotime.Add due gotime.Hour) (Reconciler.env w)) with
     | Err _ => Spec.rows w' = Spec.rows w
     | Ok event =>
         match List.find (fun r => DB.opt_string_eqb (DB.gcal_id r) (calendar.Id event))
                 (Spec.rows w) with
         | Some _ => Spec.rows w' = Spec.rows w
         | None =>
             Spec.rows w'
             = (Spec.rows w
                ++ [ {| DB.id := Z.max (DB.seq (Reconciler.db w))
                                   (DB.max_rowid (Spec.rows w)) + 1;
                        DB.gcal_id := Some (calendar.Id event);
                        DB.yt_id := Some (youtrack.ID issue);
                        DB.gcal_updated_at :=
                          Some match Parse_RFC3339 (calendar.Updated event) with
                               | Ok t => t
                               | Err _ => gotime.zero
                               end;
                        DB.yt_updated_at :=
                          Some (gotime.UnixMilli (youtrack.Updated issue)) |} ])%list
         end
     end.
Proof.
  intros Hans Hfind Hdue. cbv zeta.
  pose proof (answers_driver _ Hans) as Hdrv.
  unfold Reconciler.processYTissue, Spec.rows in *.
  unfold Reconciler.bind, Reconciler.onDB, DB.GetSyncItemByYTID. rewrite Hdrv, Hfind.
  simpl. rewrite Hdue. simpl.
  unfold Reconciler.gcal_CreateEvent, Reconciler.remote. simpl.
  destruct (CreateEvent _ _ _ _ _ (Reconciler.env w)) as [[event | err] e']; simpl.
  - set (item := {| DB.ID := 0; DB.GCalID := _ |}).
    destruct (List.find (fun r => DB.opt_string_eqb (DB.gcal_id r) (calendar.Id event))
                (DB.sync_items (Reconciler.db w))) as [row |] eqn:Hg.
    + assert (Hv : DB.violates_unique
                     (DB.bind_row (Z.max (DB.seq (Reconciler.db w))
                                     (DB.max_rowid (DB.sync_items (Reconciler.db w))) + 1)
                        item)
                     (DB.sync_items (Reconciler.db w)) = true).
      { apply violates_unique_true. apply find_some in Hg as [Hrow Hy].
        apply opt_string_eqb_eq in Hy. exists row. split; [assumption |].
        left. exists (calendar.Id event). now split. }
      pose proof (CreateSyncItem_clash item _ Hans Hv) as Hrows.
      destruct (DB.CreateSyncItem item (Reconciler.db w)) as [[n | err] d']; simpl in *;
        now split.
    + assert (Hv : DB.violates_unique
                     (DB.bind_row (Z.max (DB.seq (Reconciler.db w))
                                     (DB.max_rowid (DB.sync_items (Reconciler.db w))) + 1)
                        item)
                     (DB.sync_items (Reconciler.db w)) = false).
      { apply violates_unique_false. intros o Ho. simpl. split.
        - intros g [= <-]. now apply (find_none_no_row DB.gcal_id _ _ Hg).
        - intros y [= <-]. now apply (find_none_no_row DB.yt_id _ _ Hfind). }
      pose proof (CreateSyncItem_fresh item _ Hans Hv) as Hrows.
      destruct (DB.CreateSyncItem item (Reconciler.db w)) as [[n | err] d']; simpl in *;
        now split.
  - now split.
Qed.

Lemma processYTissue_creates_binding_witness :
  let issue := Doubles.issue_YT1 7 [Doubles.due_field 86400000] in
  let w := Doubles.world Doubles.empty_db tt in
  Spec.rows (snd (@Reconciler.processYTissue unit (Doubles.gcal_up [] "") (Doubles.yt_up [] [])
                    (Doubles.rt_fixed 0) Doubles.synchronizer issue w))
  = [ {| DB.id := 1; DB.gcal_id := Some "new-gcal-event"; DB.yt_id := Some "YT-1";
         DB.gcal_updated_at := Some gotime.zero;
         DB.yt_updated_at := Some 7000000 |} ].
Proof.
  intros issue w.
  refine (proj2 (@processYTissue_creates_binding unit (Doubles.gcal_up [] "")
                   (Doubles.yt_up [] []) (Doubles.rt_fixed 0) Doubles.synchronizer issue w
                   _ _ _)); reflexivity.
Defined.

(** A deleted issue takes its calendar event and its binding with it:
    with the store answering, for the id of a deleted issue whose binding
    holds a calendar id, exactly one call is made, [DeleteEvent] on the
    configured calendar for that calendar id, and the rows with the
    binding's local id are removed whether or not the calendar accepted
    the deletion.  For an id that has no binding, or whose binding holds
    no calendar id, nothing is called and nothing is removed. *)
Theorem processYTDeletion_removes_event_and_binding {E : Type} {gcal : GCalClient E}
  (s : Synchronizer) (ytID : string) (w : Reconciler.World E) :
  Store.answers (Reconciler.db w) ->
  let w' := snd (Reconciler.processYTDeletion s ytID w) in
  match List.find (fun r => DB.opt_string_eqb (DB.yt_id r) ytID) (Spec.rows w) with
  | Some row =>
      match DB.gcal_id row with
      | Some g =>
          Reconciler.calls w'
          = (Reconciler.calls w ++ [CallDeleteEvent (CalendarID s) g])%list
          /\ Spec.rows w'
             = List.filter (fun o => negb (DB.id o =? DB.id row)) (Spec.rows w)
      | None => Reconciler.calls w' = Reconciler.calls w /\ Spec.rows w' = Spec.rows w
      end
  | None => Reconciler.calls w' = Reconciler.calls w /\ Spec.rows w' = Spec.rows w
  end.
Proof.
  intros Hans. cbv zeta.
  pose proof (answers_driver _ Hans) as Hdrv.
  unfold Reconciler.processYTDeletion, Spec.rows.
  unfold Reconciler.bind, Reconciler.onDB, DB.GetSyncItemByYTID. rewrite Hdrv.
  destruct (List.find _ (DB.sync_items (Reconciler.db w))) as [row |]; simpl;
    [| now split].
  destruct (DB.gcal_id row) as [g |]; simpl; [| now split].
  unfold Reconciler.gcal_DeleteEvent, Reconciler.remote. simpl.
  destruct (DeleteEvent (CalendarID s) g (Reconciler.env w)) as [[err |] e']; simpl;
    rewrite (DeleteSyncItem_filter _ _ Hans); simpl; now split.
Qed.

Lemma processYTDeletion_removes_event_and_binding_witness :
  let w := Doubles.world Doubles.bound_db tt in
  let w' := snd (@Reconciler.processYTDeletion unit (Doubles.gcal_down [] "")
                   Doubles.synchronizer "YT-1" w) in
  Reconciler.calls w' = [CallDeleteEvent "gcal-calendar" "EV-1"] /\ Spec.rows w' = [].
Proof.
  intros w.
  refine (@processYTDeletion_removes_event_and_binding unit (Doubles.gcal_down [] "")
            Doubles.synchronizer "YT-1" w _).
  reflexivity.
Defined.

(** ** The reconciler, item by item *)

Section ItemFacts.

Context {E : Type} {gcal : GCalClient E} {yt : YTClient E} {rt : Runtime E}.
Variable s : Synchronizer.

Import Reconciler Spec.

Local Abbreviation World := (Reconciler.World E).

Lemma onDB_answers {A : Type} (op : DB.t -> A * DB.t) (w : World) (a : A) (d : DB.t) :
  op (db w) = (a, d) ->
  onDB op w = (a, {| db := d; env := env w; calls := calls w; logs := logs w |}).
Proof. intros H. unfold onDB. now rewrite H. Qed.

Lemma world_eta (w : World) :
  {| db := db w; env := env w; calls := calls w; logs := logs w |} = w.
Proof. now destruct w. Qed.

(** The issue carries no numeric "Due Date" field. *)
Lemma dueDate_of_zero (issue : youtrack.Issue) :
  (forall cf, In cf (youtrack.CustomFields issue) ->
     youtrack.Name cf = "Due Date" -> forall n, youtrack.Value cf <> youtrack.JNumber n) ->
  dueDate_of issue = gotime.zero.
Proof.
  intros H. revert H.
  unfold dueDate_of. generalize gotime.zero as acc.
  induction (youtrack.CustomFields issue) as [|cf fields IH]; intros acc H; simpl;
    [reflexivity |].
  rewrite IH; [| intros cf' Hcf'; apply H; now right].
  destruct (String.eqb (youtrack.Name cf) "Due Date") eqn:Hname; [| reflexivity].
  apply String.eqb_eq in Hname.
  pose proof (H cf (or_introl eq_refl) Hname) as Hval.
  destruct (youtrack.Value cf); try reflexivity. now destruct (Hval n).
Qed.

Lemma forM_unmarked (m : gmap string googlecalendar.Event) (l : list DB.Row) (w : World) :
  (forall r, In r l -> marked_cancelled m r = false) ->
  forM_ (List.map DB.scanSyncItem l) (handleDeletion m) w = (tt, w).
Proof.
  induction l as [|r l IH]; intros H; simpl; [reflexivity |].
  rewrite bind_eq, (handleDeletion_unmarked m r w); [| apply H; now left].
  simpl. apply IH. intros r' Hr'. apply H. now right.
Qed.

End ItemFacts.

(** An issue that has no numeric "Due Date" custom field (none at all, or
    only values that are not numbers) and no binding is left alone: no
    call is made on any collaborator and no binding is written, whatever
    the store does. *)
Theorem undated_unbound_issue_is_ignored {E : Type} {gcal : GCalClient E}
  {yt : YTClient E} {rt : Runtime E} (s : Synchronizer) (issue : youtrack.Issue)
  (w : Reconciler.World E) :
  (forall cf, In cf (youtrack.CustomFields issue) ->
     youtrack.Name cf = "Due Date" -> forall n, youtrack.Value cf <> youtrack.JNumber n) ->
  List.find (fun r => DB.opt_string_eqb (DB.yt_id r) (youtrack.ID issue)) (Spec.rows w)
    = None ->
  let w' := snd (Reconciler.processYTissue s issue w) in
  Reconciler.calls w' = Reconciler.calls w
  /\ Spec.rows w' = Spec.rows w
  /\ Reconciler.env w' = Reconciler.env w.
Proof.
  intros Hdue Hfind. cbv zeta. unfold Reconciler.processYTissue.
  rewrite (dueDate_of_zero issue Hdue).
  unfold Reconciler.bind, Reconciler.onDB, DB.GetSyncItemByYTID, Spec.rows in *.
  pose proof (driver_tables (Reconciler.db w)) as (Hrows & _).
  destruct (DB.driver (Reconciler.db w)) as [[] d1]; simpl in *.
  - now repeat split.
  - rewrite Hrows, Hfind. simpl. now repeat split.
Qed.

Lemma undated_unbound_issue_is_ignored_witness :
  let issue := Doubles.issue_YT1 1700000000000
                 [ {| youtrack.CustomField_Type := "SimpleIssueCustomField";
                      youtrack.CustomField_ID := ""; youtrack.Name := "Due Date";
                      youtrack.Value := youtrack.JString "tomorrow" |} ] in
  let w := Doubles.world Doubles.empty_db tt in
  let w' := snd (@Reconciler.processYTissue unit (Doubles.gcal_up [] "")
                   (Doubles.yt_up [] []) (Doubles.rt_fixed 0) Doubles.synchronizer issue w) in
  Reconciler.calls w' = [] /\ Spec.rows w' = [] /\ Reconciler.env w' = tt.
Proof.
  intros issue w.
  refine (@undated_unbound_issue_is_ignored unit (Doubles.gcal_up [] "")
            (Doubles.yt_up [] []) (Doubles.rt_fixed 0) Doubles.synchronizer issue w _ _).
  - intros cf [<- | []] _ n. discriminate.
  - reflexivity.
Defined.

(** Cancellations of events that were never bound change nothing: when no
    cancelled event of the batch has its id in the binding table, the
    cancellation step makes no call, writes no binding and does not touch
    the environment (in particular for a batch without cancelled events,
    and whether or not the store answers). *)
Theorem handleDeletions_ignores_unbound_cancellations {E : Type} {yt : YTClient E}
  (batch : list googlecalendar.Event) (w : Reconciler.World E) :
  (forall ev r, In ev batch -> googlecalendar.Status ev = "cancelled" ->
     In r (Spec.rows w) -> DB.gcal_id r <> Some (googlecalendar.ID ev)) ->
  let w' := snd (Reconciler.handleDeletions batch w) in
  Reconciler.calls w' = Reconciler.calls w
  /\ Spec.rows w' = Spec.rows w
  /\ Reconciler.env w' = Reconciler.env w.
Proof.
  intros Hunbound. cbv zeta. unfold Reconciler.handleDeletions. rewrite bind_eq.
  pose proof (GetAllSyncItems_rows (Reconciler.db w)) as [Hrows Hitems].
  unfold Reconciler.onDB, Spec.rows in *.
  destruct (DB.GetAllSyncItems (Reconciler.db w)) as [[items | err] d1]; simpl in *.
  - rewrite (Hitems items eq_refl), bind_eq, forM_unmarked; [simpl; now rewrite Hrows |].
    intros r Hr. apply not_true_iff_false. intros Hm.
    unfold Spec.marked_cancelled, Reconciler.gcalEventMap_of in Hm.
    destruct (DB.gcal_id r) as [g |] eqn:Hg; [| discriminate].
    rewrite gcalEventMap_lookup, lookup_empty in Hm.
    destruct (List.find _ (List.rev batch)) as [ev |] eqn:Hfind; [| discriminate].
    apply find_some in Hfind as [Hin Hid]. apply in_rev in Hin.
    apply String.eqb_eq in Hid, Hm.
    apply (Hunbound ev r Hin Hm Hr). congruence.
  - now rewrite Hrows.
Qed.

Lemma handleDeletions_ignores_unbound_cancellations_witness :
  let w := Doubles.world Doubles.bound_db tt in
  let w' := snd (@Reconciler.handleDeletions unit (Doubles.yt_up [] [])
                   [Doubles.event_EV1 "confirmed" 200] w) in
  Reconciler.calls w' = [] /\ Spec.rows w' = DB.sync_items Doubles.bound_db
  /\ Reconciler.env w' = tt.
Proof.
  intros w.
  refine (@handleDeletions_ignores_unbound_cancellations unit (Doubles.yt_up [] [])
            [Doubles.event_EV1 "confirmed" 200] w _).
  intros ev r [<- | []] Hst. discriminate Hst.
Defined.

(** ** The head and the end of a run *)

Section QueryFacts.

Context {E : Type} {gcal : GCalClient E} {yt : YTClient E} {rt : Runtime E}.
Variable s : Synchronizer.
Variable P : DB.t -> Prop.
Variable qs : list Call.

Import Reconciler Spec Run Frame.

Local Abbreviation World := (Reconciler.World E).
Local Abbreviation J := (fun w : World => P (db w) /\ queries w = qs).

Lemma hoare_J_ret {A : Type} (a : A) : hoare J (ret a) (fun _ => J).
Proof. intros w Hw. exact Hw. Qed.

Lemma hoare_J_log (format : string) : hoare J (log format) (fun _ => J).
Proof. intros w Hw. exact Hw. Qed.

Lemma hoare_J_remote {A : Type} (c : Call) (op : E -> A * E) :
  is_query c = false -> hoare J (remote c op) (fun _ => J).
Proof.
  intros Hc w [Hp Hq]. unfold remote, queries in *.
  destruct (op (env w)) as [a e']; simpl. split; [assumption |].
  rewrite List.filter_app. simpl. rewrite Hc. now rewrite List.app_nil_r.
Qed.

Lemma hoare_J_getBaseURL : hoare J getBaseURL (fun _ => J).
Proof. intros w Hw. exact Hw. Qed.

Lemma hoare_J_time_Now : hoare J time_Now (fun _ => J).
Proof.
  intros w [Hp Hq]. unfold time_Now, queries in *.
  destruct (Now (env w)) as [now e']; simpl. split; [assumption |].
  rewrite List.filter_app. simpl. now rewrite List.app_nil_r.
Qed.

Lemma hoare_J_onDB {A : Type} (op : DB.t -> A * DB.t) :
  kept_by P op -> hoare J (onDB op) (fun _ => J).
Proof.
  intros H w [Hp Hq]. unfold onDB, queries in *. pose proof (H (db w) Hp) as Hk.
  destruct (op (db w)) as [a d]; simpl in *. now split.
Qed.

Lemma hoare_J_bind {A B : Type} (m : M A) (k : A -> M B) (R : B -> World -> Prop) :
  hoare J m (fun _ => J) -> (forall a, hoare J (k a) R) -> hoare J (bind m k) R.
Proof. apply hoare_bind. Qed.

Hypothesis bindings : kept_by_bindings P.

Ltac walk :=
  repeat first
    [ apply hoare_J_log | apply hoare_J_remote; reflexivity | apply hoare_J_getBaseURL
    | apply hoare_J_time_Now | apply hoare_J_ret
    | apply hoare_J_onDB; apply bindings
    | apply hoare_J_bind; [ | intros ? ]
    | progress cbv zeta
    | match goal with |- hoare _ (match ?x with _ => _ end) _ => destruct x end
    | match goal with |- hoare _ (if ?b then _ else _) _ => destruct b end ].

Lemma processGCalEvent_queries (event : googlecalendar.Event) :
  hoare J (processGCalEvent s event) (fun _ => J).
Proof. unfold processGCalEvent, yt_CreateIssue, yt_UpdateIssue. walk. Qed.

Lemma processYTissue_queries (issue : youtrack.Issue) :
  hoare J (processYTissue s issue) (fun _ => J).
Proof. unfold processYTissue, gcal_CreateEvent, gcal_UpdateEvent. walk. Qed.

Lemma handleDeletion_queries (m : gmap string googlecalendar.Event) (item : DB.SyncItem) :
  hoare J (handleDeletion m item) (fun _ => J).
Proof. unfold handleDeletion, yt_UpdateIssue. walk. Qed.

Lemma processYTDeletion_queries (ytID : string) :
  hoare J (processYTDeletion s ytID) (fun _ => J).
Proof. unfold processYTDeletion, gcal_DeleteEvent. walk. Qed.

Lemma loop_queries {A : Type} (body : A -> M unit) (l : list A) :
  (forall x, hoare J (body x) (fun _ => J)) ->
  hoare J (bind (forM_ l body) (fun _ => ret None)) (fun _ : option error => J).
Proof.
  intros H. apply hoare_J_bind; [| intros ?; apply hoare_J_ret].
  apply hoare_forM_. intros x _. apply H.
Qed.

Lemma handleDeletions_queries (gcalEvents : list googlecalendar.Event) :
  hoare J (handleDeletions gcalEvents) (fun _ => J).
Proof.
  unfold handleDeletions. apply hoare_J_bind; [apply hoare_J_onDB, bindings | intros r].
  destruct r; [apply loop_queries, handleDeletion_queries | apply hoare_J_ret].
Qed.

(** Steps 3 to 6 of a run, one after the other. *)
Lemma reconcile_queries (gcalEvents : list googlecalendar.Event)
  (ytIssues : list youtrack.Issue) (ytDeletedIssueIDs : list string) (w : World) :
  J w ->
  J (snd (processYTDeletions s ytDeletedIssueIDs
            (snd (handleDeletions gcalEvents
                    (snd (processYTissues s ytIssues
                            (snd (processGCalEvents s gcalEvents w)))))))).
Proof.
  intros Hw.
  apply (loop_queries _ _ processYTDeletion_queries).
  apply handleDeletions_queries.
  apply (loop_queries _ _ processYTissue_queries).
  apply (loop_queries _ _ processGCalEvent_queries).
  exact Hw.
Qed.

End QueryFacts.

Section CommitFacts.

Context {E : Type} {gcal : GCalClient E} {yt : YTClient E} {rt : Runtime E}.
Variable s : Synchronizer.

Import Reconciler Spec Run Frame.

Local Abbreviation World := (Reconciler.World E).

Lemma bindings_keep_answers : kept_by_bindings Store.answers.
Proof.
  unfold kept_by_bindings, kept_by.
  split; [| split; [| split; [| split; [| split]]]].
  - intros g d H. now rewrite (lookup_by_gcal g d H).
  - intros y d H. now rewrite (lookup_by_yt y d H).
  - intros d H. unfold DB.GetAllSyncItems. now rewrite (answers_driver d H).
  - intros item d H. now apply CreateSyncItem_answers.
  - intros item d H. now apply UpdateSyncItem_answers.
  - intros k d H. now apply DeleteSyncItem_answers.
Qed.

Lemma kept_by_bindings_and (P Q : DB.t -> Prop) :
  kept_by_bindings P -> kept_by_bindings Q -> kept_by_bindings (fun d => P d /\ Q d).
Proof.
  unfold kept_by_bindings, kept_by.
  intros (P1 & P2 & P3 & P4 & P5 & P6) (Q1 & Q2 & Q3 & Q4 & Q5 & Q6).
  repeat split; intros; match goal with H : _ /\ _ |- _ => destruct H end; auto.
Qed.

Lemma GetGCalSyncToken_answers (d : DB.t) :
  Store.answers d -> DB.GetGCalSyncToken d = (fst (DB.GetGCalSyncToken d), d).
Proof.
  intros H. unfold DB.GetGCalSyncToken. rewrite (answers_driver d H).
  destruct (DB.last_sync d) as [l |]; [| reflexivity].
  now destruct (DB.gcal_sync_token l).
Qed.

Lemma GetYTLastSync_answers (d : DB.t) :
  Store.answers d -> DB.GetYTLastSync d = (fst (DB.GetYTLastSync d), d).
Proof.
  intros H. unfold DB.GetYTLastSync. rewrite (answers_driver d H).
  destruct (DB.last_sync d) as [l |]; [| reflexivity].
  now destruct (DB.yt_last_sync l).
Qed.

Lemma loop_fst {A : Type} (body : A -> M unit) (l : list A) (w : World) :
  fst (bind (forM_ l body) (fun _ => ret None) w) = @None error.
Proof. now rewrite bind_eq. Qed.

Lemma handleDeletions_fst (gcalEvents : list googlecalendar.Event) (w : World) :
  Store.answers (db w) -> fst (handleDeletions gcalEvents w) = None.
Proof.
  intros H. apply handleDeletions_error. unfold DB.GetAllSyncItems.
  rewrite (answers_driver _ H). eauto.
Qed.

Lemma time_Now_eq (w : World) :
  time_Now w
  = (fst (Now (env w)),
     {| db := db w; env := snd (Now (env w));
        calls := calls w ++ [CallNow (fst (Now (env w)))]; logs := logs w |}).
Proof. unfold time_Now. now destruct (Now (env w)). Qed.

Lemma remote_eq {A : Type} (c : Call) (op : E -> A * E) (w : World) :
  remote c op w
  = (fst (op (env w)),
     {| db := db w; env := snd (op (env w)); calls := calls w ++ [c]; logs := logs w |}).
Proof. unfold remote. now destruct (op (env w)). Qed.

Lemma onDB_eq {A : Type} (op : DB.t -> A * DB.t) (w : World) :
  onDB op w
  = (fst (op (db w)),
     {| db := snd (op (db w)); env := env w; calls := calls w; logs := logs w |}).
Proof. unfold onDB. now destruct (op (db w)). Qed.

(** The start of the issue window: the stored watermark, or on a first
    run thirty days before the clock reading taken then. *)
Lemma since_eq (t0 : Time) (w : World) :
  (if gotime.IsZero t0
   then bind time_Now (fun now => ret (gotime.Add now (-30 * 24 * gotime.Hour)))
   else ret t0) w
  = (if gotime.IsZero t0
     then gotime.Add (fst (Now (env w))) (-30 * 24 * gotime.Hour) else t0,
     {| db := db w;
        env := if gotime.IsZero t0 then snd (Now (env w)) else env w;
        calls := if gotime.IsZero t0
                 then calls w ++ [CallNow (fst (Now (env w)))] else calls w;
        logs := logs w |}).
Proof.
  destruct (gotime.IsZero t0).
  - rewrite bind_eq, time_Now_eq. reflexivity.
  - unfold ret. now rewrite world_eta.
Qed.

(** A run that loads both cursors from an answering store and returns no
    error: what it asked, and the world in which it reaches the cursor
    writes. *)
Lemma Sync_reaches_commit (w : World) (tok : string) (t0 : Time) :
  Store.answers (db w) ->
  fst (DB.GetGCalSyncToken (db w)) = Ok tok ->
  fst (DB.GetYTLastSync (db w)) = Ok t0 ->
  fst (Sync s w) = None ->
  let since := if gotime.IsZero t0
               then gotime.Add (fst (Now (env w))) (-30 * 24 * gotime.Hour) else t0 in
  let e1 := if gotime.IsZero t0 then snd (Now (env w)) else env w in
  exists gcalEvents newGCalSyncToken w4,
    fst (FetchEvents (CalendarID s) tok e1) = Ok (gcalEvents, newGCalSyncToken)
    /\ Sync s w = (None, snd (commitCursors tok newGCalSyncToken w4))
    /\ Store.answers (db w4)
    /\ DB.last_sync (db w4) = DB.last_sync (db w)
    /\ queries w4
       = (queries w
          ++ [CallFetchEvents (CalendarID s) tok;
              CallGetUpdatedIssues (YouTrackQueryProjectID s) since;
              CallGetDeletedIssueIDs (YouTrackQueryProjectID s) since])%list.
Proof.
  intros Hans Htok Ht0. cbv zeta.
  unfold Sync. rewrite bind_eq. unfold log. cbn [fst snd]. cbv beta.
  rewrite bind_eq.
  rewrite (onDB_answers DB.GetGCalSyncToken _ (Ok tok) (db w)).
  2:{ cbn [db]. rewrite (GetGCalSyncToken_answers _ Hans). now rewrite Htok. }
  cbn [fst snd db env calls logs]. cbv beta iota. rewrite bind_eq.
  rewrite (onDB_answers DB.GetYTLastSync _ (Ok t0) (db w)).
  2:{ cbn [db]. rewrite (GetYTLastSync_answers _ Hans). now rewrite Ht0. }
  cbn [fst snd db env calls logs]. cbv beta iota. rewrite bind_eq, since_eq.
  cbn [fst snd db env calls logs]. cbv beta.
  set (since := if gotime.IsZero t0 then _ else t0).
  set (e1 := if gotime.IsZero t0 then _ else env w).
  rewrite bind_eq. unfold gcal_FetchEvents. rewrite remote_eq.
  cbn [fst snd db env calls logs].
  destruct (FetchEvents (CalendarID s) tok e1) as [[[gcalEvents newTok] | err] e2];
    cbn [fst snd]; cbv beta iota; [| discriminate].
  rewrite bind_eq. unfold yt_GetUpdatedIssues. rewrite remote_eq.
  cbn [fst snd db env calls logs].
  destruct (GetUpdatedIssues (YouTrackQueryProjectID s) since e2) as [[ytIssues | err] e3];
    cbn [fst snd]; cbv beta iota; [| discriminate].
  rewrite bind_eq. unfold yt_GetDeletedIssueIDs. rewrite remote_eq.
  cbn [fst snd db env calls logs].
  destruct (GetDeletedIssueIDs (YouTrackQueryProjectID s) since e3)
    as [[ytDeleted | err] e4]; cbn [fst snd]; cbv beta iota; [| discriminate].
  match goal with |- context [bind (processGCalEvents s gcalEvents) _ ?x] => set (w3 := x) end.
  set (L := DB.last_sync (db w)).
  set (qs := (queries w
              ++ [CallFetchEvents (CalendarID s) tok;
                  CallGetUpdatedIssues (YouTrackQueryProjectID s) since;
                  CallGetDeletedIssueIDs (YouTrackQueryProjectID s) since])%list).
  set (P := fun d : DB.t => Store.answers d /\ DB.last_sync d = L).
  assert (Hkept : kept_by_bindings P)
    by exact (kept_by_bindings_and _ _ bindings_keep_answers (bindings_keep_cursor_row L)).
  assert (H3 : P (db w3) /\ queries w3 = qs).
  { split; [now split |]. unfold queries, w3, qs. cbn [calls].
    destruct (gotime.IsZero t0); rewrite !List.filter_app; cbn [List.filter is_query];
      rewrite ?List.app_nil_r, <- ?List.app_assoc; reflexivity. }
  clearbody w3.
  assert (H4 : P (db (snd (processGCalEvents s gcalEvents w3)))
               /\ queries (snd (processGCalEvents s gcalEvents w3)) = qs)
    by exact (loop_queries P qs _ gcalEvents (processGCalEvent_queries s P qs Hkept) w3 H3).
  rewrite bind_eq, (loop_fst _ gcalEvents w3 : fst (processGCalEvents s gcalEvents w3) = None). cbv beta iota.
  set (w4 := snd (processGCalEvents s gcalEvents w3)) in *. clearbody w4.
  assert (H5 : P (db (snd (processYTissues s ytIssues w4)))
               /\ queries (snd (processYTissues s ytIssues w4)) = qs)
    by exact (loop_queries P qs _ ytIssues (processYTissue_queries s P qs Hkept) w4 H4).
  rewrite bind_eq, (loop_fst _ ytIssues w4 : fst (processYTissues s ytIssues w4) = None). cbv beta iota.
  set (w5 := snd (processYTissues s ytIssues w4)) in *. clearbody w5.
  assert (H6 : P (db (snd (handleDeletions gcalEvents w5)))
               /\ queries (snd (handleDeletions gcalEvents w5)) = qs)
    by exact (handleDeletions_queries P qs Hkept gcalEvents w5 H5).
  rewrite bind_eq, (handleDeletions_fst gcalEvents w5 (proj1 (proj1 H5))). cbv beta iota.
  set (w6 := snd (handleDeletions gcalEvents w5)) in *. clearbody w6.
  assert (H7 : P (db (snd (processYTDeletions s ytDeleted w6)))
               /\ queries (snd (processYTDeletions s ytDeleted w6)) = qs)
    by exact (loop_queries P qs _ ytDeleted (processYTDeletion_queries s P qs Hkept) w6 H6).
  rewrite bind_eq, (loop_fst _ ytDeleted w6 : fst (processYTDeletions s ytDeleted w6) = None). cbv beta iota.
  set (w7 := snd (processYTDeletions s ytDeleted w6)) in *. clearbody w7.
  intros _. exists gcalEvents, newTok, w7.
  destruct H7 as [[Ha Hl] Hq].
  split; [reflexivity |]. split; [now rewrite bind_eq |]. now repeat split.
Qed.

Lemma SetGCalSyncToken_eq (token : string) (d : DB.t) :
  Store.answers d ->
  DB.SetGCalSyncToken token d
  = (None, DB.with_last_sync d
             (Some {| DB.gcal_sync_token := Some token; DB.yt_last_sync := None |})).
Proof. intros H. unfold DB.SetGCalSyncToken. now rewrite (answers_driver d H). Qed.

Lemma SetYTLastSync_eq (t0 : Time) (d : DB.t) :
  Store.answers d ->
  DB.SetYTLastSync t0 d
  = (None, DB.with_last_sync d
             (Some {| DB.gcal_sync_token :=
                        match DB.last_sync d with
                        | Some l => DB.gcal_sync_token l
                        | None => None
                        end;
                      DB.yt_last_sync := Some t0 |})).
Proof.
  intros H. unfold DB.SetYTLastSync. rewrite (answers_driver d H).
  destruct (DB.last_sync d); [reflexivity |]. now rewrite (answers_driver d H).
Qed.

(** The cursor writes over an answering store. *)
Lemma commitCursors_eq (gcalSyncToken newGCalSyncToken : string) (w : World) :
  Store.answers (db w) ->
  let w' := snd (commitCursors gcalSyncToken newGCalSyncToken w) in
  DB.last_sync (db w')
  = Some {| DB.gcal_sync_token :=
              if negb (String.eqb newGCalSyncToken "")
                 && negb (String.eqb newGCalSyncToken gcalSyncToken)
              then Some newGCalSyncToken else token w;
            DB.yt_last_sync := Some (fst (Now (env w))) |}
  /\ calls w' = (calls w ++ [CallNow (fst (Now (env w)))])%list
  /\ Store.answers (db w')
  /\ rows w' = rows w.
Proof.
  intros Hans. cbv zeta. unfold commitCursors. rewrite bind_eq.
  set (cond := negb (String.eqb newGCalSyncToken "")
               && negb (String.eqb newGCalSyncToken gcalSyncToken)).
  set (d1 := if cond
             then DB.with_last_sync (db w)
                    (Some {| DB.gcal_sync_token := Some newGCalSyncToken;
                             DB.yt_last_sync := None |})
             else db w).
  assert (H1 : snd ((if cond
                     then bind (onDB (DB.SetGCalSyncToken newGCalSyncToken))
                            (fun err => match err with
                                        | Some _ =>
                                            log "Error setting Google Calendar sync token: %v\n"
                                        | None => ret tt
                                        end)
                     else ret tt) w)
                = {| db := d1; env := env w; calls := calls w; logs := logs w |}).
  { unfold d1. destruct cond.
    - rewrite bind_eq.
      rewrite (onDB_answers _ w _ _ (SetGCalSyncToken_eq newGCalSyncToken _ Hans)).
      reflexivity.
    - unfold ret. cbn [snd]. now rewrite world_eta. }
  rewrite H1. cbv beta. rewrite bind_eq, time_Now_eq. cbn [fst snd db env calls logs].
  cbv beta.
  assert (Hans1 : Store.answers d1) by (unfold d1; now destruct cond).
  rewrite bind_eq, onDB_eq. cbn [db env calls logs].
  rewrite (SetYTLastSync_eq (fst (Now (env w))) d1 Hans1).
  cbn [fst snd db env calls logs]. cbv beta iota. rewrite bind_eq.
  unfold ret, log, token, rows. cbn [fst snd db env calls logs].
  unfold d1. destruct cond; cbn; repeat split; exact Hans.
Qed.

(** A cursor row whose token column is NULL stops the run at its first
    step. *)
Lemma Sync_null_token (w : World) (l : DB.LastSync) :
  Store.answers (db w) ->
  DB.last_sync (db w) = Some l ->
  DB.gcal_sync_token l = None ->
  fst (Sync s w) = Some (Errorf "failed to get Google Calendar sync token" ErrScanNull).
Proof.
  intros Hans Hl Htok. unfold Sync. rewrite bind_eq. unfold log. cbn [fst snd]. cbv beta.
  rewrite bind_eq.
  rewrite (onDB_answers DB.GetGCalSyncToken _ (Err ErrScanNull) (db w)); [reflexivity |].
  cbn [db]. unfold DB.GetGCalSyncToken. rewrite (answers_driver _ Hans), Hl, Htok.
  reflexivity.
Qed.

End CommitFacts.

(** What a run asks for: when the store answers, both cursors load and
    the run returns no error, the delta queries it made are exactly
    three, in this order: the calendar's events for the stored token on
    the configured calendar, then the updated issues and the deleted
    issue ids of the query project since the stored watermark.  When no
    watermark is stored the window starts thirty days before the clock
    reading taken at the start of the run. *)
Theorem Sync_asks_since_stored_cursors {E : Type} {gcal : GCalClient E} {yt : YTClient E}
  {rt : Runtime E} (s : Synchronizer) (w : Reconciler.World E) (tok : string) (t0 : Time) :
  Store.answers (Reconciler.db w) ->
  fst (DB.GetGCalSyncToken (Reconciler.db w)) = Ok tok ->
  fst (DB.GetYTLastSync (Reconciler.db w)) = Ok t0 ->
  fst (Reconciler.Sync s w) = None ->
  let since := if gotime.IsZero t0
               then gotime.Add (fst (Now (Reconciler.env w))) (-30 * 24 * gotime.Hour)
               else t0 in
  Run.queries (snd (Reconciler.Sync s w))
  = (Run.queries w
     ++ [CallFetchEvents (CalendarID s) tok;
         CallGetUpdatedIssues (YouTrackQueryProjectID s) since;
         CallGetDeletedIssueIDs (YouTrackQueryProjectID s) since])%list.
Proof.
  intros Hans Htok Ht0 Hres. cbv zeta.
  destruct (Sync_reaches_commit s w tok t0 Hans Htok Ht0 Hres)
    as (evs & new & w4 & _ & Hrun & Ha & _ & Hq).
  rewrite Hrun. cbn [snd].
  destruct (commitCursors_eq tok new w4 Ha) as (_ & Hc & _).
  unfold Run.queries in *. rewrite Hc, List.filter_app. cbn [List.filter Run.is_query].
  now rewrite List.app_nil_r.
Qed.

Lemma Sync_asks_since_stored_cursors_witness :
  let d := DB.with_last_sync Doubles.empty_db
             (Some {| DB.gcal_sync_token := Some "token-1";
                      DB.yt_last_sync := Some 1700000000000000000 |}) in
  Run.queries
    (snd (@Reconciler.Sync unit (Doubles.gcal_up [] "token-2") (Doubles.yt_up [] [])
            (Doubles.rt_fixed 1700000100000000000) Doubles.synchronizer
            (Doubles.world d tt)))
  = [CallFetchEvents "gcal-calendar" "token-1";
     CallGetUpdatedIssues "yt-query-project" 1700000000000000000;
     CallGetDeletedIssueIDs "yt-query-project" 1700000000000000000].
Proof.
  intros d.
  refine (@Sync_asks_since_stored_cursors unit (Doubles.gcal_up [] "token-2")
            (Doubles.yt_up [] []) (Doubles.rt_fixed 1700000100000000000)
            Doubles.synchronizer (Doubles.world d tt) "token-1" 1700000000000000000
            _ _ _ _); reflexivity.
Defined.

(** What a run commits: when the store answers, both cursors load and the
    run returns no error, the cursor row afterwards holds as watermark
    the clock reading taken last, and as token the token the calendar
    returned if that is non-empty and differs from the loaded one, else
    the token column as it was (NULL when there was no cursor row). *)
Theorem Sync_commits_cursors {E : Type} {gcal : GCalClient E} {yt : YTClient E}
  {rt : Runtime E} (s : Synchronizer) (w : Reconciler.World E) (tok : string) (t0 : Time) :
  Store.answers (Reconciler.db w) ->
  fst (DB.GetGCalSyncToken (Reconciler.db w)) = Ok tok ->
  fst (DB.GetYTLastSync (Reconciler.db w)) = Ok t0 ->
  fst (Reconciler.Sync s w) = None ->
  let e1 := if gotime.IsZero t0 then snd (Now (Reconciler.env w)) else Reconciler.env w in
  exists gcalEvents newGCalSyncToken pre now,
    fst (FetchEvents (CalendarID s) tok e1) = Ok (gcalEvents, newGCalSyncToken)
    /\ Reconciler.calls (snd (Reconciler.Sync s w)) = (pre ++ [CallNow now])%list
    /\ DB.last_sync (Reconciler.db (snd (Reconciler.Sync s w)))
       = Some {| DB.gcal_sync_token :=
                   if negb (String.eqb newGCalSyncToken "")
                      && negb (String.eqb newGCalSyncToken tok)
                   then Some newGCalSyncToken else Run.token w;
                 DB.yt_last_sync := Some now |}.
Proof.
  intros Hans Htok Ht0 Hres. cbv zeta.
  destruct (Sync_reaches_commit s w tok t0 Hans Htok Ht0 Hres)
    as (evs & new & w4 & Hfetch & Hrun & Ha & Hl & _).
  destruct (commitCursors_eq tok new w4 Ha) as (Hrow & Hc & _).
  exists evs, new, (Reconciler.calls w4), (fst (Now (Reconciler.env w4))).
  rewrite Hrun. cbn [snd]. split; [exact Hfetch |]. split; [exact Hc |].
  rewrite Hrow. unfold Run.token. now rewrite Hl.
Qed.

Lemma Sync_commits_cursors_witness :
  let d := DB.with_last_sync Doubles.empty_db
             (Some {| DB.gcal_sync_token := Some "token-1";
                      DB.yt_last_sync := Some 1700000000000000000 |}) in
  let w := Doubles.world d tt in
  let run := @Reconciler.Sync unit (Doubles.gcal_up [] "token-1") (Doubles.yt_up [] [])
               (Doubles.rt_fixed 1700000100000000000) Doubles.synchronizer w in
  exists gcalEvents newGCalSyncToken pre now,
    fst (@FetchEvents unit (Doubles.gcal_up [] "token-1") "gcal-calendar" "token-1" tt)
    = Ok (gcalEvents, newGCalSyncToken)
    /\ Reconciler.calls (snd run) = (pre ++ [CallNow now])%list
    /\ DB.last_sync (Reconciler.db (snd run))
       = Some {| DB.gcal_sync_token :=
                   if negb (String.eqb newGCalSyncToken "")
                      && negb (String.eqb newGCalSyncToken "token-1")
                   then Some newGCalSyncToken else Run.token w;
                 DB.yt_last_sync := Some now |}.
Proof.
  intros d w run.
  refine (@Sync_commits_cursors unit (Doubles.gcal_up [] "token-1")
            (Doubles.yt_up [] []) (Doubles.rt_fixed 1700000100000000000)
            Doubles.synchronizer w "token-1" 1700000000000000000 _ _ _ _); reflexivity.
Defined.

(** A first run that gets no token leaves a cursor row the next run
    cannot load: when the store answers and holds no cursor row, and the
    calendar returns the empty token, a run that returns no error
    inserts a cursor row whose token column is NULL, and the run after
    it fails at its first step with the error of scanning NULL into a
    string. *)
Theorem Sync_without_token_blocks_next_run {E : Type} {gcal : GCalClient E}
  {yt : YTClient E} {rt : Runtime E} (s : Synchronizer) (w : Reconciler.World E)
  (gcalEvents : list googlecalendar.Event) :
  Store.answers (Reconciler.db w) ->
  DB.last_sync (Reconciler.db w) = None ->
  fst (FetchEvents (CalendarID s) "" (snd (Now (Reconciler.env w)))) = Ok (gcalEvents, "") ->
  fst (Reconciler.Sync s w) = None ->
  Run.token (snd (Reconciler.Sync s w)) = None
  /\ Spec.watermark (snd (Reconciler.Sync s w)) <> None
  /\ fst (Reconciler.Sync s (snd (Reconciler.Sync s w)))
     = Some (Errorf "failed to get Google Calendar sync token" ErrScanNull).
Proof.
  intros Hans Hrow Hfetch Hres.
  assert (Htok : fst (DB.GetGCalSyncToken (Reconciler.db w)) = Ok "").
  { unfold DB.GetGCalSyncToken. now rewrite (answers_driver _ Hans), Hrow. }
  assert (Ht0 : fst (DB.GetYTLastSync (Reconciler.db w)) = Ok gotime.zero).
  { unfold DB.GetYTLastSync. now rewrite (answers_driver _ Hans), Hrow. }
  destruct (Sync_reaches_commit s w "" gotime.zero Hans Htok Ht0 Hres)
    as (evs & new & w4 & Hfetch' & Hrun & Ha & Hl & _).
  cbn [gotime.IsZero] in Hfetch'.
  change (gotime.IsZero gotime.zero) with true in Hfetch'. cbv iota in Hfetch'.
  rewrite Hfetch in Hfetch'. injection Hfetch' as <- <-.
  destruct (commitCursors_eq "" "" w4 Ha) as (Hcur & _ & Ha' & _).
  rewrite Hrun. cbn [snd].
  cbn [String.eqb negb andb] in Hcur. unfold Run.token at 1 in Hcur.
  rewrite Hl, Hrow in Hcur.
  split; [| split].
  - unfold Run.token. now rewrite Hcur.
  - unfold Spec.watermark. now rewrite Hcur.
  - now apply (Sync_null_token s _ _ Ha' Hcur).
Qed.

Lemma Sync_without_token_blocks_next_run_witness :
  let run := @Reconciler.Sync unit (Doubles.gcal_up [] "") (Doubles.yt_up [] [])
               (Doubles.rt_fixed 1000) Doubles.synchronizer
               (Doubles.world Doubles.empty_db tt) in
  fst (@Reconciler.Sync unit (Doubles.gcal_up [] "") (Doubles.yt_up [] [])
         (Doubles.rt_fixed 1000) Doubles.synchronizer (snd run))
  = Some (Errorf "failed to get Google Calendar sync token" ErrScanNull).
Proof.
  intros run.
  refine (proj2 (proj2 (@Sync_without_token_blocks_next_run unit (Doubles.gcal_up [] "")
                          (Doubles.yt_up [] []) (Doubles.rt_fixed 1000)
                          Doubles.synchronizer (Doubles.world Doubles.empty_db tt) []
                          _ _ _ _))); reflexivity.
Defined.

(** ** Where a run's calls go *)

Section TargetFacts.

Context {E : Type} {gcal : GCalClient E} {yt : YTClient E} {rt : Runtime E}.
Variable s : Synchronizer.

Import Reconciler Spec Run.

Local Abbreviation World := (Reconciler.World E).
Local Abbreviation K := (fun w : World => List.Forall (on_target s) (calls w)).

Lemma hoare_K_ret {A : Type} (a : A) : hoare K (ret a) (fun _ => K).
Proof. intros w Hw. exact Hw. Qed.

Lemma hoare_K_log (format : string) : hoare K (log format) (fun _ => K).
Proof. intros w Hw. exact Hw. Qed.

Lemma hoare_K_remote {A : Type} (c : Call) (op : E -> A * E) :
  on_target s c -> hoare K (remote c op) (fun _ => K).
Proof.
  intros Hc w Hw. unfold remote. destruct (op (env w)) as [a e']; simpl.
  apply List.Forall_app. split; [exact Hw | now constructor].
Qed.

Lemma hoare_K_getBaseURL : hoare K getBaseURL (fun _ => K).
Proof. intros w Hw. exact Hw. Qed.

Lemma hoare_K_time_Now : hoare K time_Now (fun _ => K).
Proof.
  intros w Hw. unfold time_Now. destruct (Now (env w)) as [now e']; simpl.
  apply List.Forall_app. split; [exact Hw | now constructor].
Qed.

Lemma hoare_K_onDB {A : Type} (op : DB.t -> A * DB.t) : hoare K (onDB op) (fun _ => K).
Proof. intros w Hw. unfold onDB. now destruct (op (db w)). Qed.

Lemma hoare_K_bind {A B : Type} (m : M A) (k : A -> M B) (R : B -> World -> Prop) :
  hoare K m (fun _ => K) -> (forall a, hoare K (k a) R) -> hoare K (bind m k) R.
Proof. apply hoare_bind. Qed.

Ltac walk :=
  repeat first
    [ apply hoare_K_log | apply hoare_K_remote; reflexivity | apply hoare_K_getBaseURL
    | apply hoare_K_time_Now | apply hoare_K_ret | apply hoare_K_onDB
    | apply hoare_K_bind; [ | intros ? ]
    | progress cbv zeta
    | match goal with |- hoare _ (match ?x with _ => _ end) _ => destruct x end
    | match goal with |- hoare _ (if ?b then _ else _) _ => destruct b end ].

Lemma processGCalEvent_on_target (event : googlecalendar.Event) :
  hoare K (processGCalEvent s event) (fun _ => K).
Proof.
  unfold processGCalEvent, yt_CreateIssue, yt_UpdateIssue. walk.
  all: apply hoare_K_remote; exact Logic.I.
Qed.

Lemma processYTissue_on_target (issue : youtrack.Issue) :
  hoare K (processYTissue s issue) (fun _ => K).
Proof. unfold processYTissue, gcal_CreateEvent, gcal_UpdateEvent. walk. Qed.

Lemma handleDeletion_on_target (m : gmap string googlecalendar.Event) (item : DB.SyncItem) :
  hoare K (handleDeletion m item) (fun _ => K).
Proof.
  unfold handleDeletion, yt_UpdateIssue. walk.
  all: apply hoare_K_remote; exact Logic.I.
Qed.

Lemma processYTDeletion_on_target (ytID : string) :
  hoare K (processYTDeletion s ytID) (fun _ => K).
Proof. unfold processYTDeletion, gcal_DeleteEvent. walk. Qed.

Lemma loop_on_target {A : Type} (body : A -> M unit) (l : list A) :
  (forall x, hoare K (body x) (fun _ => K)) ->
  hoare K (bind (forM_ l body) (fun _ => ret None)) (fun _ : option error => K).
Proof.
  intros H. apply hoare_K_bind; [| intros ?; apply hoare_K_ret].
  apply hoare_forM_. intros x _. apply H.
Qed.

Lemma Sync_on_target : hoare K (Sync s) (fun _ => K).
Proof.
  unfold Sync, gcal_FetchEvents, yt_GetUpdatedIssues, yt_GetDeletedIssueIDs.
  apply hoare_K_bind; [apply hoare_K_log | intros ?].
  apply hoare_K_bind; [apply hoare_K_onDB | intros r].
  destruct r; [| apply hoare_K_ret].
  apply hoare_K_bind; [apply hoare_K_onDB | intros r].
  destruct r; [| apply hoare_K_ret].
  apply hoare_K_bind; [| intros ?].
  { destruct (gotime.IsZero _); [| apply hoare_K_ret].
    apply hoare_K_bind; [apply hoare_K_time_Now | intros ?; apply hoare_K_ret]. }
  apply hoare_K_bind; [apply hoare_K_remote; reflexivity | intros r].
  destruct r as [[gcalEvents newGCalSyncToken] |]; [| apply hoare_K_ret].
  apply hoare_K_bind; [apply hoare_K_remote; reflexivity | intros r].
  destruct r; [| apply hoare_K_ret].
  apply hoare_K_bind; [apply hoare_K_remote; reflexivity | intros r].
  destruct r; [| apply hoare_K_ret].
  apply hoare_K_bind; [apply loop_on_target, processGCalEvent_on_target | intros r].
  destruct r; [apply hoare_K_ret |].
  apply hoare_K_bind; [apply loop_on_target, processYTissue_on_target | intros r].
  destruct r; [apply hoare_K_ret |].
  apply hoare_K_bind; [| intros r].
  { unfold handleDeletions. apply hoare_K_bind; [apply hoare_K_onDB | intros r].
    destruct r; [apply loop_on_target, handleDeletion_on_target | apply hoare_K_ret]. }
  destruct r; [apply hoare_K_ret |].
  apply hoare_K_bind; [apply loop_on_target, processYTDeletion_on_target | intros r].
  destruct r; [apply hoare_K_ret |].
  apply hoare_K_bind; [| intros ?; apply hoare_K_ret].
  unfold commitCursors. walk.
Qed.

End TargetFacts.

(** A run stays on its configured targets: whatever the collaborators
    answer and whichever statements fail, every calendar call of a run
    (fetch, create, update, delete) names the configured calendar, every
    issue is created in the write project, and both issue queries name
    the query project. *)
Theorem Sync_stays_on_configured_targets {E : Type} {gcal : GCalClient E}
  {yt : YTClient E} {rt : Runtime E} (s : Synchronizer) (w : Reconciler.World E) :
  List.Forall (Run.on_target s) (Reconciler.calls w) ->
  List.Forall (Run.on_target s) (Reconciler.calls (snd (Reconciler.Sync s w))).
Proof. apply Sync_on_target. Qed.

Lemma Sync_stays_on_configured_targets_witness :
  List.Forall (Run.on_target Doubles.synchronizer)
    (Reconciler.calls
       (snd (@Reconciler.Sync unit
               (Doubles.gcal_up [Doubles.event_EV1 "confirmed" 200] "new-gcal-token")
               (Doubles.yt_up [Doubles.issue_YT1 7 [Doubles.due_field 86400000]] ["YT-9"])
               (Doubles.rt_fixed 1000) Doubles.synchronizer
               (Doubles.world Doubles.empty_db tt)))).
Proof.
  apply Sync_stays_on_configured_targets. constructor.
Defined.

(** ** Configuration *)

(** Which variables a configuration needs: once [./.env] was applied,
    loading fails exactly when one of six variables is empty or unset,
    and the error names the first such variable in the order base URL,
    token, project, client id, client secret, redirect URL.  Otherwise it
    succeeds with the values of the environment; the query project is
    the write project when it is not given, and the calendar id is taken
    as it is, empty or not. *)
Theorem LoadConfig_requires_six_variables
  (SetENV : config.Environ -> option config.Environ) (env env' : config.Environ) :
  SetENV env = Some env' ->
  config.LoadConfig SetENV env
  = Some
      match List.find (fun key => String.eqb (config.Getenv env' key) "")
              ["YOUTRACK_BASE_URL"; "YOUTRACK_PERMANENT_TOKEN"; "YOUTRACK_PROJECT_ID";
               "GOOGLE_CLIENT_ID"; "GOOGLE_CLIENT_SECRET"; "GOOGLE_REDIRECT_URL"] with
      | Some key => Err (ErrMsg (key +:+ " not set"))
      | None =>
          Ok {| config.YouTrackBaseURL := config.Getenv env' "YOUTRACK_BASE_URL";
                config.YouTrackPermanentToken :=
                  config.Getenv env' "YOUTRACK_PERMANENT_TOKEN";
                config.YouTrackProjectID := config.Getenv env' "YOUTRACK_PROJECT_ID";
                config.YouTrackQueryProjectID :=
                  if String.eqb (config.Getenv env' "YOUTRACK_QUERY_PROJECT_ID") ""
                  then config.Getenv env' "YOUTRACK_PROJECT_ID"
                  else config.Getenv env' "YOUTRACK_QUERY_PROJECT_ID";
                config.GoogleClientID := config.Getenv env' "GOOGLE_CLIENT_ID";
                config.GoogleClientSecret := config.Getenv env' "GOOGLE_CLIENT_SECRET";
                config.GoogleRedirectURL := config.Getenv env' "GOOGLE_REDIRECT_URL";
                config.GoogleCalendarId := config.Getenv env' "GOOGLE_CALENDAR_ID" |}
      end.
Proof.
  intros Hset. unfold config.LoadConfig. rewrite Hset. cbn [List.find].
  cbn [config.YouTrackBaseURL config.YouTrackPermanentToken config.YouTrackProjectID
       config.YouTrackQueryProjectID].
  destruct (String.eqb (config.Getenv env' "YOUTRACK_BASE_URL") ""); [reflexivity |].
  destruct (String.eqb (config.Getenv env' "YOUTRACK_PERMANENT_TOKEN") ""); [reflexivity |].
  destruct (String.eqb (config.Getenv env' "YOUTRACK_PROJECT_ID") ""); [reflexivity |].
  destruct (String.eqb (config.Getenv env' "YOUTRACK_QUERY_PROJECT_ID") "");
    cbn [config.GoogleClientID config.GoogleClientSecret config.GoogleRedirectURL];
    destruct (String.eqb (config.Getenv env' "GOOGLE_CLIENT_ID") ""); try reflexivity;
    destruct (String.eqb (config.Getenv env' "GOOGLE_CLIENT_SECRET") ""); try reflexivity;
    destruct (String.eqb (config.Getenv env' "GOOGLE_REDIRECT_URL") ""); reflexivity.
Qed.

Lemma LoadConfig_requires_six_variables_witness :
  let env : config.Environ :=
    <["GOOGLE_REDIRECT_URL" := "http://localhost:8080/callback"]>
      (<["GOOGLE_CLIENT_SECRET" := "secret"]>
         (<["GOOGLE_CLIENT_ID" := "client"]>
            (<["YOUTRACK_PROJECT_ID" := "0-1"]>
               (<["YOUTRACK_PERMANENT_TOKEN" := "perm"]>
                  (<["YOUTRACK_BASE_URL" := "https://yt.example.com"]> ∅))))) in
  exists cfg, config.LoadConfig Some env = Some (Ok cfg)
              /\ config.YouTrackQueryProjectID cfg = "0-1"
              /\ config.GoogleCalendarId cfg = "".
Proof.
  intros env. eexists. split.
  - refine (LoadConfig_requires_six_variables Some env env _). reflexivity.
  - vm_compute. split; reflexivity.
Defined.

(** ** The delta fetch of the calendar adapter *)

Section FetchFacts.

Import calendar_v3 googlecalendar_client.

Context {E : Type}.
Variable Events_List_Do : EventsListCall -> E -> Reply * E.
Variable Now : E -> Time * E.
Variable Parse_RFC3339 : string -> result Time.
Variable Parse_date : string -> result Time.

Local Abbreviation request := (request Events_List_Do Now).
Local Abbreviation Lists := (Lists Events_List_Do Now).
Local Abbreviation listed := (listed Parse_RFC3339 Parse_date).
Local Abbreviation FetchEvents_from :=
  (FetchEvents_from Events_List_Do Now Parse_RFC3339 Parse_date).

Lemma Lists_nonempty (calendarID syncToken pageToken : string) (e e' : E)
  (pages : list Events) :
  Lists calendarID syncToken pageToken e pages e' -> pages <> [].
Proof. intros H. destruct H; discriminate. Qed.

Lemma token_of_cons (events : Events) (pages : list Events) :
  pages <> [] -> token_of (events :: pages) = token_of pages.
Proof. unfold token_of. destruct pages; [congruence | reflexivity]. Qed.

(** The loop over the pages of one listing. *)
Lemma FetchEvents_from_Lists (calendarID syncToken pageToken : string) (e e' : E)
  (pages : list Events) :
  Lists calendarID syncToken pageToken e pages e' ->
  forall (fuel : nat) (simplifiedEvents : list googlecalendar.Event),
    (length pages <= fuel)%nat ->
    FetchEvents_from fuel calendarID syncToken simplifiedEvents pageToken e
    = Some (Ok ((simplifiedEvents ++ listed pages)%list, token_of pages), e').
Proof.
  induction 1 as [pageToken e e' events Hreq Hlast
                 | pageToken e e1 e' events pages Hreq Hmore Hrest IH];
    intros fuel acc Hfuel.
  - destruct fuel as [| fuel]; [simpl in Hfuel; lia |].
    simpl. rewrite Hreq, Hlast. simpl.
    unfold googlecalendar_client.listed. simpl. now rewrite List.app_nil_r.
  - destruct fuel as [| fuel]; [simpl in Hfuel; lia |].
    simpl. rewrite Hreq.
    destruct (String.eqb_spec (NextPageToken events) ""); [contradiction |].
    rewrite IH by (simpl in Hfuel; lia).
    rewrite (token_of_cons events pages (Lists_nonempty _ _ _ _ _ _ Hrest)).
    unfold googlecalendar_client.listed. simpl. now rewrite List.app_assoc.
Qed.

End FetchFacts.

(** Pagination: when the service answers the requests of one listing
    with pages that each name a next page, except the last, then
    [FetchEvents] (given fuel for that many requests) returns the
    simplified events of all pages in page order together with the sync
    token of the last page, having asked for each page with the page
    token the page before it named. *)
Theorem FetchEvents_collects_all_pages {E : Type}
  (Events_List_Do : calendar_v3.EventsListCall -> E -> calendar_v3.Reply * E)
  (Now : E -> Time * E) (Parse_RFC3339 Parse_date : string -> result Time)
  (calendarID syncToken : string) (e e' : E) (pages : list calendar_v3.Events)
  (fuel : nat) :
  googlecalendar_client.Lists Events_List_Do Now calendarID syncToken "" e pages e' ->
  (length pages <= fuel)%nat ->
  googlecalendar_client.FetchEvents Events_List_Do Now Parse_RFC3339 Parse_date
    fuel calendarID syncToken e
  = Some (Ok (googlecalendar_client.listed Parse_RFC3339 Parse_date pages,
              googlecalendar_client.token_of pages), e').
Proof.
  intros Hlists Hfuel. unfold googlecalendar_client.FetchEvents.
  now rewrite (FetchEvents_from_Lists _ _ Parse_RFC3339 Parse_date _ _ _ _ _ _ Hlists
                 fuel [] Hfuel).
Qed.

Lemma FetchEvents_collects_all_pages_witness :
  let e := [calendar_v3.Page (Playback.page ["a"; "b"] "page-2" "");
            calendar_v3.Page (Playback.page ["c"] "" "sync-1")] in
  option_map fst (Playback.FetchEvents 2 "primary" "sync-0" e)
  = Some (Ok (googlecalendar_client.listed Playback.Parse Playback.Parse
                [Playback.page ["a"; "b"] "page-2" ""; Playback.page ["c"] "" "sync-1"],
              "sync-1")).
Proof.
  intros e.
  refine (f_equal (option_map fst)
            (@FetchEvents_collects_all_pages _ Playback.Events_List_Do Playback.Now
               Playback.Parse Playback.Parse "primary" "sync-0" e []
               [Playback.page ["a"; "b"] "page-2" ""; Playback.page ["c"] "" "sync-1"]
               2%nat _ _)).
  - apply googlecalendar_client.Lists_next with (e1 := List.tl e);
      [reflexivity | discriminate |].
    apply googlecalendar_client.Lists_last; reflexivity.
  - simpl. lia.
Defined.

(** An expired sync token: at whatever point of a listing the service
    answers with code 410, [FetchEvents] starts over without a sync
    token, and when the service then lists its pages the result is that
    full listing alone: the events collected before the 410 are dropped
    and no error is returned. *)
Theorem FetchEvents_expired_token_restarts_full {E : Type}
  (Events_List_Do : calendar_v3.EventsListCall -> E -> calendar_v3.Reply * E)
  (Now : E -> Time * E) (Parse_RFC3339 Parse_date : string -> result Time)
  (calendarID syncToken pageToken : string) (e e1 e' : E) (err : error)
  (simplifiedEvents : list googlecalendar.Event) (pages : list calendar_v3.Events)
  (fuel : nat) :
  googlecalendar_client.request Events_List_Do Now calendarID syncToken pageToken e
  = (calendar_v3.GoogleapiError 410 err, e1) ->
  googlecalendar_client.Lists Events_List_Do Now calendarID "" "" e1 pages e' ->
  (length pages < fuel)%nat ->
  googlecalendar_client.FetchEvents_from Events_List_Do Now Parse_RFC3339 Parse_date
    fuel calendarID syncToken simplifiedEvents pageToken e
  = Some (Ok (googlecalendar_client.listed Parse_RFC3339 Parse_date pages,
              googlecalendar_client.token_of pages), e').
Proof.
  intros Hreq Hlists Hfuel.
  destruct fuel as [| fuel]; [lia |].
  assert (Hle : (length pages <= fuel)%nat) by lia.
  simpl. rewrite Hreq. simpl.
  now rewrite (FetchEvents_from_Lists _ _ Parse_RFC3339 Parse_date _ _ _ _ _ _ Hlists
                 fuel [] Hle).
Qed.

Lemma FetchEvents_expired_token_restarts_full_witness :
  let e := [calendar_v3.Page (Playback.page ["stale"] "page-2" "");
            calendar_v3.GoogleapiError 410 (ErrMsg "Gone");
            calendar_v3.Page (Playback.page ["a"; "b"] "" "sync-1")] in
  option_map fst (Playback.FetchEvents 3 "primary" "sync-0" e)
  = Some (Ok (List.map (googlecalendar_client.simplified Playback.Parse Playback.Parse)
                [Playback.item "a"; Playback.item "b"],
              "sync-1")).
Proof.
  intros e.
  refine (f_equal (option_map fst)
            (@FetchEvents_expired_token_restarts_full _ Playback.Events_List_Do Playback.Now
               Playback.Parse Playback.Parse "primary" "sync-0" "page-2"
               (List.tl e) (List.tl (List.tl e)) [] (ErrMsg "Gone")
               (List.map (googlecalendar_client.simplified Playback.Parse Playback.Parse)
                  [Playback.item "stale"])
               [Playback.page ["a"; "b"] "" "sync-1"] 2%nat _ _ _)).
  - reflexivity.
  - apply googlecalendar_client.Lists_last; reflexivity.
  - simpl. lia.
Defined.

(** ** Creating an issue *)

(** The due date [CreateIssue] writes is the due date [processYTissues]
    reads: the request body carries a "customFields" member exactly when
    a due date is given, holding one date field named "Due Date" with the
    instant in milliseconds; and for an issue that carries the fields
    sent, the reconciler's due date is the given instant cut to whole
    milliseconds (at most one millisecond earlier), or the zero time
    when none was given. *)
Theorem CreateIssue_due_date_reads_back (c : youtrack.Client)
  (projectID summary description : string) (dueDate : option Time)
  (issue : youtrack.Issue) :
  youtrack.CustomFields issue = youtrack_client.CreateIssue_customFields dueDate ->
  let body := youtrack.Body (youtrack_client.CreateIssue_request c projectID summary
                               description dueDate) in
  match dueDate with
  | Some d =>
      body !! "customFields"
      = Some (youtrack.JArray
                [youtrack.JObject [("$type", youtrack.JString "DateIssueCustomField");
                                   ("name", youtrack.JString "Due Date");
                                   ("value", youtrack.JNumber (youtrack.Time_UnixMilli d))]])
      /\ Reconciler.dueDate_of issue = gotime.UnixMilli (youtrack.Time_UnixMilli d)
      /\ Reconciler.dueDate_of issue <= d < Reconciler.dueDate_of issue + gotime.Millisecond
  | None =>
      body !! "customFields" = None /\ Reconciler.dueDate_of issue = gotime.zero
  end.
Proof.
  intros Hfields. cbv zeta. unfold Reconciler.dueDate_of. rewrite Hfields.
  destruct dueDate as [d |]; simpl.
  - split; [| split].
    + unfold youtrack_client.CreateIssue_issue. simpl. now rewrite lookup_insert_eq.
    + reflexivity.
    + unfold gotime.UnixMilli, youtrack.Time_UnixMilli, gotime.Millisecond.
      pose proof (Z.mod_pos_bound d 1000000 eq_refl) as Hmod.
      pose proof (Z.div_mod d 1000000) as Hdiv. lia.
  - split; [| reflexivity].
    unfold youtrack_client.CreateIssue_issue. simpl.
    now rewrite !lookup_insert_ne by discriminate.
Qed.

Lemma CreateIssue_due_date_reads_back_witness :
  Reconciler.dueDate_of (Doubles.issue_YT1 7
                           (youtrack_client.CreateIssue_customFields (Some 1700004600000123456)))
  = 1700004600000000000.
Proof.
  refine (proj1 (proj2 (CreateIssue_due_date_reads_back
                          {| youtrack.BaseURL := "https://yt.example.com";
                             youtrack.Token := "perm" |}
                          "0-1" "Design review" "" (Some 1700004600000123456)
                          (Doubles.issue_YT1 7
                             (youtrack_client.CreateIssue_customFields
                                (Some 1700004600000123456)))
                          _))).
  reflexivity.
Defined.

(** ** The update branches *)

Section UpdateFacts.

Import DB Store.

(** Writing back a binding whose remote ids are unchanged replaces its
    row and nothing else. *)
Lemma UpdateSyncItem_same_ids (item : SyncItem) (row : Row) (d : t) :
  answers d ->
  constraints (sync_items d) ->
  In row (sync_items d) ->
  ID item = id row ->
  gcal_id (bind_row (ID item) item) = gcal_id row ->
  yt_id (bind_row (ID item) item) = yt_id row ->
  sync_items (snd (UpdateSyncItem item d))
  = List.map (fun o => if id o =? id row then bind_row (ID item) item else o)
      (sync_items d).
Proof.
  intros Hans (Hids & Hg & Hy) Hin Hid Hgid Hyid.
  unfold UpdateSyncItem. rewrite (answers_driver d Hans).
  assert (Hex : List.existsb (fun o => id o =? ID item) (sync_items d) = true).
  { apply existsb_exists. exists row. split; [assumption |]. rewrite Hid. apply Z.eqb_refl. }
  rewrite Hex.
  assert (Hv : violates_unique (bind_row (ID item) item)
                 (List.filter (fun o => negb (id o =? ID item)) (sync_items d)) = false).
  { apply violates_unique_false. intros o Ho.
    apply filter_In in Ho as [Ho Hne]. apply negb_true_iff, Z.eqb_neq in Hne.
    split.
    - intros g Hsome Heq. rewrite Hgid in Hsome.
      pose proof (NoDup_omap_inj gcal_id _ o row g Hg Ho Hin Heq Hsome). subst o.
      congruence.
    - intros y Hsome Heq. rewrite Hyid in Hsome.
      pose proof (NoDup_omap_inj yt_id _ o row y Hy Ho Hin Heq Hsome). subst o.
      congruence. }
  rewrite Hv. simpl. now rewrite Hid.
Qed.

End UpdateFacts.

(** An event newer than its binding is forwarded and the binding moved
    on: for an event that is not cancelled, is bound and has an updated
    instant after the one the binding holds (store answering, schema
    constraints holding), exactly one call is made, [UpdateIssue] on the
    bound issue with the event's summary, its link and its start as due
    date; and whether or not that call succeeded, the binding's calendar
    instant becomes the event's, every other column and row staying as
    it was. *)
Theorem newer_event_updates_issue_and_binding {E : Type} {yt : YTClient E}
  (s : Synchronizer) (event : googlecalendar.Event) (row : DB.Row)
  (w : Reconciler.World E) :
  String.eqb (googlecalendar.Status event) "cancelled" = false ->
  Store.answers (Reconciler.db w) ->
  Store.constraints (Spec.rows w) ->
  List.find (fun r => DB.opt_string_eqb (DB.gcal_id r) (googlecalendar.ID event))
    (Spec.rows w) = Some row ->
  gotime.After (googlecalendar.Updated event)
    (sql.nt_Time (sql.NullTime_Scan (DB.gcal_updated_at row))) = true ->
  let w' := snd (Reconciler.processGCalEvent s event w) in
  Reconciler.calls w'
  = (Reconciler.calls w
     ++ [CallUpdateIssue (sql.ns_String (sql.NullString_Scan (DB.yt_id row)))
           (googlecalendar.Summary event) (googlecalendar.HTMLLink event)
           (Some (googlecalendar.Start event))])%list
  /\ Spec.rows w'
     = List.map (fun o => if DB.id o =? DB.id row
                          then {| DB.id := DB.id row; DB.gcal_id := DB.gcal_id row;
                                  DB.yt_id := DB.yt_id row;
                                  DB.gcal_updated_at := Some (googlecalendar.Updated event);
                                  DB.yt_updated_at := DB.yt_updated_at row |}
                          else o)
         (Spec.rows w).
Proof.
  intros Hst Hans Hcons Hfind Hafter. cbv zeta.
  destruct (processGCalEvent_update_branch s event row w Hst Hans Hfind Hafter)
    as [Hcalls Hdb].
  split; [exact Hcalls |].
  unfold Spec.rows in *. rewrite Hdb.
  apply find_some in Hfind as [Hin _].
  rewrite (UpdateSyncItem_same_ids _ row _ Hans Hcons Hin);
    try (destruct row; simpl; now rewrite ?NullString_Value_Scan, ?NullTime_Value_Scan).
  apply List.map_ext. intros o. destruct (DB.id o =? DB.id row); [| reflexivity].
  destruct row; unfold DB.bind_row; simpl.
  now rewrite !NullString_Value_Scan, !NullTime_Value_Scan.
Qed.

Lemma newer_event_updates_issue_and_binding_witness :
  let w := Doubles.world Doubles.bound_db tt in
  let w' := snd (@Reconciler.processGCalEvent unit (Doubles.yt_down [] [])
                   Doubles.synchronizer (Doubles.event_EV1 "confirmed" 200) w) in
  Reconciler.calls w'
  = [CallUpdateIssue "YT-1" "Sprint kickoff" "https://cal/EV-1" (Some 0)]
  /\ Spec.rows w'
     = [ {| DB.id := 1; DB.gcal_id := Some "EV-1"; DB.yt_id := Some "YT-1";
            DB.gcal_updated_at := Some 200; DB.yt_updated_at := Some 50 |} ].
Proof.
  intros w.
  refine (@newer_event_updates_issue_and_binding unit (Doubles.yt_down [] [])
            Doubles.synchronizer (Doubles.event_EV1 "confirmed" 200)
            {| DB.id := 1; DB.gcal_id := Some "EV-1"; DB.yt_id := Some "YT-1";
               DB.gcal_updated_at := Some 100; DB.yt_updated_at := Some 50 |}
            w _ _ _ _ _); try reflexivity.
  repeat split; simpl; repeat constructor; intros [].
Defined.

(** The same from the issue side: for an issue that is bound and whose
    updated instant is after the one the binding holds, exactly one call
    is made, [UpdateEvent] on the bound event of the configured calendar
    with the issue's summary, the link to the issue, the due instant (the
    zero time when the issue has none) and the due instant plus one
    hour; and whether or not that call succeeded, the binding's issue
    instant becomes the issue's, everything else staying as it was. *)
Theorem newer_issue_updates_event_and_binding {E : Type} {gcal : GCalClient E}
  {yt : YTClient E} {rt : Runtime E} (s : Synchronizer) (issue : youtrack.Issue)
  (row : DB.Row) (w : Reconciler.World E) :
  Store.answers (Reconciler.db w) ->
  Store.constraints (Spec.rows w) ->
  List.find (fun r => DB.opt_string_eqb (DB.yt_id r) (youtrack.ID issue)) (Spec.rows w)
  = Some row ->
  gotime.After (gotime.UnixMilli (youtrack.Updated issue))
    (sql.nt_Time (sql.NullTime_Scan (DB.yt_updated_at row))) = true ->
  let w' := snd (Reconciler.processYTissue s issue w) in
  Reconciler.calls w'
  = (Reconciler.calls w
     ++ [CallUpdateEvent (CalendarID s)
           (sql.ns_String (sql.NullString_Scan (DB.gcal_id row)))
           (youtrack.Summary issue)
           (Reconciler.issue_link (GetBaseURL (Reconciler.env w)) (youtrack.ID issue))
           (Reconciler.dueDate_of issue)
           (gotime.Add (Reconciler.dueDate_of issue) gotime.Hour)])%list
  /\ Spec.rows w'
     = List.map (fun o => if DB.id o =? DB.id row
                          then {| DB.id := DB.id row; DB.gcal_id := DB.gcal_id row;
                                  DB.yt_id := DB.yt_id row;
                                  DB.gcal_updated_at := DB.gcal_updated_at row;
                                  DB.yt_updated_at :=
                                    Some (gotime.UnixMilli (youtrack.Updated issue)) |}
                          else o)
         (Spec.rows w).
Proof.
  intros Hans Hcons Hfind Hafter. cbv zeta.
  destruct (processYTissue_update_branch s issue row w Hans Hfind Hafter)
    as [Hcalls Hdb].
  split; [exact Hcalls |].
  unfold Spec.rows in *. rewrite Hdb.
  apply find_some in Hfind as [Hin _].
  rewrite (UpdateSyncItem_same_ids _ row _ Hans Hcons Hin);
    try (destruct row; simpl; now rewrite ?NullString_Value_Scan, ?NullTime_Value_Scan).
  apply List.map_ext. intros o. destruct (DB.id o =? DB.id row); [| reflexivity].
  destruct row; unfold DB.bind_row; simpl.
  now rewrite !NullString_Value_Scan, !NullTime_Value_Scan.
Qed.

Lemma newer_issue_updates_event_and_binding_witness :
  let w := Doubles.world Doubles.bound_db tt in
  let w' := snd (@Reconciler.processYTissue unit (Doubles.gcal_down [] "")
                   (Doubles.yt_up [] []) (Doubles.rt_fixed 0) Doubles.synchronizer
                   (Doubles.issue_YT1 1 []) w) in
  Reconciler.calls w'
  = [CallUpdateEvent "gcal-calendar" "EV-1" "Design review"
       "YouTrack Issue: http://youtrack.example.com/issue/YT-1"
       gotime.zero (gotime.Add gotime.zero gotime.Hour)]
  /\ Spec.rows w'
     = [ {| DB.id := 1; DB.gcal_id := Some "EV-1"; DB.yt_id := Some "YT-1";
            DB.gcal_updated_at := Some 100; DB.yt_updated_at := Some 1000000 |} ].
Proof.
  intros w.
  refine (@newer_issue_updates_event_and_binding unit (Doubles.gcal_down [] "")
            (Doubles.yt_up [] []) (Doubles.rt_fixed 0) Doubles.synchronizer
            (Doubles.issue_YT1 1 [])
            {| DB.id := 1; DB.gcal_id := Some "EV-1"; DB.yt_id := Some "YT-1";
               DB.gcal_updated_at := Some 100; DB.yt_updated_at := Some 50 |}
            w _ _ _ _); try reflexivity.
  repeat split; simpl; repeat constructor; intros [].
Defined.
